(** * Insurance document pipeline: the review front end and the worker start-up

    A shallow embedding of the TypeScript pages that drive and display the
    quality-control pipeline, and of the start-up script that launches the
    worker lanes:

    - [ExtractedFieldsDisplay]: [flattenData], the field flattening of the
      extracted-fields panel;
    - [QCNewPage]: [handleUpload], the upload form of the QC review;
    - [QCNewResults]: the polling effect of the results page
      ([fetchResults]);
    - [QCNewResultsView]: the rows the results page renders
      ([ValidationRow], [CoverageItem], the three-way comparison rows and
      the coverage-presence rows) and the sections it puts them in;
    - [ConfirmedPage]: [checkStatusAndFinalize], the status/finalize polling
      of the confirmation page;
    - [StartSh]: the Celery worker command lines of [start.sh];
    - [ConfirmedPolling], [QCNewResultsRender], [QCNewResultsPdf],
      [ExtractedFieldsRender], [QCNewPageForm]: what the same pages do
      around the functions above (a server answering one call at a time,
      the views of the results page, its PDF tabs, the rows of the
      extracted-fields panel, the drop zones and the submit button);
    - [SummaryPage]: the carrier cards and the upload of the quotes page
      that leads to the confirmation page;
    - [InsuranceFormPrefillService]: the mapping of a property record to
      form fields;
    - [AuthContext], [EformsAuthProvider]: the session of the user and
      the gate of the C-store forms.

    JSON payloads are dynamically typed in the source ([any]); they are
    embedded as the type [JS.value] with the JavaScript operators the pages
    use on them. Asynchronous functions are embedded as small-step machines
    whose events are the resolutions of the promises they await. *)

From Stdlib Require Import String Ascii List Bool Arith ZArith Lia DecimalString.
Import ListNotations.
Local Open Scope list_scope.
Local Open Scope string_scope.

(* ================================================================== *)
(** * Part I: definitions *)
(* ================================================================== *)

Set Warnings "-register-all".

(** ** JavaScript values and operators *)

Module JS.

(** A JSON value as the pages receive it, plus [undefined]. Numbers are
    kept as integers: the pages only test them for truthiness and print
    them. An object lists its own properties in [Object.entries] order. *)
Inductive value : Type :=
| VUndef
| VNull
| VBool (b : bool)
| VNum (n : Z)
| VStr (s : string)
| VArr (items : list value)
| VObj (fields : list (string * value)).

(** [v === null || v === undefined] *)
Definition is_nullish (v : value) : bool :=
  match v with
  | VUndef | VNull => true
  | _ => false
  end.

(** ToBoolean *)
Definition truthy (v : value) : bool :=
  match v with
  | VUndef | VNull => false
  | VBool b => b
  | VNum n => negb (Z.eqb n 0)
  | VStr s => negb (String.eqb s "")
  | VArr _ | VObj _ => true
  end.

(** [typeof v === 'object'] (true of [null] as well) *)
Definition typeof_object (v : value) : bool :=
  match v with
  | VNull | VArr _ | VObj _ => true
  | _ => false
  end.

(** [Array.isArray(v)] *)
Definition isArray (v : value) : bool :=
  match v with
  | VArr _ => true
  | _ => false
  end.

(** Lookup in the property list of an object. *)
Fixpoint lookup (k : string) (fields : list (string * value)) : option value :=
  match fields with
  | [] => None
  | (k', v) :: rest => if String.eqb k k' then Some v else lookup k rest
  end.

(** [v.k] on a value that is not [null] or [undefined]: a missing
    property, or any property of a primitive or of an array of JSON
    values, reads as [undefined]. *)
Definition get (k : string) (v : value) : value :=
  match v with
  | VObj fields =>
      match lookup k fields with
      | Some x => x
      | None => VUndef
      end
  | _ => VUndef
  end.

(** [k in v] for an object or an array [v]. *)
Definition has (k : string) (v : value) : bool :=
  match v with
  | VObj fields =>
      match lookup k fields with
      | Some _ => true
      | None => false
      end
  | _ => false
  end.

(** [a || b] *)
Definition or (a b : value) : value := if truthy a then a else b.

(** [a ?? b] *)
Definition nullish_or (a b : value) : value := if is_nullish a then b else a.

(** [v === "s"] *)
Definition str_eq (v : value) (s : string) : bool :=
  match v with
  | VStr t => String.eqb t s
  | _ => false
  end.

(** Decimal printing, for template literals such as [`HTTP ${status}`]
    and for array indices. *)
Definition nat_to_string (n : nat) : string :=
  NilZero.string_of_uint (Nat.to_uint n).

Fixpoint chars (s : string) : list value :=
  match s with
  | EmptyString => []
  | String c rest => VStr (String c EmptyString) :: chars rest
  end.

Definition indexed (items : list value) : list (string * value) :=
  combine (map nat_to_string (seq 0 (List.length items))) items.

(** [Object.entries(v)]: the properties of an object, the indexed
    elements of an array or of a string, nothing for other primitives. *)
Definition obj_entries (v : value) : list (string * value) :=
  match v with
  | VObj fields => fields
  | VArr items => indexed items
  | VStr s => indexed (chars s)
  | _ => []
  end.

(** [Object.keys(v).length] *)
Definition keys_length (v : value) : nat := List.length (obj_entries v).

(** [s.includes(t)] *)
Fixpoint includes (t s : string) : bool :=
  if String.prefix t s then true
  else match s with
       | EmptyString => false
       | String _ s' => includes t s'
       end.

(** [String(v)], as [new Error(v)] and template literals apply it. *)
Fixpoint toString (v : value) : string :=
  match v with
  | VUndef => "undefined"
  | VNull => "null"
  | VBool true => "true"
  | VBool false => "false"
  | VNum n => NilZero.string_of_int (Z.to_int n)
  | VStr s => s
  | VArr items =>
      String.concat ","
        (map (fun x => if is_nullish x then "" else toString x) items)
  | VObj _ => "[object Object]"
  end.

(** The outcome of [await response.json()]: the parsed body, or the
    message of the error it rejects with. *)
Inductive json_outcome : Type :=
| JsonFail (msg : string)
| JsonOk (data : value).

(** [list.splice(i, 1)] and [list[i] = x], for the bookkeeping of the
    suspended invocations of an asynchronous function. *)
Fixpoint remove_at {A : Type} (i : nat) (l : list A) : list A :=
  match l, i with
  | [], _ => []
  | _ :: rest, O => rest
  | x :: rest, S j => x :: remove_at j rest
  end.

Fixpoint replace_at {A : Type} (i : nat) (y : A) (l : list A) : list A :=
  match l, i with
  | [], _ => []
  | _ :: rest, O => y :: rest
  | x :: rest, S j => x :: replace_at j y rest
  end.

End JS.

Import JS.

(** ** ExtractedFieldsDisplay: the extracted-fields panel *)

Module ExtractedFieldsDisplay.

(** An entry of the flattened list: the display key and the field data. *)
Definition entry : Type := (string * value)%type.

(** [{ value: v, color: c }] *)
Definition flagged (v c : value) : value :=
  VObj [("value", v); ("color", c)].

(** [prefix ? `${prefix} > ${key}` : key] *)
Definition newKey (prefix key : string) : string :=
  if String.eqb prefix "" then key else prefix ++ " > " ++ key.

(** The loop over [nestedEntries] inside the flagged branch: an entry that
    already is an object with a [value] keeps its data, any other one
    would take the colour of the parent. (['value' in nestedData] throws
    on [null]; no entry is [null], see [flattenValue_tagged].) *)
Definition inherit_color (parent_color : value) (e : entry) : entry :=
  let '(nestedKey, nestedData) := e in
  if typeof_object nestedData && has "value" nestedData
  then (nestedKey, nestedData)
  else (nestedKey, flagged nestedData parent_color).

(** [f (o.k)] for the property list [o] of an object ([dflt] when the
    property is missing), written so that [f] receives a component of
    [o]: this is what lets [flattenData] recurse into [fieldData.value]. *)
Definition with_property {A : Type} (k : string) (dflt : A) (f : value -> A)
  : list (string * value) -> A :=
  fix go (o : list (string * value)) : A :=
    match o with
    | [] => dflt
    | (k', v) :: rest => if String.eqb k k' then f v else go rest
    end.

(** [flattenData(obj, prefix)], by recursion on the JSON value [obj]. *)
Fixpoint flattenValue (isFlagged : bool) (obj : value) (prefix : string)
  {struct obj} : list entry :=
  match obj with
  | VObj fields =>
      flat_map
        (fun kv : string * value =>
           let '(key, fieldData) := kv in
           if is_nullish fieldData then []
           else
             let nk := newKey prefix key in
             if isFlagged && truthy fieldData && typeof_object fieldData
                && has "value" fieldData && has "color" fieldData
             then
               (* a flagged field *)
               match fieldData with
               | VObj ffields =>
                   with_property "value" [(nk, fieldData)]
                     (fun v =>
                        if truthy v && typeof_object v && negb (isArray v)
                        then map (inherit_color (get "color" fieldData))
                                 (flattenValue isFlagged v nk)
                        else [(nk, fieldData)])
                     ffields
               | _ => [(nk, fieldData)]
               end
             else if truthy fieldData && typeof_object fieldData
                     && negb (isArray fieldData)
             then flattenValue isFlagged fieldData nk
             else [(nk, flagged fieldData (VStr "black"))])
        fields
  | _ => []
  end.

(** The body of the [for] loop of [flattenData] for one entry of [obj],
    with the property read [fieldData.value] written as such. *)
Definition flatten_entry (isFlagged : bool) (prefix : string)
  (kv : string * value) : list entry :=
  let '(key, fieldData) := kv in
  if is_nullish fieldData then []
  else
    let nk := newKey prefix key in
    if isFlagged && truthy fieldData && typeof_object fieldData
       && has "value" fieldData && has "color" fieldData
    then
      let v := get "value" fieldData in
      if truthy v && typeof_object v && negb (isArray v)
      then map (inherit_color (get "color" fieldData))
               (flattenValue isFlagged v nk)
      else [(nk, fieldData)]
    else if truthy fieldData && typeof_object fieldData
            && negb (isArray fieldData)
    then flattenValue isFlagged fieldData nk
    else [(nk, flagged fieldData (VStr "black"))].

(** An entry as the list renders it: data with a [value] and a [color]. *)
Definition tagged (d : value) : Prop :=
  has "value" d = true /\ has "color" d = true.

(** A scalar or an array: what [flattenData] does not descend into. *)
Definition leaf (x : value) : Prop :=
  is_nullish x = false /\
  truthy x && typeof_object x && negb (isArray x) = false.

(** [flattenData(obj)] on the entries of the object [obj]. *)
Definition flattenData (isFlagged : bool) (obj : list (string * value))
  (prefix : string) : list entry :=
  flattenValue isFlagged (VObj obj) prefix.

(** The leaves of an object and where they are: [leaf_at obj path x]
    when the keys of [path], followed from [obj] through nested objects,
    end at the scalar or array [x]. *)
Inductive leaf_at : list (string * value) -> list string -> value -> Prop :=
| leaf_here (obj : list (string * value)) (key : string) (x : value) :
    In (key, x) obj -> leaf x -> leaf_at obj [key] x
| leaf_below (obj : list (string * value)) (key : string)
    (fields : list (string * value)) (path : list string) (x : value) :
    In (key, VObj fields) obj -> leaf_at fields path x ->
    leaf_at obj (key :: path) x.



End ExtractedFieldsDisplay.

(** ** QCNewPage: the upload form of the QC review *)

Module QCNewPage.

Record File : Type := { name : string; type : string }.

(** The component state [handleUpload] reads and writes. *)
Record state : Type := {
  plCertificateFile : option File;
  glCertificateFile : option File;
  acordCertificateFile : option File;
  glAcordCertificateFile : option File;
  policyFile : option File;
  uploading : bool;
  uploadId : value;
  error : string;
  results : value
}.

Inductive form_value : Type :=
| FormFile (f : File)
| FormText (s : string).

(** The one request the page sends: [POST /qc-new/upload-unified]. *)
Record request : Type := {
  path : string;
  body : list (string * form_value);
  user_header : string
}.

(** What comes back from [fetch]: the 120 s abort, a network error, or a
    response and the outcome of parsing its body. *)
Inductive fetch_outcome : Type :=
| Aborted
| Rejected (msg : string)
| Responded (status : nat) (body : json_outcome).

Definition response_ok (status : nat) : bool :=
  ((200 <=? status) && (status <=? 299))%nat.

(** What a call of [handleUpload] leaves behind. *)
Record outcome : Type := {
  final : state;
  sent : list request;
  pushed : list string    (* [router.push] targets *)
}.

Definition set_error (msg : string) (st : state) : state :=
  {| plCertificateFile := plCertificateFile st;
     glCertificateFile := glCertificateFile st;
     acordCertificateFile := acordCertificateFile st;
     glAcordCertificateFile := glAcordCertificateFile st;
     policyFile := policyFile st;
     uploading := uploading st;
     uploadId := uploadId st;
     error := msg;
     results := results st |}.

(** [setUploading(true); setError(""); setResults(null)] *)
Definition begin_upload (st : state) : state :=
  {| plCertificateFile := plCertificateFile st;
     glCertificateFile := glCertificateFile st;
     acordCertificateFile := acordCertificateFile st;
     glAcordCertificateFile := glAcordCertificateFile st;
     policyFile := policyFile st;
     uploading := true;
     uploadId := uploadId st;
     error := "";
     results := VNull |}.

(** The outer [catch]: [setError(err.message || ...); setUploading(false)] *)
Definition fail_upload (msg : string) (st : state) : state :=
  {| plCertificateFile := plCertificateFile st;
     glCertificateFile := glCertificateFile st;
     acordCertificateFile := acordCertificateFile st;
     glAcordCertificateFile := glAcordCertificateFile st;
     policyFile := policyFile st;
     uploading := false;
     uploadId := uploadId st;
     error := if String.eqb msg "" then "Failed to upload files" else msg;
     results := results st |}.

(** [setUploadId(newUploadId); setError("")] *)
Definition accept_upload (newUploadId : value) (st : state) : state :=
  {| plCertificateFile := plCertificateFile st;
     glCertificateFile := glCertificateFile st;
     acordCertificateFile := acordCertificateFile st;
     glAcordCertificateFile := glAcordCertificateFile st;
     policyFile := policyFile st;
     uploading := uploading st;
     uploadId := newUploadId;
     error := "";
     results := results st |}.

Definition append_file (field : string) (f : option File)
  : list (string * form_value) :=
  match f with
  | Some x => [(field, FormFile x)]
  | None => []
  end.

(** [user?.username || "user"] *)
Definition username_or_default (username : option string) : string :=
  match username with
  | Some u => if String.eqb u "" then "user" else u
  | None => "user"
  end.

Definition formData (username : option string) (st : state) (policy : File)
  : list (string * form_value) :=
  append_file "pl_certificate_pdf" (plCertificateFile st)
  ++ append_file "gl_certificate_pdf" (glCertificateFile st)
  ++ append_file "acord_certificate_pdf" (acordCertificateFile st)
  ++ append_file "gl_acord_certificate_pdf" (glAcordCertificateFile st)
  ++ [("policy_pdf", FormFile policy);
      ("username", FormText (username_or_default username))].

(** The inner [try] once the request is out: the upload id, or the
    message of the error thrown. *)
Definition read_response (net : fetch_outcome) : string + value :=
  match net with
  | Aborted =>
      inl "Upload timeout: Large files may take up to 2 minutes to process. Please try again or use smaller files."
  | Rejected msg => inl msg
  | Responded status (JsonFail msg) => inl msg
  | Responded status (JsonOk data) =>
      if is_nullish data then
        inl "Cannot read properties of null"
      else if negb (response_ok status) then
        inl (toString
               (or (get "message" data)
                  (or (get "error" data)
                     (or (get "detail" data)
                        (VStr ("Upload failed (" ++ nat_to_string status ++ ")"))))))
      else if negb (truthy (get "upload_id" data)) then
        inl "Server did not return upload_id. Task may not have been queued."
      else inr (get "upload_id" data)
  end.

Definition isSome {A : Type} (o : option A) : bool :=
  match o with
  | Some _ => true
  | None => false
  end.

(** [handleUpload], with the reply [net] the network gives if asked. *)
Definition handleUpload (username : option string) (st : state)
  (net : fetch_outcome) : outcome :=
  if negb (isSome (plCertificateFile st)) && negb (isSome (glCertificateFile st))
  then
    {| final := set_error
         "Please upload at least one certificate (PL or GL) and the policy PDF" st;
       sent := []; pushed := [] |}
  else
    match policyFile st with
    | None =>
        {| final := set_error "Please upload the policy PDF" st;
           sent := []; pushed := [] |}
    | Some policy =>
        let st1 := begin_upload st in
        let req := {| path := "/qc-new/upload-unified";
                      body := formData username st policy;
                      user_header := username_or_default username |} in
        match read_response net with
        | inl msg =>
            {| final := fail_upload msg st1; sent := [req]; pushed := [] |}
        | inr newUploadId =>
            {| final := accept_upload newUploadId st1;
               sent := [req];
               pushed := ["/qc-new-results?id=" ++ toString newUploadId] |}
        end
    end.

(** The certificate and authority documents a submission attaches, by
    form field. *)
Definition attached_certificates (st : state) : list string :=
  map fst
    (append_file "pl_certificate_pdf" (plCertificateFile st)
     ++ append_file "gl_certificate_pdf" (glCertificateFile st)
     ++ append_file "acord_certificate_pdf" (acordCertificateFile st)
     ++ append_file "gl_acord_certificate_pdf" (glAcordCertificateFile st)).

End QCNewPage.

(** ** QCNewResults: the polling effect of the results page *)

Module QCNewResults.

Definition maxRetries : nat := 600.

(** The delay of every [setTimeout(fetchResults, 3000)], in ms. *)
Definition retryDelay : nat := 3000.

Record response : Type := { status : nat; statusText : string }.

Definition ok (r : response) : bool :=
  ((200 <=? status r) && (status r <=? 299))%nat.

(** The [await] at which an invocation of [fetchResults] is suspended. *)
Inductive pc : Type :=
| AwaitFetch                       (* await fetch(...) *)
| AwaitErrorJson (r : response)    (* await response.json(), !response.ok *)
| AwaitJson.                       (* await response.json() *)

(** The state of one run of the effect: its local variables, the
    component state it sets, and the environment (timers and suspended
    invocations), with two counters of what it asked of the environment. *)
Record state : Type := {
  (* captured by the closure of the effect *)
  seen_results : value;
  (* [let] variables of the effect *)
  retryCount : nat;
  timeoutId : option nat;
  isCancelled : bool;
  (* component state *)
  loading : bool;
  error : string;
  results : value;
  statusMessage : string;
  (* environment *)
  pending : list nat;       (* timers set, neither fired nor cleared *)
  running : list pc;        (* suspended invocations of fetchResults *)
  nextTimer : nat;
  fetches : nat;            (* requests issued so far *)
  delays : list nat         (* delay of every timer set so far *)
}.

(** [retryCount++; setStatusMessage(msg); timeoutId = setTimeout(fetchResults, 3000)] *)
Definition retry (msg : nat -> string) (st : state) : state :=
  {| seen_results := seen_results st;
     retryCount := S (retryCount st);
     timeoutId := Some (nextTimer st);
     isCancelled := isCancelled st;
     loading := loading st;
     error := error st;
     results := results st;
     statusMessage := msg (S (retryCount st));
     pending := nextTimer st :: pending st;
     running := running st;
     nextTimer := S (nextTimer st);
     fetches := fetches st;
     delays := retryDelay :: delays st |}.

(** [setError(msg); setLoading(false)] *)
Definition fail (msg : string) (st : state) : state :=
  {| seen_results := seen_results st;
     retryCount := retryCount st;
     timeoutId := timeoutId st;
     isCancelled := isCancelled st;
     loading := false;
     error := msg;
     results := results st;
     statusMessage := statusMessage st;
     pending := pending st;
     running := running st;
     nextTimer := nextTimer st;
     fetches := fetches st;
     delays := delays st |}.

(** [setResults(r); setLoading(false)] *)
Definition succeed (r : value) (st : state) : state :=
  {| seen_results := seen_results st;
     retryCount := retryCount st;
     timeoutId := timeoutId st;
     isCancelled := isCancelled st;
     loading := false;
     error := error st;
     results := r;
     statusMessage := statusMessage st;
     pending := pending st;
     running := running st;
     nextTimer := nextTimer st;
     fetches := fetches st;
     delays := delays st |}.

Definition set_running (l : list pc) (st : state) : state :=
  {| seen_results := seen_results st;
     retryCount := retryCount st;
     timeoutId := timeoutId st;
     isCancelled := isCancelled st;
     loading := loading st;
     error := error st;
     results := results st;
     statusMessage := statusMessage st;
     pending := pending st;
     running := l;
     nextTimer := nextTimer st;
     fetches := fetches st;
     delays := delays st |}.

Definition set_pending (l : list nat) (st : state) : state :=
  {| seen_results := seen_results st;
     retryCount := retryCount st;
     timeoutId := timeoutId st;
     isCancelled := isCancelled st;
     loading := loading st;
     error := error st;
     results := results st;
     statusMessage := statusMessage st;
     pending := l;
     running := running st;
     nextTimer := nextTimer st;
     fetches := fetches st;
     delays := delays st |}.

(** [setStatusMessage(msg)] and the call of [fetch]. *)
Definition issue_fetch (msg : string) (st : state) : state :=
  {| seen_results := seen_results st;
     retryCount := retryCount st;
     timeoutId := timeoutId st;
     isCancelled := isCancelled st;
     loading := loading st;
     error := error st;
     results := results st;
     statusMessage := msg;
     pending := pending st;
     running := running st ++ [AwaitFetch];
     nextTimer := nextTimer st;
     fetches := S (fetches st);
     delays := delays st |}.

(** [isCancelled = true] *)
Definition cancel (st : state) : state :=
  {| seen_results := seen_results st;
     retryCount := retryCount st;
     timeoutId := timeoutId st;
     isCancelled := true;
     loading := loading st;
     error := error st;
     results := results st;
     statusMessage := statusMessage st;
     pending := pending st;
     running := running st;
     nextTimer := nextTimer st;
     fetches := fetches st;
     delays := delays st |}.

(** [isCancelled || results], the guard fetchResults re-checks. *)
Definition stopped (st : state) : bool :=
  isCancelled st || truthy (seen_results st).

Definition count_of (n : nat) : string :=
  "(" ++ nat_to_string n ++ "/" ++ nat_to_string maxRetries ++ ")".

(** The [catch] block of fetchResults, for an error of message [msg]. *)
Definition catch_block (msg : string) (st : state) : state :=
  if (retryCount st <? maxRetries)%nat && negb (isCancelled st)
     && negb (truthy (seen_results st))
  then retry (fun n => "Connection error, retrying... " ++ count_of n) st
  else if negb (truthy (seen_results st))
       then fail (if String.eqb msg ""
                  then "Failed to load results after multiple attempts. Please check if the backend is running on Railway."
                  else msg) st
       else st.

(** A call of [fetchResults], up to its first [await]. *)
Definition fetchResults (st : state) : state :=
  if stopped st then st
  else issue_fetch
         ("Checking results... (attempt " ++ nat_to_string (retryCount st + 1)
          ++ "/" ++ nat_to_string maxRetries ++ ")") st.

(** [errorMsg] after the inner [try] of the [!response.ok] branch. *)
Definition errorMsg_of (r : response) (j : json_outcome) : value :=
  let dflt := VStr ("HTTP " ++ nat_to_string (status r)) in
  match j with
  | JsonOk errorData =>
      if is_nullish errorData
      then or (VStr (statusText r)) dflt      (* TypeError, caught *)
      else or (get "detail" errorData) (or (get "error" errorData) dflt)
  | JsonFail _ => or (VStr (statusText r)) dflt
  end.

(** [data.error.includes("not ready")]; [None] when [data.error] has no
    [includes] method and the call throws. *)
Definition includes_not_ready (e : value) : option bool :=
  match e with
  | VStr s => Some (includes "not ready" s)
  | VArr items => Some (existsb (fun x => str_eq x "not ready") items)
  | _ => None
  end.

(** fetchResults from the parsed body [data] of an ok response on. *)
Definition after_json (data : value) (st : state) : state :=
  if stopped st then st
  else if is_nullish data then
    catch_block "Cannot read properties of null" st
  else if negb (truthy (get "success" data)) || negb (truthy (get "merged" data))
  then
    if truthy (get "error" data) then
      match includes_not_ready (get "error" data) with
      | None => catch_block "data.error.includes is not a function" st
      | Some true =>
          if (retryCount st <? maxRetries)%nat && negb (isCancelled st)
          then retry (fun n => "Processing... " ++ count_of n) st
          else fail
                 "Results are taking longer than expected (30+ minutes). The QC task may have failed. Please check Railway logs or try uploading again."
                 st
      | Some false => catch_block (toString (get "error" data)) st
      end
    else catch_block "Unknown error occurred" st
  else succeed (or (get "merged" data) data) st.

(** fetchResults from the settled [response.json()] of a response that
    is not ok on. *)
Definition after_error_json (r : response) (j : json_outcome) (st : state)
  : state :=
  if ((status r =? 404) || (status r =? 500))%nat
     && (retryCount st <? maxRetries)%nat && negb (isCancelled st)
  then retry (fun n => "Results not ready yet... " ++ count_of n) st
  else catch_block
         ("Failed to fetch results: " ++ toString (errorMsg_of r j)) st.

(** What the environment can do to a running effect. *)
Inductive event : Type :=
| TimerFires (id : nat)
| FetchResolves (i : nat) (r : response)
| FetchRejects (i : nat) (msg : string)
| JsonSettles (i : nat) (j : json_outcome)
| Cleanup.

Definition mem (id : nat) (l : list nat) : bool :=
  existsb (Nat.eqb id) l.

(** [clearTimeout(id)], and the removal of a timer that fires. *)
Definition clear (id : nat) (l : list nat) : list nat :=
  filter (fun x => negb (Nat.eqb id x)) l.

(** One event; [None] when the event cannot happen in [st]. The index [i]
    names the suspended invocation that is resumed. *)
Definition step (e : event) (st : state) : option state :=
  match e with
  | TimerFires id =>
      if mem id (pending st)
      then Some (fetchResults (set_pending (clear id (pending st)) st))
      else None
  | FetchResolves i r =>
      match nth_error (running st) i with
      | Some AwaitFetch =>
          if stopped st then Some (set_running (remove_at i (running st)) st)
          else if negb (ok r)
          then Some (set_running (replace_at i (AwaitErrorJson r) (running st)) st)
          else Some (set_running (replace_at i AwaitJson (running st)) st)
      | _ => None
      end
  | FetchRejects i msg =>
      match nth_error (running st) i with
      | Some AwaitFetch =>
          Some (catch_block msg (set_running (remove_at i (running st)) st))
      | _ => None
      end
  | JsonSettles i j =>
      match nth_error (running st) i with
      | Some (AwaitErrorJson r) =>
          Some (after_error_json r j
                  (set_running (remove_at i (running st)) st))
      | Some AwaitJson =>
          let st' := set_running (remove_at i (running st)) st in
          match j with
          | JsonFail msg => Some (catch_block msg st')
          | JsonOk data => Some (after_json data st')
          end
      | _ => None
      end
  | Cleanup =>
      Some (cancel
              match timeoutId st with
              | Some id => set_pending (clear id (pending st)) st
              | None => st
              end)
  end.

Fixpoint run (events : list event) (st : state) : option state :=
  match events with
  | [] => Some st
  | e :: rest =>
      match step e st with
      | Some st' => run rest st'
      | None => None
      end
  end.

(** The component state when the effect runs, and the variables the
    effect declares before it calls [fetchResults]. *)
Definition fresh (results0 : value) (loading0 : bool) (error0 : string)
  : state :=
  {| seen_results := results0;
     retryCount := 0;
     timeoutId := None;
     isCancelled := false;
     loading := loading0;
     error := error0;
     results := results0;
     statusMessage := "Initializing...";
     pending := [];
     running := [];
     nextTimer := 1;
     fetches := 0;
     delays := [] |}.

(** The body of the effect for the dependencies [uploadId], [apiUrl] and
    [results]. *)
Definition effect (uploadId : option string) (apiUrl : string)
  (results0 : value) (loading0 : bool) (error0 : string) : state :=
  let st := fresh results0 loading0 error0 in
  if truthy results0 then st
  else
    match uploadId with
    | None => fail "No upload ID provided" st
    | Some id =>
        if String.eqb id "" then fail "No upload ID provided" st
        else if String.eqb apiUrl "" then st
        else fetchResults st
    end.

(** The effect on first mount: [loading = true], [error = ""],
    [results = null]. *)
Definition mounted (uploadId apiUrl : string) : state :=
  effect (Some uploadId) apiUrl VNull true "".

(** *** The loop with nobody interfering

    The reply of the server to one request: a network error, or a
    response and the outcome of parsing its body. *)
Inductive exchange : Type :=
| NetworkError (msg : string)
| Reply (r : response) (body : json_outcome).

(** The events of the invocation that is suspended first, answered
    by [x]. *)
Definition answer (x : exchange) (st : state) : option state :=
  match x with
  | NetworkError msg => step (FetchRejects 0 msg) st
  | Reply r body =>
      match step (FetchResolves 0 r) st with
      | Some st' => if stopped st then Some st'
                    else step (JsonSettles 0 body) st'
      | None => None
      end
  end.

(** The effect left alone with a server: the [n]-th request (from 0) is
    answered by [server n]; timers fire when nothing else is going on.
    Each unit of [fuel] pays for one answer or one timer. *)
Fixpoint poll (fuel : nat) (server : nat -> exchange) (st : state) : state :=
  match fuel with
  | O => st
  | S fuel' =>
      match running st, pending st with
      | _ :: _, _ =>
          match answer (server (fetches st - 1)) st with
          | Some st' => poll fuel' server st'
          | None => st
          end
      | [], id :: _ =>
          match step (TimerFires id) st with
          | Some st' => poll fuel' server st'
          | None => st
          end
      | [], [] => st
      end
  end.

(** Nothing left to happen: no request in flight, no timer set. *)
Definition quiescent (st : state) : Prop :=
  running st = [] /\ pending st = [].

(** What holds of the effect whatever the environment does: at most one
    thing is under way, a request or a timer; a pending timer is the one
    [timeoutId] names; a cancelled effect has no timer; once results are
    in, nothing is under way. *)
Definition well_formed (st : state) : Prop :=
  List.length (running st) + List.length (pending st) <= 1
  /\ (forall id, In id (pending st) -> timeoutId st = Some id)
  /\ (isCancelled st = true -> pending st = [])
  /\ (truthy (results st) = true -> quiescent st).

(** The loop has its result or has been cancelled. *)
Definition finished (st : state) : Prop :=
  truthy (results st) = true \/ isCancelled st = true.

(** The undisturbed loop before it ends: not cancelled, no results and no
    error yet, one 3-second timer set per retry counted. *)
Definition counting (st : state) : Prop :=
  isCancelled st = false
  /\ truthy (seen_results st) = false
  /\ retryCount st <= maxRetries
  /\ List.length (delays st) = retryCount st
  /\ Forall (fun d => d = retryDelay) (delays st)
  /\ truthy (results st) = false
  /\ error st = "".

(** An invocation of the undisturbed loop between two awaits: [fetches]
    counts the request it has made. *)
Definition in_attempt (st : state) : Prop :=
  counting st /\ pending st = [] /\ fetches st = retryCount st + 1.

(** The undisturbed loop is waiting for the server, waiting for its
    timer, or over: with results, or, every retry spent, with an error. *)
Definition on_track (st : state) : Prop :=
  (in_attempt st /\ running st = [AwaitFetch])
  \/ (counting st /\ running st = []
      /\ (exists id, pending st = [id]) /\ fetches st = retryCount st)
  \/ (quiescent st
      /\ retryCount st <= maxRetries
      /\ List.length (delays st) = retryCount st
      /\ Forall (fun d => d = retryDelay) (delays st)
      /\ fetches st <= maxRetries + 1
      /\ loading st = false
      /\ (truthy (results st) = true /\ error st = ""
          \/ truthy (results st) = false /\ error st <> ""
             /\ fetches st = maxRetries + 1)).

(** Two bodies of the results endpoint: the results, and "not ready". *)
Definition merged_reply : value :=
  VObj [("success", VBool true);
        ("merged", VObj [("pl_certificate", VObj [("policy_number", VStr "P-1")])])].

Definition not_ready_reply : value :=
  VObj [("success", VBool false); ("error", VStr "Results not ready yet")].

(** The ways an invocation ends, from the state [st] in which it is off
    [running]: a plain [return] (only when cancelled or with results
    seen), a retry, the terminal error, the results. *)
Inductive ending (st : state) : state -> Prop :=
| Returns : stopped st = true -> ending st st
| Retries msg :
    isCancelled st = false -> retryCount st < maxRetries ->
    ending st (retry msg st)
| Fails msg :
    msg <> "" -> (isCancelled st = false -> maxRetries <= retryCount st) ->
    ending st (fail msg st)
| Succeeds r :
    truthy r = true -> stopped st = false -> ending st (succeed r st).

(** Steps the undisturbed loop can still take, at most. *)
Definition work_left (st : state) : nat :=
  match running st, pending st with
  | _ :: _, _ => 2 * (maxRetries - retryCount st) + 2
  | [], _ :: _ => 2 * (maxRetries - retryCount st) + 3
  | [], [] => 0
  end.

End QCNewResults.

(** ** ConfirmedPage: status polling and finalize *)

Module ConfirmedPage.

Definition maxPolls : nat := 240.

(** The two requests the page sends, both for the upload id of the URL. *)
Inductive request : Type :=
| GetUploadStatus (uploadId : string)
| GetFinalizeUpload (uploadId : string) (sheetName : string).

Inductive status_message : Type :=
| Initializing
| CheckingStatus (attempt : option nat)
| WaitingForUpload
| Processing (completed expected : value)
| PushingToSheets
| FinalizingInProgress
| RetryingPush
| ConnectionIssue.

(** The [await] at which an invocation of [checkStatusAndFinalize] is
    suspended, with its [currentAttempt]. *)
Inductive pc : Type :=
| AwaitStatus (currentAttempt : nat)
| AwaitStatusJson (currentAttempt : nat)
| AwaitFinalize (currentAttempt : nat)
| AwaitFinalizeJson (currentAttempt : nat) (ok : bool).

Record state : Type := {
  uploadId : string;
  (* refs *)
  pollInterval : bool;        (* pollIntervalRef.current is set *)
  pollCount : nat;
  isFinalizing : bool;
  (* component state *)
  isProcessing : bool;
  isComplete : bool;
  error : value;
  statusMessage : status_message;
  sheetUrl : value;
  (* environment *)
  running : list pc;
  requests : list request     (* every request sent, latest first *)
}.

Definition set_running (l : list pc) (st : state) : state :=
  {| uploadId := uploadId st; pollInterval := pollInterval st;
     pollCount := pollCount st; isFinalizing := isFinalizing st;
     isProcessing := isProcessing st; isComplete := isComplete st;
     error := error st; statusMessage := statusMessage st;
     sheetUrl := sheetUrl st; running := l; requests := requests st |}.

Definition setStatusMessage (m : status_message) (st : state) : state :=
  {| uploadId := uploadId st; pollInterval := pollInterval st;
     pollCount := pollCount st; isFinalizing := isFinalizing st;
     isProcessing := isProcessing st; isComplete := isComplete st;
     error := error st; statusMessage := m;
     sheetUrl := sheetUrl st; running := running st;
     requests := requests st |}.

Definition set_isFinalizing (b : bool) (st : state) : state :=
  {| uploadId := uploadId st; pollInterval := pollInterval st;
     pollCount := pollCount st; isFinalizing := b;
     isProcessing := isProcessing st; isComplete := isComplete st;
     error := error st; statusMessage := statusMessage st;
     sheetUrl := sheetUrl st; running := running st;
     requests := requests st |}.

(** [clearInterval(pollIntervalRef.current); pollIntervalRef.current = null] *)
Definition stopPolling (st : state) : state :=
  {| uploadId := uploadId st; pollInterval := false;
     pollCount := pollCount st; isFinalizing := isFinalizing st;
     isProcessing := isProcessing st; isComplete := isComplete st;
     error := error st; statusMessage := statusMessage st;
     sheetUrl := sheetUrl st; running := running st;
     requests := requests st |}.

(** [stopPolling(); setError(msg); setIsProcessing(false)] *)
Definition stop_with_error (msg : value) (st : state) : state :=
  {| uploadId := uploadId st; pollInterval := false;
     pollCount := pollCount st; isFinalizing := isFinalizing st;
     isProcessing := false; isComplete := isComplete st;
     error := msg; statusMessage := statusMessage st;
     sheetUrl := sheetUrl st; running := running st;
     requests := requests st |}.

(** [stopPolling(); setIsComplete(true); setSheetUrl(url); setIsProcessing(false)] *)
Definition complete (url : value) (st : state) : state :=
  {| uploadId := uploadId st; pollInterval := false;
     pollCount := pollCount st; isFinalizing := isFinalizing st;
     isProcessing := false; isComplete := true;
     error := error st; statusMessage := statusMessage st;
     sheetUrl := url; running := running st;
     requests := requests st |}.

(** A call of [fetch], suspending the caller at [at_pc]. *)
Definition send (r : request) (at_pc : pc) (st : state) : state :=
  {| uploadId := uploadId st; pollInterval := pollInterval st;
     pollCount := pollCount st; isFinalizing := isFinalizing st;
     isProcessing := isProcessing st; isComplete := isComplete st;
     error := error st; statusMessage := statusMessage st;
     sheetUrl := sheetUrl st; running := running st ++ [at_pc];
     requests := r :: requests st |}.

Definition incr_pollCount (st : state) : state :=
  {| uploadId := uploadId st; pollInterval := pollInterval st;
     pollCount := S (pollCount st); isFinalizing := isFinalizing st;
     isProcessing := isProcessing st; isComplete := isComplete st;
     error := error st; statusMessage := statusMessage st;
     sheetUrl := sheetUrl st; running := running st;
     requests := requests st |}.

(** The [catch] block, for an error of message [msg]: network errors and
    anything else thrown inside the [try]. *)
Definition catch_block (msg : string) (st : state) : state :=
  let st1 := set_isFinalizing false st in
  if (pollCount st1 <? 50)%nat
  then setStatusMessage ConnectionIssue st1
  else stop_with_error (or (VStr msg) (VStr "Failed to communicate with server")) st1.

(** A call of [checkStatusAndFinalize], up to its first [await]. *)
Definition checkStatusAndFinalize (st : state) : state :=
  let st1 := incr_pollCount st in
  let currentAttempt := pollCount st1 in
  send (GetUploadStatus (uploadId st)) (AwaitStatus currentAttempt)
    (setStatusMessage (CheckingStatus (Some currentAttempt)) st1).

(** From the status response on (its body not read yet). *)
Definition after_status (i currentAttempt status : nat) (st : state) : state :=
  if (status =? 404)%nat then
    let st1 := set_running (remove_at i (running st)) st in
    if (maxPolls <=? currentAttempt)%nat
    then stop_with_error (VStr "Upload not found. Please try again.") st1
    else setStatusMessage WaitingForUpload st1
  else set_running (replace_at i (AwaitStatusJson currentAttempt) (running st)) st.

(** From the parsed status body on; the invocation [i] has been taken off
    [running] and is put back if it goes on to call finalize. *)
Definition after_status_json (currentAttempt : nat) (j : json_outcome)
  (st : state) : state :=
  match j with
  | JsonFail _ =>
      if (currentAttempt <? 30)%nat then st
      else stop_with_error (VStr "Failed to communicate with server") st
  | JsonOk statusData =>
      if is_nullish statusData then
        catch_block "Cannot read properties of null" st
      else if negb (truthy (get "ready" statusData)) then
        if (maxPolls <=? currentAttempt)%nat
        then stop_with_error
               (VStr "Processing is taking longer than expected. Please check back in a few minutes.")
               st
        else setStatusMessage
               (Processing (or (get "completed_files" statusData) (VNum 0))
                           (or (get "expected_files" statusData) (VNum 1)))
               st
      else if isFinalizing st then st
      else
        send (GetFinalizeUpload (uploadId st) "Insurance Fields Data")
          (AwaitFinalize currentAttempt)
          (setStatusMessage PushingToSheets (set_isFinalizing true st))
  end.

(** From the parsed finalize body on. *)
Definition after_finalize_json (currentAttempt : nat) (ok : bool)
  (j : json_outcome) (st : state) : state :=
  match j with
  | JsonFail _ =>
      let st1 := set_isFinalizing false st in
      if (currentAttempt <? 50)%nat then st1
      else stop_with_error (VStr "Failed to push data to Google Sheets") st1
  | JsonOk finalizeData =>
      if is_nullish finalizeData then
        catch_block "Cannot read properties of null" st
      else if truthy (get "inProgress" finalizeData) then
        setStatusMessage FinalizingInProgress st
      else if ok && truthy (get "success" finalizeData) then
        complete (or (get "sheetUrl" finalizeData) VNull) st
      else
        let st1 := set_isFinalizing false st in
        let errorMsg :=
          or (get "error" finalizeData)
             (or (get "detail" finalizeData) (VStr "")) in
        if (currentAttempt <? 60)%nat
        then setStatusMessage RetryingPush st1
        else stop_with_error
               (or errorMsg (VStr "Failed to push data to Google Sheets")) st1
  end.

Definition response_ok (status : nat) : bool :=
  ((200 <=? status) && (status <=? 299))%nat.

(** What the environment can do to the page. *)
Inductive event : Type :=
| Tick                                       (* the 3 s interval fires *)
| Resolves (i : nat) (status : nat)          (* a fetch resolves *)
| Rejects (i : nat) (msg : string)           (* a fetch rejects *)
| JsonSettles (i : nat) (j : json_outcome)   (* a response.json() settles *)
| Unmount.

Definition step (e : event) (st : state) : option state :=
  match e with
  | Tick =>
      if pollInterval st then Some (checkStatusAndFinalize st) else None
  | Resolves i status =>
      match nth_error (running st) i with
      | Some (AwaitStatus a) => Some (after_status i a status st)
      | Some (AwaitFinalize a) =>
          Some (set_running
                  (replace_at i (AwaitFinalizeJson a (response_ok status))
                     (running st)) st)
      | _ => None
      end
  | Rejects i msg =>
      match nth_error (running st) i with
      | Some (AwaitStatus _) | Some (AwaitFinalize _) =>
          Some (catch_block msg (set_running (remove_at i (running st)) st))
      | _ => None
      end
  | JsonSettles i j =>
      match nth_error (running st) i with
      | Some (AwaitStatusJson a) =>
          Some (after_status_json a j
                  (set_running (remove_at i (running st)) st))
      | Some (AwaitFinalizeJson a ok) =>
          Some (after_finalize_json a ok j
                  (set_running (remove_at i (running st)) st))
      | _ => None
      end
  | Unmount => Some (stopPolling st)
  end.

Fixpoint run (events : list event) (st : state) : option state :=
  match events with
  | [] => Some st
  | e :: rest =>
      match step e st with
      | Some st' => run rest st'
      | None => None
      end
  end.

(** The effect for an upload id in the URL, once hydrated and logged in:
    reset the counters and the component state, start the interval and
    call [checkStatusAndFinalize] at once. [isFinalizingRef] is a ref of
    the component and keeps the value it has. *)
Definition effect (uploadId0 : string) (isFinalizing0 : bool) : state :=
  checkStatusAndFinalize
    {| uploadId := uploadId0; pollInterval := true; pollCount := 0;
       isFinalizing := isFinalizing0; isProcessing := true;
       isComplete := false; error := VNull;
       statusMessage := CheckingStatus None; sheetUrl := VNull;
       running := []; requests := [] |}.






End ConfirmedPage.

(** ** QCNewResults: the rows of the results page *)

Module QCNewResultsView.

(** [s.replace(/_/g, " ")] *)
Fixpoint replace_underscores (s : string) : string :=
  match s with
  | EmptyString => EmptyString
  | String c rest =>
      String (if Ascii.eqb c "_" then " "%char else c) (replace_underscores rest)
  end.

(** [s.toUpperCase()] on the ASCII letters that field keys are made of. *)
Definition upper_char (c : ascii) : ascii :=
  let n := nat_of_ascii c in
  if ((97 <=? n) && (n <=? 122))%nat then ascii_of_nat (n - 32) else c.

Fixpoint toUpperCase (s : string) : string :=
  match s with
  | EmptyString => EmptyString
  | String c rest => String (upper_char c) (toUpperCase rest)
  end.

(** [field.replace(/_/g, " ").toUpperCase()] *)
Definition field_label (field : string) : string :=
  toUpperCase (replace_underscores field).

(** The status pill: its colour classes and the value put in it
    ([{status}]), which React prints as it is when it is a string. *)
Record badge : Type := { badge_class : string; badge_text : value }.

Definition green : string := "bg-green-100 text-green-700".
Definition red : string := "bg-red-100 text-red-700".
Definition yellow : string := "bg-yellow-100 text-yellow-700".

(** The colour choice every comparison row repeats:
    [status === "MATCH" ? green : status === "MISMATCH" || status ===
    "NOT_FOUND" ? red : yellow]. *)
Definition status_class (status : value) : string :=
  if str_eq status "MATCH" then green
  else if str_eq status "MISMATCH" || str_eq status "NOT_FOUND" then red
  else yellow.

Definition status_badge (status : value) : badge :=
  {| badge_class := status_class status; badge_text := status |}.

(** [cond && <div>{v}</div>]: the element is there when [cond] is truthy. *)
Definition when (cond : bool) (v : value) : option value :=
  if cond then Some v else None.

(** *** ValidationRow *)

Record validation_row : Type := {
  vr_label : value;
  vr_badge : badge;
  vr_certificate : value;
  vr_policy : value;
  vr_evidence : option value
}.

Definition ValidationRow (label certValue policyValue status evidence : value)
  : validation_row :=
  {| vr_label := label;
     vr_badge := status_badge status;
     vr_certificate := or certValue (VStr "N/A");
     vr_policy := or policyValue (VStr "N/A");
     vr_evidence := when (truthy evidence) evidence |}.

(** [<ValidationRow label={field...} certValue={data.certificate_value}
    policyValue={data.policy_value} status={data.status}
    evidence={data.evidence} />] for an entry of the core validations;
    [None] when [data] is [null] and reading it throws. *)
Definition core_row (entry : string * value) : option validation_row :=
  let '(field, data) := entry in
  if is_nullish data then None
  else Some (ValidationRow (VStr (field_label field))
               (get "certificate_value" data) (get "policy_value" data)
               (get "status" data) (get "evidence" data)).

(** [item.address_type?.replace(/_/g, " ").toUpperCase() || "Address"];
    [None] when [address_type] is neither a string nor nullish and has no
    [replace]. *)
Definition address_label (address_type : value) : option value :=
  match address_type with
  | VUndef | VNull => Some (VStr "Address")
  | VStr s => Some (or (VStr (field_label s)) (VStr "Address"))
  | _ => None
  end.

Definition address_row (item : value) : option validation_row :=
  if is_nullish item then None
  else
    match address_label (get "address_type" item) with
    | Some label =>
        Some (ValidationRow label
                (or (get "cert_value" item) (VStr "N/A"))
                (or (get "policy_value" item) (VStr "Not found"))
                (get "status" item) (get "evidence" item))
    | None => None
    end.

(** *** CoverageItem *)

Record coverage_view : Type := {
  cv_borderColor : string;
  cv_name : value;
  cv_ocr_variation : bool;        (* the "OCR Variation" pill *)
  cv_badge : badge;
  cv_certificate : value;
  cv_policy : value;
  cv_name_variation_notice : bool; (* "Name Variation Detected: ..." *)
  cv_notes : option value;
  cv_evidence_policy : option value;
  cv_evidence_declarations : option value;
  cv_evidence_endorsement : option value
}.

(** [a || b || ... || last] *)
Definition first_truthy (item : value) (keys : list string) (last : value)
  : value :=
  fold_right (fun k acc => or (get k item) acc) last keys.

(** [cond ? `${pre}${v}${post}` : ''] *)
Definition opt_part (pre : string) (v : value) (post : string) : string :=
  if truthy v then pre ++ toString v ++ post else "".

(** [v && v !== "null"] *)
Definition shown (v : value) : bool := truthy v && negb (str_eq v "null").

Definition CoverageItem (item : value) : option coverage_view :=
  if is_nullish item then None
  else
    let isGLLimitItem := truthy (get "cert_limit_key" item) in
    let isAdditionalInterest :=
      truthy (get "cert_interest_name" item) && negb isGLLimitItem in
    let coverageName :=
      if isGLLimitItem
      then first_truthy item ["cert_limit_label"; "cert_limit_key"] (VStr "Limit")
      else if isAdditionalInterest then get "cert_interest_name" item
      else first_truthy item
             ["cert_building_name"; "cert_bpp_name"; "cert_bi_name";
              "cert_ms_name"; "cert_eb_name"; "cert_os_name";
              "cert_ed_name"; "cert_pc_name"; "cert_theft_name";
              "cert_wind_hail_name"] (VStr "Coverage") in
    let certValue :=
      if isGLLimitItem
      then first_truthy item ["cert_value"; "cert_limit_value"] (VStr "N/A")
      else if isAdditionalInterest
      then VStr (toString (get "cert_interest_name" item)
                 ++ opt_part " - " (get "cert_interest_address" item) "")
      else first_truthy item
             ["cert_building_value"; "cert_bpp_value"; "cert_bi_value";
              "cert_ms_value"; "cert_eb_value"; "cert_os_value";
              "cert_ed_value"; "cert_pc_value"; "cert_theft_value";
              "cert_wind_hail_value"; "cert_value"] (VStr "N/A") in
    let policyValue :=
      if isGLLimitItem
      then first_truthy item ["policy_value"; "policy_limit_value"]
             (VStr "Not found")
      else if isAdditionalInterest
      then VStr (toString (or (get "policy_interest_name" item) (VStr "Not found"))
                 ++ opt_part " - " (get "policy_interest_address" item) ""
                 ++ opt_part " (" (get "policy_interest_type" item) ")")
      else first_truthy item
             ["policy_building_value"; "policy_bpp_value"; "policy_bi_value";
              "policy_ms_value"; "policy_ms_split"; "policy_eb_value";
              "policy_os_value"; "policy_ed_value"; "policy_pc_value";
              "policy_theft_value"; "policy_wind_hail_value"; "policy_value"]
             (VStr "N/A") in
    let evidenceDecl :=
      or (get "evidence_declarations" item) (get "evidence_causes_of_loss" item) in
    let evidenceEndorsement :=
      or (get "evidence_endorsements" item)
         (get "evidence_deductible_endorsement" item) in
    let evidenceAdditionalInterest := get "evidence" item in
    let anyEvidence :=
      truthy evidenceDecl || truthy evidenceEndorsement
      || truthy evidenceAdditionalInterest in
    let status := get "status" item in
    let name_variation :=
      truthy (get "match_type" item)
      && str_eq (get "match_type" item) "NAME_VARIATION" in
    Some
      {| cv_borderColor :=
           if str_eq status "MATCH" then "#10b981"
           else if str_eq status "MISMATCH" || str_eq status "NOT_FOUND"
                then "#ef4444" else "#f59e0b";
         cv_name := coverageName;
         cv_ocr_variation := name_variation;
         cv_badge := status_badge status;
         cv_certificate := certValue;
         cv_policy := policyValue;
         cv_name_variation_notice := isAdditionalInterest && name_variation;
         cv_notes := when (shown (get "notes" item)) (get "notes" item);
         cv_evidence_policy :=
           when (anyEvidence && shown evidenceAdditionalInterest)
             evidenceAdditionalInterest;
         cv_evidence_declarations :=
           when (anyEvidence && shown evidenceDecl) evidenceDecl;
         cv_evidence_endorsement :=
           when (anyEvidence && shown evidenceEndorsement) evidenceEndorsement |}.

(** *** The coverage-presence rows of the GL section *)

Record presence_row : Type := {
  pr_coverage_name : value;
  pr_cert_policy_number : value;
  pr_policy_policy_number : option value;
  pr_badge : badge;
  pr_evidence : option value;
  pr_notes : option value
}.

Definition presence_item (item : value) : option presence_row :=
  if is_nullish item then None
  else
    Some
      {| pr_coverage_name := get "coverage_name" item;
         pr_cert_policy_number := get "cert_policy_number" item;
         pr_policy_policy_number :=
           when (truthy (get "policy_policy_number" item))
             (get "policy_policy_number" item);
         pr_badge :=
           {| badge_class :=
                if str_eq (get "status" item) "PRESENT" then green else red;
              badge_text := get "status" item |};
         pr_evidence := when (truthy (get "evidence" item)) (get "evidence" item);
         pr_notes := when (truthy (get "notes" item)) (get "notes" item) |}.

(** *** The three-way rows: policy, certificate and ACORD side by side *)

Record three_way_row : Type := {
  tw_label : value;
  tw_group : value;
  tw_badge : badge;
  tw_policy : value;
  tw_certificate : value;
  tw_acord : value;
  tw_notes : option value;
  tw_validator_notes : option value;
  tw_evidence : list (string * value)   (* attributed excerpts *)
}.

(** "PL vs Policy vs ACORD (Core Fields)" *)
Definition acordPlCoreRow (entry : string * value) : option three_way_row :=
  let '(field, data) := entry in
  if is_nullish data then None
  else
    Some
      {| tw_label := VStr (field_label field);
         tw_group := VUndef;
         tw_badge := status_badge (get "status" data);
         tw_policy := nullish_or (get "policy_value" data) (VStr "N/A");
         tw_certificate := nullish_or (get "certificate_value" data) (VStr "N/A");
         tw_acord := nullish_or (get "acord_value" data) (VStr "N/A");
         tw_notes := when (truthy (get "notes" data)) (get "notes" data);
         tw_validator_notes := None;
         tw_evidence := [] |}.

(** "GL vs Policy vs GL ACORD (Core Fields)" *)
Definition glAcordCoreRow (entry : string * value) : option three_way_row :=
  let '(field, data) := entry in
  if is_nullish data then None
  else
    Some
      {| tw_label := VStr (field_label field);
         tw_group := VUndef;
         tw_badge := status_badge (get "status" data);
         tw_policy := or (get "policy_value" data) (VStr "N/A");
         tw_certificate := or (get "certificate_value" data) (VStr "N/A");
         tw_acord := or (get "gl_acord_value" data) (VStr "N/A");
         tw_notes := when (truthy (get "notes" data)) (get "notes" data);
         tw_validator_notes := None;
         tw_evidence := [] |}.

Definition excerpt (source : string) (show : bool) (v : value)
  : list (string * value) :=
  if show then [(source, v)] else [].

(** [item.coverage_group?.replace(/_/g, " ")]; [None] when the group is
    neither a string nor nullish and has no [replace]. *)
Definition coverage_group (g : value) : option value :=
  match g with
  | VUndef | VNull => Some VUndef
  | VStr s => Some (VStr (replace_underscores s))
  | _ => None
  end.

(** "PL vs Policy vs ACORD (Coverages)" *)
Definition acordPlCoverageRow (item : value) : option three_way_row :=
  if is_nullish item then None
  else
    let decl := get "evidence_declarations" item in
    let endo := get "evidence_endorsements" item in
    let any := truthy decl || truthy endo in
    match coverage_group (get "coverage_group" item) with
    | None => None
    | Some group =>
    Some
      {| tw_label := or (get "coverage_name" item) (VStr "Coverage");
         tw_group := group;
         tw_badge := status_badge (get "status" item);
         tw_policy := nullish_or (get "policy_value" item) (VStr "N/A");
         tw_certificate := nullish_or (get "certificate_value" item) (VStr "N/A");
         tw_acord := nullish_or (get "acord_value" item) (VStr "N/A");
         tw_notes := when (truthy (get "notes" item)) (get "notes" item);
         tw_validator_notes :=
           when (shown (get "validator_notes" item)) (get "validator_notes" item);
         tw_evidence :=
           (excerpt "From Declarations:" (any && shown decl) decl
            ++ excerpt "From Endorsement:" (any && shown endo) endo)%list |}
    end.

(** "GL vs Policy vs GL ACORD (Coverages)" *)
Definition glAcordCoverageRow (item : value) : option three_way_row :=
  if is_nullish item then None
  else
    Some
      {| tw_label := get "coverage_name" item;
         tw_group := VUndef;
         tw_badge := status_badge (get "status" item);
         tw_policy := or (get "policy_value" item) (VStr "N/A");
         tw_certificate := or (get "certificate_value" item) (VStr "N/A");
         tw_acord := or (get "gl_acord_value" item) (VStr "N/A");
         tw_notes := when (truthy (get "notes" item)) (get "notes" item);
         tw_validator_notes :=
           when (shown (get "validator_notes" item)) (get "validator_notes" item);
         tw_evidence :=
           excerpt "From Policy:" (shown (get "evidence" item))
             (get "evidence" item) |}.

(** *** The validation results of the page *)

(** What the right-hand pane shows below "Validation Results", in page
    order (the tables of extracted fields and the summary counts, which
    carry no verdict, are left out). *)
Inductive block : Type :=
| Core (r : validation_row)
| Address (r : validation_row)
| Presence (r : presence_row)
| CoverageGroup (coverage : string) (items : list coverage_view)
| Interest (v : coverage_view)
| NoInterests
| ThreeWayCore (r : three_way_row)
| ThreeWayCoverage (r : three_way_row).

(** [l.map(f)] where [f] may throw. *)
Fixpoint traverse {A B : Type} (f : A -> option B) (l : list A)
  : option (list B) :=
  match l with
  | [] => Some []
  | x :: rest =>
      match f x, traverse f rest with
      | Some y, Some ys => Some (y :: ys)
      | _, _ => None
      end
  end.

Definition omap {A B : Type} (f : A -> B) (o : option A) : option B :=
  match o with
  | Some x => Some (f x)
  | None => None
  end.

(** [v.length], of an array or a string. *)
Definition js_length (v : value) : option nat :=
  match v with
  | VArr items => Some (List.length items)
  | VStr s => Some (String.length s)
  | _ => None
  end.

Definition length_is_zero (v : value) : bool :=
  match js_length v with
  | Some O => true
  | _ => false
  end.

Definition length_is_positive (v : value) : bool :=
  match js_length v with
  | Some (S _) => true
  | _ => false
  end.

(** [v.map(f)]: only arrays have [map]. *)
Definition map_array {B : Type} (f : value -> option B) (v : value)
  : option (list B) :=
  match v with
  | VArr items => traverse f items
  | _ => None
  end.

(** The groups of a coverage-validation object: a group is shown when its
    value is a non-empty array. *)
Definition coverage_groups (validations : list (string * value))
  : option (list block) :=
  omap (@List.concat block)
    (traverse
       (fun kv : string * value =>
          let '(coverage, items) := kv in
          match items with
          | VArr ((_ :: _) as l) =>
              omap (fun vs => [CoverageGroup coverage vs]) (traverse CoverageItem l)
          | _ => Some []
          end)
       validations).

(** The "Additional Interests Validation" part, in both places it is
    rendered. *)
Definition additional_interests (plAdditionalInterests : value)
  : option (list block) :=
  if length_is_positive plAdditionalInterests
  then map_array (fun i => omap Interest (CoverageItem i)) plAdditionalInterests
  else if length_is_zero plAdditionalInterests then Some [NoInterests]
  else Some [].

(** [cond && (...)] around a part of the page. *)
Definition part (cond : bool) (blocks : option (list block))
  : option (list block) :=
  if cond then blocks else Some [].

(** Parts one after the other; a part that throws takes the page down. *)
Fixpoint parts (l : list (option (list block))) : option (list block) :=
  match l with
  | [] => Some []
  | p :: rest =>
      match p, parts rest with
      | Some a, Some b => Some (a ++ b)%list
      | _, _ => None
      end
  end.

(** The constants the component derives from [results] before it
    renders. *)
Definition is_undefined (v : value) : bool :=
  match v with
  | VUndef => true
  | _ => false
  end.

Definition hasPlGlFormat (results : value) : bool :=
  negb (is_undefined (get "pl_certificate" results))
  || negb (is_undefined (get "gl_certificate" results)).

Definition plCoreValidations (results : value) : value :=
  or (get "core_validations" (get "pl_validations" results)) (VObj []).

Definition plCoverageValidations (results : value) : value :=
  or (get "coverage_validations" (get "pl_validations" results)) (VObj []).

Definition plAdditionalInterests (results : value) : value :=
  or (get "additional_interests" (plCoverageValidations results)) (VArr []).

(** [{ ...plCoverageValidations }] without [additional_interests] *)
Definition plCoverageValidationsFiltered (results : value)
  : list (string * value) :=
  filter (fun kv : string * value =>
            negb (String.eqb (fst kv) "additional_interests"))
    (obj_entries (plCoverageValidations results)).

Definition glAddressValidations (results : value) : value :=
  or (get "address_validations" (get "gl_validations" results)) (VArr []).

Definition glCoveragePresenceValidations (results : value) : value :=
  or (get "coverage_presence_validations" (get "gl_validations" results))
     (VArr []).

Definition glCoverageValidations (results : value) : value :=
  or (get "coverage_validations" (get "gl_validations" results)) (VObj []).

Definition acordPlCoreComparisons (results : value) : value :=
  or (get "core_fields" (get "acord_pl_comparisons" results)) (VObj []).

Definition acordPlCoverageComparisons (results : value) : value :=
  or (get "coverages" (get "acord_pl_comparisons" results)) (VArr []).

Definition glAcordCoreComparisons (results : value) : value :=
  or (get "core_fields" (get "gl_acord_comparisons" results)) (VObj []).

Definition glAcordCoverageComparisons (results : value) : value :=
  or (get "coverages" (get "gl_acord_comparisons" results)) (VArr []).

Definition coreValidations (results : value) : value :=
  or (get "core_validations" results)
     (or (plCoreValidations results) (VObj [])).

Definition coverageValidations (results : value) : value :=
  or (get "coverage_validations" results)
     (or (plCoverageValidations results) (VObj [])).

Definition hasPl (results : value) : bool :=
  truthy (get "pl_certificate" results) || truthy (get "pl_validations" results).

Definition hasGl (results : value) : bool :=
  truthy (get "gl_certificate" results) || truthy (get "gl_validations" results).

Definition hasAcord (results : value) : bool :=
  truthy (get "acord_certificate" results).

Definition hasGlAcord (results : value) : bool :=
  truthy (get "gl_acord_certificate" results).

(** "Only show 2-way comparison (PL vs Policy) if 3-way comparison data
    is NOT present" *)
Definition no_acord_pl_comparisons (results : value) : bool :=
  Nat.eqb (keys_length (acordPlCoreComparisons results)) 0
  && length_is_zero (acordPlCoverageComparisons results).

Definition no_gl_acord_comparisons (results : value) : bool :=
  Nat.eqb (keys_length (glAcordCoreComparisons results)) 0
  && length_is_zero (glAcordCoverageComparisons results).

Definition nonempty (n : nat) : bool := negb (Nat.eqb n 0).

(** "PL Certificate Results": the two-way rows. *)
Definition pl_section (results : value) : option (list block) :=
  part (hasPl results && no_acord_pl_comparisons results)
    (parts
       [ part (nonempty (keys_length (plCoreValidations results)))
           (omap (map Core)
              (traverse core_row (obj_entries (plCoreValidations results))));
         part (nonempty (List.length (plCoverageValidationsFiltered results)))
           (coverage_groups (plCoverageValidationsFiltered results));
         additional_interests (plAdditionalInterests results) ]).

(** "GL Certificate Results": the two-way rows. *)
Definition gl_section (results : value) : option (list block) :=
  part (hasGl results && no_gl_acord_comparisons results)
    (parts
       [ part (length_is_positive (glAddressValidations results))
           (map_array (fun i => omap Address (address_row i))
              (glAddressValidations results));
         part (length_is_positive (glCoveragePresenceValidations results))
           (map_array (fun i => omap Presence (presence_item i))
              (glCoveragePresenceValidations results));
         part (nonempty (keys_length (glCoverageValidations results)))
           (coverage_groups (obj_entries (glCoverageValidations results))) ]).

(** "ACORD Certificate": the three-way rows and the additional
    interests. *)
Definition acord_section (results : value) : option (list block) :=
  part (hasAcord results)
    (parts
       [ part (nonempty (keys_length (acordPlCoreComparisons results)))
           (omap (map ThreeWayCore)
              (traverse acordPlCoreRow
                 (obj_entries (acordPlCoreComparisons results))));
         part (length_is_positive (acordPlCoverageComparisons results))
           (map_array (fun i => omap ThreeWayCoverage (acordPlCoverageRow i))
              (acordPlCoverageComparisons results));
         additional_interests (plAdditionalInterests results) ]).

(** "GL vs Policy vs GL ACORD", core fields and coverages. *)
Definition gl_acord_section (results : value) : option (list block) :=
  parts
    [ part (hasGlAcord results
            && nonempty (keys_length (glAcordCoreComparisons results)))
        (omap (map ThreeWayCore)
           (traverse glAcordCoreRow
              (obj_entries (glAcordCoreComparisons results))));
      part (hasGlAcord results
            && length_is_positive (glAcordCoverageComparisons results))
        (map_array (fun i => omap ThreeWayCoverage (glAcordCoverageRow i))
           (glAcordCoverageComparisons results)) ].

(** "Legacy Format Support" *)
Definition legacy_section (results : value) : option (list block) :=
  part (negb (hasPlGlFormat results))
    (parts
       [ part (nonempty (keys_length (coreValidations results)))
           (omap (map Core)
              (traverse core_row (obj_entries (coreValidations results))));
         part (nonempty (keys_length (coverageValidations results)))
           (coverage_groups (obj_entries (coverageValidations results))) ]).

Definition validation_results (results : value) : option (list block) :=
  parts
    [ pl_section results; gl_section results; acord_section results;
      gl_acord_section results; legacy_section results ].

(** Every status pill of a block, as the value put in it. *)
Definition block_statuses (b : block) : list value :=
  match b with
  | Core r | Address r => [badge_text (vr_badge r)]
  | Presence r => [badge_text (pr_badge r)]
  | CoverageGroup _ items => map (fun v => badge_text (cv_badge v)) items
  | Interest v => [badge_text (cv_badge v)]
  | NoInterests => []
  | ThreeWayCore r | ThreeWayCoverage r => [badge_text (tw_badge r)]
  end.

(** The sources whose values a three-way row sets side by side. *)
Inductive source : Type := Policy | Certificate | Acord.

Definition row_value (r : three_way_row) (s : source) : value :=
  match s with
  | Policy => tw_policy r
  | Certificate => tw_certificate r
  | Acord => tw_acord r
  end.

(** The verdict of a core field a block shows: the label of the row and
    the status in its pill. The other kinds of block are not about a
    core field. *)
Definition core_verdict (b : block) : list (value * value) :=
  match b with
  | Core r => [(vr_label r, badge_text (vr_badge r))]
  | ThreeWayCore r => [(tw_label r, badge_text (tw_badge r))]
  | _ => []
  end.

Definition core_verdicts (blocks : list block) : list (value * value) :=
  flat_map core_verdict blocks.

(** The label and the [status] of an entry of a core-validation or
    core-comparison object of the results. *)
Definition entry_verdict (entry : string * value) : value * value :=
  (VStr (field_label (fst entry)), get "status" (snd entry)).

(** Where a block of the page comes from: the entry or the item of the
    results that it is rendered from, with the pill it gets for the
    [status] found there. *)
Definition rendered_from (results : value) (b : block) : Prop :=
  match b with
  | Core r =>
      exists field data,
        (In (field, data) (obj_entries (plCoreValidations results))
         \/ In (field, data) (obj_entries (coreValidations results)))
        /\ vr_badge r = status_badge (get "status" data)
  | Address r =>
      exists items item,
        glAddressValidations results = VArr items /\ In item items
        /\ vr_badge r = status_badge (get "status" item)
  | Presence r =>
      exists items item,
        glCoveragePresenceValidations results = VArr items /\ In item items
        /\ badge_text (pr_badge r) = get "status" item
        /\ badge_class (pr_badge r)
           = (if str_eq (get "status" item) "PRESENT" then green else red)
  | CoverageGroup coverage views =>
      exists items,
        (In (coverage, VArr items) (plCoverageValidationsFiltered results)
         \/ In (coverage, VArr items)
              (obj_entries (glCoverageValidations results))
         \/ In (coverage, VArr items)
              (obj_entries (coverageValidations results)))
        /\ Forall2 (fun item v => cv_badge v = status_badge (get "status" item))
             items views
  | Interest v =>
      exists items item,
        plAdditionalInterests results = VArr items /\ In item items
        /\ cv_badge v = status_badge (get "status" item)
  | NoInterests => True
  | ThreeWayCore r =>
      exists field data,
        (In (field, data) (obj_entries (acordPlCoreComparisons results))
         \/ In (field, data) (obj_entries (glAcordCoreComparisons results)))
        /\ tw_badge r = status_badge (get "status" data)
  | ThreeWayCoverage r =>
      exists items item,
        (acordPlCoverageComparisons results = VArr items
         \/ glAcordCoverageComparisons results = VArr items)
        /\ In item items
        /\ tw_badge r = status_badge (get "status" item)
  end.

(** The statuses the results hold, by the way the page reads them: of
    the entries of an object, of the items of an array, of the items of
    the groups of a coverage-validation object. *)
Definition array_items (v : value) : list value :=
  match v with
  | VArr items => items
  | _ => []
  end.

Definition entry_statuses (v : value) : list value :=
  map (fun entry : string * value => get "status" (snd entry)) (obj_entries v).

Definition item_statuses (v : value) : list value :=
  map (get "status") (array_items v).

Definition group_statuses (validations : list (string * value)) : list value :=
  flat_map (fun kv : string * value => item_statuses (snd kv)) validations.

(** The statuses of the results that belong to a section the page
    renders, in page order. The two-way PL and GL validations count
    only without three-way data, the legacy validations only without a
    [pl_certificate] or [gl_certificate] key; the core validations of
    the GL certificate are in no section. *)
Definition shown_statuses (results : value) : list value :=
  ((if hasPl results && no_acord_pl_comparisons results
    then entry_statuses (plCoreValidations results)
         ++ group_statuses (plCoverageValidationsFiltered results)
         ++ item_statuses (plAdditionalInterests results)
    else [])
   ++ (if hasGl results && no_gl_acord_comparisons results
       then item_statuses (glAddressValidations results)
            ++ item_statuses (glCoveragePresenceValidations results)
            ++ group_statuses (obj_entries (glCoverageValidations results))
       else [])
   ++ (if hasAcord results
       then entry_statuses (acordPlCoreComparisons results)
            ++ item_statuses (acordPlCoverageComparisons results)
            ++ item_statuses (plAdditionalInterests results)
       else [])
   ++ (if hasGlAcord results
       then entry_statuses (glAcordCoreComparisons results)
            ++ item_statuses (glAcordCoverageComparisons results)
       else [])
   ++ (if hasPlGlFormat results then []
       else entry_statuses (coreValidations results)
            ++ group_statuses (obj_entries (coverageValidations results))))%list.

(** The results of an upload with a PL certificate and an ACORD
    certificate: the effective date agrees between policy and PL
    certificate (a MATCH in the two-way validations) and is absent from
    the ACORD certificate. *)
Definition three_way_results : value :=
  VObj
    [("pl_certificate", VObj [("policy_number", VStr "P-1")]);
     ("acord_certificate", VObj [("policy_number", VStr "P-1")]);
     ("pl_validations",
      VObj [("core_validations",
             VObj [("effective_date",
                    VObj [("status", VStr "MATCH");
                          ("certificate_value", VStr "01/01/2025");
                          ("policy_value", VStr "01/01/2025")])])]);
     ("acord_pl_comparisons",
      VObj [("core_fields",
             VObj [("effective_date",
                    VObj [("status", VStr "NOT_FOUND");
                          ("policy_value", VStr "01/01/2025");
                          ("certificate_value", VStr "01/01/2025");
                          ("acord_value", VNull)])]);
            ("coverages", VArr [])])].

(** The same results without the [pl_certificate] key, as the legacy
    format has them. *)
Definition legacy_three_way_results : value :=
  VObj
    [("acord_certificate", VObj [("policy_number", VStr "P-1")]);
     ("pl_validations",
      VObj [("core_validations",
             VObj [("effective_date",
                    VObj [("status", VStr "MATCH");
                          ("certificate_value", VStr "01/01/2025");
                          ("policy_value", VStr "01/01/2025")])])]);
     ("acord_pl_comparisons",
      VObj [("core_fields",
             VObj [("effective_date",
                    VObj [("status", VStr "NOT_FOUND");
                          ("policy_value", VStr "01/01/2025");
                          ("certificate_value", VStr "01/01/2025");
                          ("acord_value", VNull)])]);
            ("coverages", VArr [])])].

(** An additional interest whose name on the certificate is one
    character off the name on the policy. *)
Definition name_variation_interest : value :=
  VObj [("cert_interest_name", VStr "FIRST NATIONAL BANK");
        ("policy_interest_name", VStr "FIRST NATI0NAL BANK");
        ("policy_interest_type", VStr "Mortgagee");
        ("status", VStr "MATCH");
        ("match_type", VStr "NAME_VARIATION")].

(** The results of a PL upload whose insured name is one character off
    between certificate and policy, with and without the qualifier on
    the core-field entry. *)
Definition name_variation_core_results (qualified : bool) : value :=
  VObj
    [("pl_certificate", VObj [("insured_name", VStr "ACME LLC")]);
     ("pl_validations",
      VObj [("core_validations",
             VObj [("insured_name",
                    VObj ([("status", VStr "MATCH");
                           ("certificate_value", VStr "ACME LLC");
                           ("policy_value", VStr "ACNE LLC")]
                          ++ (if qualified
                              then [("match_type", VStr "NAME_VARIATION")]
                              else []))%list)])])].

End QCNewResultsView.

(** ** start.sh: the worker lanes *)

Module StartSh.

(** How the script launches a command: [cmd &] or [exec cmd]. *)
Inductive launch : Type := Background | Exec.

(** The commands of the script that start a process, as written. *)
Definition start_sh : list (launch * string) :=
  [ (Background,
     "celery -A tasks worker --loglevel=info --concurrency=1 --queues=qc --without-mingle --without-gossip -n qc_worker@%h");
    (Background,
     "celery -A tasks worker --loglevel=info --concurrency=1 --queues=summary --without-mingle --without-gossip -n summary_worker@%h");
    (Exec, "uvicorn app:app --host 0.0.0.0 --port ${PORT:-8000}") ].

(** Splitting a string at a separator character: the words of a command
    line, the names of a comma-separated list. *)
Fixpoint split_on (sep : ascii) (s : string) : list string :=
  match s with
  | EmptyString => [EmptyString]
  | String c rest =>
      if Ascii.eqb c sep then EmptyString :: split_on sep rest
      else match split_on sep rest with
           | w :: ws => String c w :: ws
           | [] => [String c EmptyString]
           end
  end.

Definition words (cmd : string) : list string :=
  filter (fun w => negb (String.eqb w "")) (split_on " " cmd).

(** The text after [prefix] in the first word that starts with it. *)
Fixpoint option_value (prefix : string) (ws : list string) : option string :=
  match ws with
  | [] => None
  | w :: rest =>
      if String.prefix prefix w
      then Some (String.substring (String.length prefix)
                   (String.length w - String.length prefix) w)
      else option_value prefix rest
  end.

Definition digit (c : ascii) : option nat :=
  let n := nat_of_ascii c in
  if ((48 <=? n) && (n <=? 57))%nat then Some (n - 48) else None.

Fixpoint parse_nat_from (acc : nat) (s : string) : option nat :=
  match s with
  | EmptyString => Some acc
  | String c rest =>
      match digit c with
      | Some d => parse_nat_from (10 * acc + d) rest
      | None => None
      end
  end.

Definition parse_nat (s : string) : option nat :=
  match s with
  | EmptyString => None
  | _ => parse_nat_from 0 s
  end.

(** The options of a [celery ... worker] command line that shape a lane. *)
Record worker : Type := {
  queues : option (list string);   (* --queues=a,b *)
  concurrency : option nat;        (* --concurrency=N *)
  without_mingle : bool;
  without_gossip : bool
}.

Definition has_word (w : string) (ws : list string) : bool :=
  existsb (String.eqb w) ws.

Definition parse_worker (cmd : string) : option worker :=
  let ws := words cmd in
  match ws with
  | "celery" :: _ =>
      if has_word "worker" ws then
        Some {| queues :=
                  match option_value "--queues=" ws with
                  | Some qs => Some (split_on "," qs)
                  | None => None
                  end;
                concurrency :=
                  match option_value "--concurrency=" ws with
                  | Some n => parse_nat n
                  | None => None
                  end;
                without_mingle := has_word "--without-mingle" ws;
                without_gossip := has_word "--without-gossip" ws |}
      else None
  | _ => None
  end.

(** The worker lanes the script starts. *)
Definition lanes : list worker :=
  flat_map
    (fun lc : launch * string =>
       match parse_worker (snd lc) with
       | Some w => [w]
       | None => []
       end)
    start_sh.

(** A Celery worker started with [--queues] consumes from these queues
    and no other; without the option it consumes from the default queue
    ["celery"]. *)
Definition consumes (w : worker) (queue : string) : bool :=
  match queues w with
  | Some qs => existsb (String.eqb queue) qs
  | None => String.eqb queue "celery"
  end.

(** [--concurrency=N] is the size of the worker's pool: it runs at most
    [N] tasks at a time. Without the option the pool has one process per
    CPU, a number the script does not fix. *)
Definition at_most_concurrent (w : worker) (n : nat) : bool :=
  match concurrency w with
  | Some c => (c <=? n)%nat
  | None => false
  end.

(** Modelled from the spec: the typed work units of the lane scheduler
    and their routing ("Routing key = unit type"). The task definitions
    that name the queue of each task are not part of the sources; the
    queue names are the ones [start.sh] prints for its two workers
    ("QC Worker: queue=qc", "Summary Worker: queue=summary"). *)
Inductive unit_type : Type := QualityControlUnit | SummaryUnit.

(** Modelled from the spec: the queue a unit is routed to, by its type
    alone (the task routes are not part of the sources). *)
Definition route (u : unit_type) : string :=
  match u with
  | QualityControlUnit => "qc"
  | SummaryUnit => "summary"
  end.

End StartSh.

(** ** ConfirmedPage: the requests of a run, and polling one call at a time *)

Module ConfirmedPolling.

Import ConfirmedPage.

Definition is_status (r : request) : bool :=
  match r with
  | GetUploadStatus _ => true
  | GetFinalizeUpload _ _ => false
  end.

(** How many of the requests sent so far went to [/upload-status], and
    how many to [/finalize-upload]. *)
Definition status_requests (st : state) : nat :=
  List.length (filter is_status (requests st)).

Definition finalize_requests (st : state) : nat :=
  List.length (filter (fun r => negb (is_status r)) (requests st)).

(** An invocation that has not got past its status check yet. *)
Definition before_answer (p : pc) : bool :=
  match p with
  | AwaitStatus _ | AwaitStatusJson _ => true
  | AwaitFinalize _ | AwaitFinalizeJson _ _ => false
  end.

(** The bookkeeping of a run: [pollCountRef] counts the status requests,
    an invocation sends its finalize request only after its status
    request, and every request is for the upload id of the page, with the
    sheet name of the source. *)
Definition accounted (st : state) : Prop :=
  pollCount st = status_requests st
  /\ finalize_requests st + List.length (filter before_answer (running st))
     <= status_requests st
  /\ Forall (fun r => r = GetUploadStatus (uploadId st)
                      \/ r = GetFinalizeUpload (uploadId st)
                             "Insurance Fields Data")
       (requests st).

(** What the server does with a status request: the request fails, the
    upload is unknown (404), the body of the response is not JSON, or it
    is the JSON value [statusData]. *)
Inductive status_reply : Type :=
| NoReply (msg : string)
| NotFound
| Unreadable (status : nat) (msg : string)
| Body (status : nat) (statusData : value).

(** The events of the invocation [i] whose status request is answered
    by [r]. *)
Definition status_events (i : nat) (r : status_reply) : list event :=
  match r with
  | NoReply msg => [Rejects i msg]
  | NotFound => [Resolves i 404]
  | Unreadable status msg => [Resolves i status; JsonSettles i (JsonFail msg)]
  | Body status statusData =>
      [Resolves i status; JsonSettles i (JsonOk statusData)]
  end.

(** A reply that does not say the upload is ready. *)
Definition not_ready (r : status_reply) : bool :=
  match r with
  | NoReply _ | NotFound => true
  | Unreadable status _ => negb (status =? 404)%nat
  | Body status statusData =>
      negb (status =? 404)%nat
      && (is_nullish statusData || negb (truthy (get "ready" statusData)))
  end.

(** A reply that says it is. *)
Definition ready (r : status_reply) : bool :=
  match r with
  | Body status statusData =>
      negb (status =? 404)%nat && truthy (get "ready" statusData)
  | _ => false
  end.

(** The latest invocation gets its answer. *)
Definition answer (r : status_reply) (st : state) : option state :=
  run (status_events (List.length (running st) - 1) r) st.

(** The page with a server that answers each status request before the
    interval fires again: the call under way is answered by the next
    reply, then the interval fires, until the replies are used up or the
    interval has been cleared. *)
Fixpoint polls (replies : list status_reply) (st : state) : option state :=
  match replies with
  | [] => Some st
  | r :: rest =>
      match answer r st with
      | Some st1 =>
          match step Tick st1 with
          | Some st2 => polls rest st2
          | None => Some st1
          end
      | None => None
      end
  end.

(** A reply that makes the page wait: the upload is not known yet, or
    its files are still being processed. *)
Definition waiting (r : status_reply) : bool :=
  match r with
  | NotFound => true
  | Body status statusData =>
      negb (status =? 404)%nat && negb (is_nullish statusData)
      && negb (truthy (get "ready" statusData))
  | _ => false
  end.

(** The page with a server that makes it wait, then says the upload is
    ready, and answers the finalize request that follows with a
    response of status [finalizeStatus] and body [finalizeData]. *)
Definition polls_then_finalize (replies : list status_reply)
  (readyReply : status_reply) (finalizeStatus : nat) (finalizeData : value)
  (st : state) : option state :=
  match polls replies st with
  | Some st1 =>
      match answer readyReply st1 with
      | Some st2 =>
          run [Resolves (List.length (running st2) - 1) finalizeStatus;
               JsonSettles (List.length (running st2) - 1)
                 (JsonOk finalizeData)] st2
      | None => None
      end
  | None => None
  end.

(** One status request under way, sent by the call that [pollCountRef]
    counts last; only status requests so far. *)
Definition checking (st : state) : Prop :=
  running st = [AwaitStatus (pollCount st)]
  /\ pollInterval st = true
  /\ isComplete st = false
  /\ 1 <= pollCount st <= maxPolls
  /\ status_requests st = pollCount st
  /\ finalize_requests st = 0.

End ConfirmedPolling.

(** ** QCNewResults: what the results page shows *)

Module QCNewResultsRender.

Import QCNewResults.

(** The early returns of the component, in their order: [if (loading)],
    [if (error)], [if (!results)], and the results themselves. *)
Inductive view : Type :=
| LoadingView
| ErrorView
| NotReadyView
| ResultsView.

Definition render (st : state) : view :=
  if loading st then LoadingView
  else if negb (String.eqb (error st) "") then ErrorView
  else if negb (truthy (results st)) then NotReadyView
  else ResultsView.

(** The component state of an effect that started with no error: loading
    with nothing to show, an error with nothing under way, or results. *)
Definition settled (st : state) : Prop :=
  (error st <> "" ->
   running st = [] /\ pending st = [] /\ truthy (results st) = false
   /\ loading st = false)
  /\ (truthy (results st) = true -> error st = "" /\ loading st = false)
  /\ (loading st = false -> error st <> "" \/ truthy (results st) = true).

End QCNewResultsRender.

(** ** QCNewResults: the PDF tabs, and what the rows are made from *)

Module QCNewResultsPdf.

Import QCNewResultsView.

(** The state [activePdf]:
    ["pl" | "gl" | "acord" | "gl_acord" | "policy" | "legacy"]. *)
Inductive pdf : Type :=
| PdfPl
| PdfGl
| PdfAcord
| PdfGlAcord
| PdfPolicy
| PdfLegacy.

Definition hasLegacyCert (results : value) : bool :=
  truthy (get "certificate" results) && negb (hasPlGlFormat results).

(** The effect "Update activePdf when results change". *)
Definition activePdf_effect (results : value) (activePdf : pdf) : pdf :=
  if truthy results then
    if hasPl results then PdfPl
    else if hasGl results then PdfGl
    else if hasAcord results then PdfAcord
    else if hasLegacyCert results then PdfLegacy
    else PdfPolicy
  else activePdf.

(** [cond && <button .../>] *)
Definition tab (cond : bool) (p : pdf) : list pdf :=
  if cond then [p] else [].

(** The tab buttons of the PDF viewer, in page order. *)
Definition tabs (results : value) : list pdf :=
  (tab (hasPl results) PdfPl
   ++ tab (hasGl results) PdfGl
   ++ tab (hasLegacyCert results) PdfLegacy
   ++ tab (hasAcord results) PdfAcord
   ++ tab (hasGlAcord results) PdfGlAcord
   ++ [PdfPolicy])%list.

(** The document the [iframe] asks for: the last segment of the path
    [/qc-new/pdf/${uploadId}/...]. *)
Definition pdf_document (activePdf : pdf) : string :=
  match activePdf with
  | PdfPl => "pl_certificate"
  | PdfGl => "gl_certificate"
  | PdfAcord => "acord_certificate"
  | PdfGlAcord => "gl_acord_certificate"
  | PdfLegacy => "certificate"
  | PdfPolicy => "policy"
  end.

Definition pdf_eqb (a b : pdf) : bool :=
  match a, b with
  | PdfPl, PdfPl | PdfGl, PdfGl | PdfAcord, PdfAcord
  | PdfGlAcord, PdfGlAcord | PdfPolicy, PdfPolicy
  | PdfLegacy, PdfLegacy => true
  | _, _ => false
  end.

(** What the user does with the viewer once the results are in: clicks
    on tab buttons, each [onClick={() => setActivePdf(p)}]; [None] when
    a click is on a button that is not on the page. *)
Fixpoint clicks (results : value) (l : list pdf) (activePdf : pdf)
  : option pdf :=
  match l with
  | [] => Some activePdf
  | p :: rest =>
      if existsb (pdf_eqb p) (tabs results)
      then clicks results rest p
      else None
  end.

(** The labels of the core-field rows among the blocks of a section. *)
Definition core_labels (blocks : list block) : list value :=
  flat_map (fun b => match b with
                     | Core r => [vr_label r]
                     | _ => []
                     end) blocks.

(** Two results that differ at most in
    [gl_validations.core_validations]. *)
Definition same_but_gl_core (a b : value) : Prop :=
  (forall k, k <> "gl_validations" -> get k a = get k b)
  /\ truthy (get "gl_validations" a) = truthy (get "gl_validations" b)
  /\ (forall k, k <> "core_validations" ->
                get k (get "gl_validations" a)
                = get k (get "gl_validations" b)).

(** Results with two-way GL validations, whose core verdicts are [core]. *)
Definition gl_results (core : value) : value :=
  VObj
    [("gl_certificate", VObj [("policy_number", VStr "G-1")]);
     ("gl_validations",
      VObj [("core_validations", core);
            ("address_validations",
             VArr [VObj [("address_type", VStr "mailing_address");
                         ("cert_value", VStr "1 Main St");
                         ("policy_value", VStr "1 Main St");
                         ("status", VStr "MATCH")]])])].

End QCNewResultsPdf.

(** ** ExtractedFieldsDisplay: the rows of the panel *)

Module ExtractedFieldsRender.

Import ExtractedFieldsDisplay.

(** The em dash (U+2014) of [formatValue], as its UTF-8 bytes. *)
Definition em_dash : string :=
  String (ascii_of_nat 226)
    (String (ascii_of_nat 128) (String (ascii_of_nat 148) EmptyString)).

(** [items.join(sep)] *)
Definition join (sep : string) (items : list value) : string :=
  String.concat sep
    (map (fun x => if is_nullish x then "" else toString x) items).

Definition formatValue (v : value) : string :=
  match v with
  | VUndef | VNull => em_dash
  | VBool b => if b then "Yes" else "No"
  | VArr items => join ", " items
  | _ => toString v
  end.

Definition getColorStyle (flagColor : value) : string :=
  if str_eq flagColor "green" then "text-green-700 font-semibold"
  else if str_eq flagColor "red" then "text-red-700 font-semibold"
  else if str_eq flagColor "black" then "text-gray-700 font-semibold"
  else "text-gray-700 font-semibold".

Definition getBackgroundStyle (flagColor : value) : string :=
  if str_eq flagColor "green" then "bg-green-50"
  else if str_eq flagColor "red" then "bg-red-50"
  else if str_eq flagColor "black" then "bg-gray-50"
  else "hover:bg-white/50".

(** One row of the panel: the label, the classes of the row and of the
    value, and the text of the value. *)
Record row : Type := {
  row_label : string;
  row_background : string;
  row_style : string;
  row_text : string
}.

(** The callback of [entries.map]. *)
Definition render_entry (isFlagged : bool) (e : entry) : row :=
  let '(key, fieldData) := e in
  let isFlaggedField :=
    isFlagged && truthy fieldData && typeof_object fieldData
    && has "value" fieldData in
  let displayValue := if isFlaggedField then get "value" fieldData
                      else fieldData in
  let flagColor := if isFlaggedField then get "color" fieldData
                   else VUndef in
  {| row_label := QCNewResultsView.replace_underscores key;
     row_background := if isFlaggedField then getBackgroundStyle flagColor
                       else "hover:bg-white/50";
     row_style := if isFlaggedField then getColorStyle flagColor
                  else "text-gray-600";
     row_text := formatValue displayValue |}.

(** What the component returns: "No data available", "No fields
    extracted", or the rows. *)
Inductive panel : Type :=
| NoData
| NoFields
| Fields (rows : list row).

Definition render (data : value) (isFlagged : bool) : panel :=
  if negb (truthy data) then NoData
  else
    match flattenData isFlagged (obj_entries data) "" with
    | [] => NoFields
    | entries => Fields (map (render_entry isFlagged) entries)
    end.

(** What a row shows of the entry it is made from, with and without
    [isFlagged]. *)
Definition shows (isFlagged : bool) (e : entry) (r : row) : Prop :=
  row_label r = QCNewResultsView.replace_underscores (fst e)
  /\ if isFlagged
     then row_text r = formatValue (get "value" (snd e))
          /\ row_style r = getColorStyle (get "color" (snd e))
          /\ row_background r = getBackgroundStyle (get "color" (snd e))
     else row_text r = "[object Object]"
          /\ row_style r = "text-gray-600"
          /\ row_background r = "hover:bg-white/50".

(** Extracted data with a nested object, plain and flagged. *)
Definition plain_fields : value :=
  VObj [("insured_name", VStr "ACME LLC");
        ("limits", VObj [("each_occurrence", VNum 1000000)])].

Definition flagged_fields : value :=
  VObj [("insured_name", flagged (VStr "ACME LLC") (VStr "green"));
        ("limits",
         flagged (VObj [("each_occurrence", VNum 1000000);
                        ("aggregate", flagged (VNull) (VStr "red"))])
           (VStr "red"))].

End ExtractedFieldsRender.

(** ** QCNewPage: choosing the files and the submit button *)

Module QCNewPageForm.

Import QCNewPage.

(** The five drop zones of the form. *)
Inductive zone : Type :=
| PlCertificate
| GlCertificate
| AcordCertificate
| GlAcordCertificate
| Policy.

(** [setPlCertificateFile(file)] and the like. *)
Definition set_file (z : zone) (f : File) (st : state) : state :=
  {| plCertificateFile :=
       match z with PlCertificate => Some f | _ => plCertificateFile st end;
     glCertificateFile :=
       match z with GlCertificate => Some f | _ => glCertificateFile st end;
     acordCertificateFile :=
       match z with
       | AcordCertificate => Some f
       | _ => acordCertificateFile st
       end;
     glAcordCertificateFile :=
       match z with
       | GlAcordCertificate => Some f
       | _ => glAcordCertificateFile st
       end;
     policyFile := match z with Policy => Some f | _ => policyFile st end;
     uploading := uploading st;
     uploadId := uploadId st;
     error := error st;
     results := results st |}.

(** [handlePlCertDrop], [handleGlCertDrop], [handleAcordCertDrop],
    [handleGlAcordCertDrop] and [handlePolicyDrop], which differ in the
    setter they call: the files dropped are [e.dataTransfer.files]. *)
Definition handleDrop (z : zone) (files : list File) (st : state) : state :=
  match files with
  | file :: _ =>
      if String.eqb (type file) "application/pdf"
      then set_error "" (set_file z file st)
      else st
  | [] => st
  end.

(** The [onChange] of the file input of a zone:
    [if (file) setPlCertificateFile(file)] and the like. *)
Definition handleChange (z : zone) (files : list File) (st : state) : state :=
  match files with
  | file :: _ => set_file z file st
  | [] => st
  end.

Definition file_of (z : zone) (st : state) : option File :=
  match z with
  | PlCertificate => plCertificateFile st
  | GlCertificate => glCertificateFile st
  | AcordCertificate => acordCertificateFile st
  | GlAcordCertificate => glAcordCertificateFile st
  | Policy => policyFile st
  end.

(** The state of the page when it is first rendered. *)
Definition initial : state :=
  {| plCertificateFile := None; glCertificateFile := None;
     acordCertificateFile := None; glAcordCertificateFile := None;
     policyFile := None; uploading := false; uploadId := VStr "";
     error := ""; results := VNull |}.

(** A sequence of drops, each on a zone. *)
Definition drops (l : list (zone * list File)) (st : state) : state :=
  fold_left (fun s d => handleDrop (fst d) (snd d) s) l st.

(** Every file chosen is a PDF by its MIME type. *)
Definition all_pdf (st : state) : Prop :=
  forall z f, file_of z st = Some f -> type f = "application/pdf".

(** [disabled] of the "START QC REVIEW" button. *)
Definition submit_disabled (st : state) : bool :=
  uploading st
  || (negb (isSome (plCertificateFile st))
      && negb (isSome (glCertificateFile st)))
  || negb (isSome (policyFile st)).

End QCNewPageForm.

(** ** SummaryPage: the carriers of a quote upload *)

Module SummaryPage.

(** A [File] of the browser, as the upload form of the QC review has
    it. *)
Definition File : Type := QCNewPage.File.

(** [type: 'property' | 'liability' | 'liquor' | 'workersComp'] *)
Inductive line : Type :=
| property
| liability
| liquor
| workersComp.

Definition line_name (t : line) : string :=
  match t with
  | property => "property"
  | liability => "liability"
  | liquor => "liquor"
  | workersComp => "workersComp"
  end.

(** [{ file: File | null; name: string }] *)
Record PdfSlot : Type := { file : option File; file_name : string }.

Record CarrierData : Type := {
  id : nat;
  name : string;
  propertyPDF : PdfSlot;
  liabilityPDF : PdfSlot;
  liquorPDF : PdfSlot;
  workersCompPDF : PdfSlot
}.

Definition no_file : PdfSlot := {| file := None; file_name := "" |}.

Definition newCarrier (newId : nat) : CarrierData :=
  {| id := newId; name := "";
     propertyPDF := no_file; liabilityPDF := no_file;
     liquorPDF := no_file; workersCompPDF := no_file |}.

(** The state of the page the handlers read and write, and the alerts
    shown so far (latest first). *)
Record state : Type := {
  carriers : list CarrierData;
  nextId : nat;
  isExecuting : bool;
  uploadResult : value;
  uploadError : string;
  alerts : list string
}.

Definition initial : state :=
  {| carriers := [newCarrier 1]; nextId := 2; isExecuting := false;
     uploadResult := VNull; uploadError := ""; alerts := [] |}.

Definition setCarriers (l : list CarrierData) (st : state) : state :=
  {| carriers := l; nextId := nextId st; isExecuting := isExecuting st;
     uploadResult := uploadResult st; uploadError := uploadError st;
     alerts := alerts st |}.

Definition alert (msg : string) (st : state) : state :=
  {| carriers := carriers st; nextId := nextId st;
     isExecuting := isExecuting st; uploadResult := uploadResult st;
     uploadError := uploadError st; alerts := msg :: alerts st |}.

Definition addCarrier (st : state) : state :=
  {| carriers := (carriers st ++ [newCarrier (nextId st)])%list;
     nextId := nextId st + 1; isExecuting := isExecuting st;
     uploadResult := uploadResult st; uploadError := uploadError st;
     alerts := alerts st |}.

Definition removeCarrier (id0 : nat) (st : state) : state :=
  if (1 <? List.length (carriers st))%nat
  then setCarriers
         (filter (fun c => negb (Nat.eqb (id c) id0)) (carriers st)) st
  else alert "You must have at least one carrier" st.

(** [{ ...c, name: value }] *)
Definition with_name (value : string) (c : CarrierData) : CarrierData :=
  {| id := id c; name := value;
     propertyPDF := propertyPDF c; liabilityPDF := liabilityPDF c;
     liquorPDF := liquorPDF c; workersCompPDF := workersCompPDF c |}.

Definition handleNameChange (id0 : nat) (value : string) (st : state)
  : state :=
  setCarriers
    (map (fun c => if Nat.eqb (id c) id0 then with_name value c else c)
       (carriers st)) st.

(** [{ ...c, propertyPDF: { file, name: file.name } }] and the like. *)
Definition with_file (t : line) (f : File) (c : CarrierData) : CarrierData :=
  let s := {| file := Some f; file_name := QCNewPage.name f |} in
  {| id := id c; name := name c;
     propertyPDF := match t with property => s | _ => propertyPDF c end;
     liabilityPDF := match t with liability => s | _ => liabilityPDF c end;
     liquorPDF := match t with liquor => s | _ => liquorPDF c end;
     workersCompPDF :=
       match t with workersComp => s | _ => workersCompPDF c end |}.

Definition handleFileUpload (id0 : nat) (t : line) (f : File) (st : state)
  : state :=
  setCarriers
    (map (fun c => if Nat.eqb (id c) id0 then with_file t f c else c)
       (carriers st)) st.

(** The slot of a carrier for a line. *)
Definition slot (t : line) (c : CarrierData) : PdfSlot :=
  match t with
  | property => propertyPDF c
  | liability => liabilityPDF c
  | liquor => liquorPDF c
  | workersComp => workersCompPDF c
  end.

(** The carrier of a given id, as the handlers address it. *)
Definition carrier (id0 : nat) (st : state) : option CarrierData :=
  find (fun c => Nat.eqb (id c) id0) (carriers st).

(** What the user does with the carrier cards. *)
Inductive action : Type :=
| AddCarrier
| RemoveCarrier (id0 : nat)
| NameChange (id0 : nat) (value : string)
| FileUpload (id0 : nat) (t : line) (f : File).

Definition act (st : state) (a : action) : state :=
  match a with
  | AddCarrier => addCarrier st
  | RemoveCarrier id0 => removeCarrier id0 st
  | NameChange id0 value => handleNameChange id0 value st
  | FileUpload id0 t f => handleFileUpload id0 t f st
  end.

(** What the card handlers keep: there is a carrier, no two carriers
    share an id, and every id is below [nextId]. *)
Definition well_kept (st : state) : Prop :=
  carriers st <> []
  /\ NoDup (map id (carriers st))
  /\ Forall (fun c => 1 <= id c < nextId st) (carriers st).

Definition line_eqb (a b : line) : bool :=
  String.eqb (line_name a) (line_name b).

(** *** handleExecute *)

(** A value of the form: a file, or the JSON text of a value
    ([JSON.stringify]). *)
Inductive form_value : Type :=
| FormFile (f : File)
| FormJson (v : value).

Record request : Type := {
  path : string;
  body : list (string * form_value);
  user_header : string
}.

Definition has_file (s : PdfSlot) : bool := QCNewPage.isSome (file s).

(** The object behind [carriersJson]. *)
Definition carriersJson (l : list CarrierData) : value :=
  VObj
    [("carriers",
      VArr (map (fun c =>
                   VObj [("name", VStr (name c));
                         ("hasProperty", VBool (has_file (propertyPDF c)));
                         ("hasLiability", VBool (has_file (liabilityPDF c)));
                         ("hasLiquor", VBool (has_file (liquorPDF c)));
                         ("hasWorkersComp",
                          VBool (has_file (workersCompPDF c)))])
              l))].

(** [{ carrierIndex: carrierIdx, type }] *)
Definition file_metadata (carrierIdx : nat) (t : line) : value :=
  VObj [("carrierIndex", VNum (Z.of_nat carrierIdx));
        ("type", VStr (line_name t))].

(** The two entries appended for a slot that has a file. *)
Definition append_slot (carrierIdx : nat) (t : line) (c : CarrierData)
  : list (string * form_value) :=
  match file (slot t c) with
  | Some f => [("files", FormFile f);
               ("file_metadata", FormJson (file_metadata carrierIdx t))]
  | None => []
  end.

(** The body of [carriers.forEach((carrier, carrierIdx) => ...)], from
    the index [carrierIdx] on. *)
Fixpoint forEach_carrier (carrierIdx : nat) (l : list CarrierData)
  : list (string * form_value) :=
  match l with
  | [] => []
  | c :: rest =>
      (append_slot carrierIdx property c
       ++ append_slot carrierIdx liability c
       ++ append_slot carrierIdx liquor c
       ++ append_slot carrierIdx workersComp c
       ++ forEach_carrier (S carrierIdx) rest)%list
  end.

Definition formData (l : list CarrierData) : list (string * form_value) :=
  ("carriers_json", FormJson (carriersJson l)) :: forEach_carrier 0 l.

(** The files and the metadata of a body, as [getAll('files')] and
    [getAll('file_metadata')] give them. *)
Definition files_of (b : list (string * form_value)) : list File :=
  flat_map (fun e => match e with
                     | (k, FormFile f) =>
                         if String.eqb k "files" then [f] else []
                     | _ => []
                     end) b.

Definition metadata_of (b : list (string * form_value)) : list value :=
  flat_map (fun e => match e with
                     | (k, FormJson v) =>
                         if String.eqb k "file_metadata" then [v] else []
                     | _ => []
                     end) b.

(** The files of the carriers from the index [carrierIdx] on, each with
    the metadata that names its carrier and its line. *)
Definition slot_pair (carrierIdx : nat) (t : line) (c : CarrierData)
  : list (File * value) :=
  match file (slot t c) with
  | Some f => [(f, file_metadata carrierIdx t)]
  | None => []
  end.

Fixpoint pairs_from (carrierIdx : nat) (l : list CarrierData)
  : list (File * value) :=
  match l with
  | [] => []
  | c :: rest =>
      (slot_pair carrierIdx property c
       ++ slot_pair carrierIdx liability c
       ++ slot_pair carrierIdx liquor c
       ++ slot_pair carrierIdx workersComp c
       ++ pairs_from (S carrierIdx) rest)%list
  end.

Section Execute.

(** [String.prototype.trim], taken as given. *)
Variable trim : string -> string.

(** [carriers.every(c => c.name.trim())] *)
Definition isValid (l : list CarrierData) : bool :=
  forallb (fun c => negb (String.eqb (trim (name c)) "")) l.

(** [carriers.some(c => c.propertyPDF.file || ...)] *)
Definition hasAnyFiles (l : list CarrierData) : bool :=
  existsb (fun c => has_file (propertyPDF c) || has_file (liabilityPDF c)
                    || has_file (liquorPDF c) || has_file (workersCompPDF c))
    l.

(** [setIsExecuting(true); setUploadError(''); setUploadResult(null)] *)
Definition begin_execute (st : state) : state :=
  {| carriers := carriers st; nextId := nextId st; isExecuting := true;
     uploadResult := VNull; uploadError := ""; alerts := alerts st |}.

(** The end of a call that has sent its request: the result or the
    error, and [setIsExecuting(false)] of the [finally]. *)
Definition end_execute (r : string + value) (st : state) : state :=
  {| carriers := carriers st; nextId := nextId st; isExecuting := false;
     uploadResult := match r with inr data => data | inl _ => uploadResult st end;
     uploadError :=
       match r with
       | inl msg => if String.eqb msg "" then "Failed to upload carriers"
                    else msg
       | inr _ => uploadError st
       end;
     alerts := alerts st |}.

(** The inner [try] once the request is out: the parsed body of an ok
    response, or the message of the error thrown. *)
Definition read_response (net : QCNewPage.fetch_outcome) : string + value :=
  match net with
  | QCNewPage.Aborted =>
      inl "Upload timeout: Large files may take up to 2 minutes to process. Please try again or use smaller files."
  | QCNewPage.Rejected msg => inl msg
  | QCNewPage.Responded status (JsonFail msg) => inl msg
  | QCNewPage.Responded status (JsonOk data) =>
      if negb (QCNewPage.response_ok status) then
        if is_nullish data then inl "Cannot read properties of null"
        else
          inl (toString
                 (or (get "message" data)
                    (or (get "error" data)
                       (or (get "detail" data)
                          (VStr ("Upload failed (" ++ nat_to_string status
                                 ++ ")"))))))
      else inr data
  end.

Record outcome : Type := { final : state; sent : list request }.

(** [handleExecute], for the user of the session ([None] when there is
    none, [Some ""] when it has no name) and the reply [net] the network
    gives if asked. *)
Definition handleExecute (authLoading : bool) (username : option string)
  (st : state) (net : QCNewPage.fetch_outcome) : outcome :=
  if authLoading then
    {| final := alert "Please wait, loading user information..." st;
       sent := [] |}
  else
    match username with
    | None | Some EmptyString =>
        {| final :=
             alert "You must be logged in to upload. Please refresh the page and log in again."
               st;
           sent := [] |}
    | Some u =>
        if negb (isValid (carriers st)) then
          {| final := alert "Please fill in all carrier names" st;
             sent := [] |}
        else if negb (hasAnyFiles (carriers st)) then
          {| final :=
               alert "Please upload at least one PDF across all carriers" st;
             sent := [] |}
        else
          {| final := end_execute (read_response net) (begin_execute st);
             sent := [ {| path := "/upload-quotes/";
                          body := formData (carriers st);
                          user_header := u |} ] |}
    end.

(** *** handleConfirmExecution *)

(** [encodeURIComponent], taken as given. *)
Variable encodeURIComponent : string -> string.

Record confirmation : Type := {
  confirmed : state;
  asked : list string;     (* the URLs fetched *)
  pushed : list string     (* [router.push] targets *)
}.

(** The [finally] and, for an error, the [catch] of
    [handleConfirmExecution]. *)
Definition end_confirm (error : option string) (st : state) : state :=
  {| carriers := carriers st; nextId := nextId st; isExecuting := false;
     uploadResult := uploadResult st;
     uploadError :=
       match error with
       | Some msg => if String.eqb msg "" then "Failed to confirm execution"
                     else msg
       | None => ""
       end;
     alerts := alerts st |}.

(** [uploadResult?.uploadId] *)
Definition uploadId_of (uploadResult0 : value) : value :=
  if is_nullish uploadResult0 then VUndef else get "uploadId" uploadResult0.

(** What comes back from the quality-analysis request, which has no
    timeout: a network error, or a response and the outcome of parsing
    its body. *)
Inductive quality_reply : Type :=
| NoAnswer (msg : string)
| Answer (status : nat) (body : json_outcome).

(** The error thrown after the request, if any. *)
Definition quality_error (net : quality_reply) : option string :=
  match net with
  | NoAnswer msg => Some msg
  | Answer status (JsonFail msg) => Some msg
  | Answer status (JsonOk data) =>
      if is_nullish data then Some "Cannot read properties of null"
      else if negb (QCNewPage.response_ok status)
              || negb (truthy (get "success" data))
      then Some (toString
                   (or (get "message" data)
                      (or (get "error" data)
                         (or (get "detail" data)
                            (VStr ("Quality analysis failed ("
                                   ++ nat_to_string status ++ ")"))))))
      else None
  end.

Definition handleConfirmExecution (st : state) (net : quality_reply)
  : confirmation :=
  if negb (truthy (uploadId_of (uploadResult st))) then
    {| confirmed :=
         end_confirm (Some "Missing uploadId. Please execute upload first.")
           st;
       asked := []; pushed := [] |}
  else
    let uploadId := encodeURIComponent
                      (toString (uploadId_of (uploadResult st))) in
    let url := "/phase1/quality-analysis?uploadId=" ++ uploadId in
    match quality_error net with
    | Some msg =>
        {| confirmed := end_confirm (Some msg) st;
           asked := [url]; pushed := [] |}
    | None =>
        {| confirmed := end_confirm None st;
           asked := [url];
           pushed := ["/summary/confirmed?uploadId=" ++ uploadId] |}
    end.

End Execute.

(** Two carriers, the second with two files. *)
Definition quote_pdf (n : string) : File :=
  {| QCNewPage.name := n; QCNewPage.type := "application/pdf" |}.

Definition two_carriers : state :=
  fold_left act
    [NameChange 1 "Acme Mutual"; AddCarrier; NameChange 2 "Best Re";
     FileUpload 2 liability (quote_pdf "best-gl.pdf");
     FileUpload 2 property (quote_pdf "best-prop.pdf")]
    initial.

End SummaryPage.

(** ** InsuranceFormPrefillService: property records to form fields *)

Module InsuranceFormPrefillService.

Section Service.

(** The methods of the JavaScript library the service calls, taken as
    given: [String.prototype.toUpperCase], [toLowerCase] and [trim],
    [parseInt] ([None] for [NaN]), [isNaN], and
    [Number.prototype.toLocaleString]. *)
Variable toUpperCase : string -> string.
Variable toLowerCase : string -> string.
Variable trim : string -> string.
Variable parseInt : value -> option Z.
Variable isNaN : value -> bool.
Variable toLocaleString : Z -> string.

(** [v.toLowerCase()]: only a string has the method, the call throws on
    any other value. *)
Definition lower (v : value) : option string :=
  match v with
  | VStr s => Some (toLowerCase s)
  | _ => None
  end.

Definition businessIndicators : list string :=
  ["LLC"; "INC"; "CORP"; "CORPORATION"; "COMPANY"; "LP"; "LTD"].

Definition ownerFields : list string :=
  ["deed_owner_full_name"; "owner_full_name"; "deed_owner_last_name"].

(** The loop of [_extractCorporationName] over the fields still to
    try. *)
Fixpoint first_business_name (attributes : value) (fields : list string)
  : value :=
  match fields with
  | [] => VNull
  | field :: rest =>
      match get field attributes with
      | VStr name =>
          if negb (String.eqb name "")
             && existsb (fun indicator => includes indicator (toUpperCase name))
                  businessIndicators
          then VStr name
          else first_business_name attributes rest
      | _ => first_business_name attributes rest
      end
  end.

Definition _extractCorporationName (attributes : value) : value :=
  first_business_name attributes ownerFields.

(** [None] when [ownerName] is not a string and [toUpperCase] throws. *)
Definition _determineApplicantType (attributes : value) : option string :=
  match or (get "deed_owner_full_name" attributes)
           (or (get "owner_full_name" attributes) (VStr "")) with
  | VStr ownerName =>
      let upperName := toUpperCase ownerName in
      Some
        (if includes "LLC" upperName then "llc"
         else if includes "CORP" upperName || includes "CORPORATION" upperName
                 || includes "INC" upperName
         then "corporation"
         else if includes "PARTNERSHIP" upperName || includes "LP" upperName
         then "partnership"
         else if includes "JOINT VENTURE" upperName then "jointVenture"
         else if str_eq (get "owner_occupancy_status" attributes)
                   "OWNER OCCUPIED"
                 || (negb (includes "LLC" upperName)
                     && negb (includes "CORP" upperName)
                     && negb (includes "INC" upperName))
         then "individual"
         else "other")
  | _ => None
  end.

(** [None] when a [toLowerCase] throws, [Some None] for [null]. *)
Definition _determineOperationType (attributes : value)
  : option (option string) :=
  match lower (or (get "land_use_standard" attributes)
                  (or (get "land_use_code" attributes) (VStr ""))),
        lower (or (get "zoning" attributes) (VStr "")) with
  | Some landUse, Some zoning =>
      Some
        (if includes "gas" landUse || includes "fuel" landUse
            || includes "service station" landUse
            || includes "gas" zoning || includes "fuel" zoning
            || includes "service" zoning
         then Some "Gas Station with Convenience Store"
         else if includes "retail" landUse || includes "commercial" landUse
                 || includes "store" landUse
         then Some "Convenience Store"
         else if includes "restaurant" landUse || includes "food" landUse
         then Some "Food Service/Restaurant"
         else if includes "office" landUse then Some "Office"
         else if includes "warehouse" landUse || includes "industrial" landUse
         then Some "Warehouse/Industrial"
         else if includes "commercial" landUse || includes "commercial" zoning
         then Some "Commercial Business"
         else None)
  | _, _ => None
  end.

Definition _getBestSquareFootage (attributes : value) : value :=
  or (get "building_sqft" attributes)
     (or (get "gross_sqft" attributes)
         (or (get "total_sqft" attributes) VNull)).

(** [yearBuilt && yearBuilt > 1990] and [yearBuilt && yearBuilt < 1960]
    for the result of [parseInt]. *)
Definition year_after (y : option Z) (bound : Z) : bool :=
  match y with
  | Some n => negb (Z.eqb n 0) && Z.ltb bound n
  | None => false
  end.

Definition year_before (y : option Z) (bound : Z) : bool :=
  match y with
  | Some n => negb (Z.eqb n 0) && Z.ltb n bound
  | None => false
  end.

Definition _determineConstructionType (attributes : value)
  : option (option string) :=
  let yearBuilt := parseInt (get "year_built" attributes) in
  match lower (or (get "land_use_standard" attributes) (VStr "")) with
  | Some landUse =>
      Some
        (if includes "frame" landUse || includes "wood" landUse
         then Some "Frame"
         else if includes "masonry" landUse || includes "brick" landUse
                 || includes "block" landUse
         then Some "Masonry Non-Combustible"
         else if includes "steel" landUse || includes "metal" landUse
         then Some "Non-Combustible"
         else if year_after yearBuilt 1990 && includes "commercial" landUse
         then Some "Non-Combustible"
         else if year_before yearBuilt 1960 then Some "Frame"
         else None)
  | None => None
  end.

Definition _determineOwnershipType (attributes : value) : string :=
  let ownerOccupancy := get "owner_occupancy_status" attributes in
  if str_eq ownerOccupancy "OWNER OCCUPIED" then "owned"
  else if str_eq ownerOccupancy "ABSENTEE OWNER"
          || str_eq ownerOccupancy "NON-OWNER OCCUPIED"
  then "leased"
  else "owned".

Definition _formatNumber (v : value) : value :=
  if negb (truthy v) || isNaN v then VNull
  else VStr (match parseInt v with
             | Some n => toLocaleString n
             | None => "NaN"
             end).

(** [if (cond) mappedData.k = v] *)
Definition field (k : string) (cond : bool) (v : value)
  : list (string * value) :=
  if cond then [(k, v)] else [].

(** The same for a string a helper returns, [null] when there is
    none. *)
Definition field_of (k : string) (o : option string)
  : list (string * value) :=
  match o with
  | Some s => field k (negb (String.eqb s "")) (VStr s)
  | None => []
  end.

(** [_mapToInsuranceForm(propertyData, originalAddress)] for a
    [propertyData]: the properties of [mappedData] in the order they
    are set, [None] when reading [propertyData] or a helper throws. *)
Definition _mapToInsuranceForm (propertyData : value)
  : option (list (string * value)) :=
  let attributes := or (get "attributes" propertyData) (VObj []) in
  let matchedAddress := or (get "matched_address" propertyData) (VObj []) in
  if is_nullish propertyData then None else
  match _determineApplicantType attributes,
        _determineOperationType attributes,
        _determineConstructionType attributes with
  | Some applicantType, Some operationDescription, Some constructionType =>
      Some
        (field "address"
           (truthy (get "street" matchedAddress)
            && truthy (get "city" matchedAddress)
            && truthy (get "state" matchedAddress))
           (VStr (trim (toString (get "street" matchedAddress) ++ ", "
                        ++ toString (get "city" matchedAddress) ++ ", "
                        ++ toString (get "state" matchedAddress) ++ " "
                        ++ toString (or (get "zipcode" matchedAddress)
                                        (VStr "")))))
         ++ field "corporationName"
              (truthy (_extractCorporationName attributes))
              (_extractCorporationName attributes)
         ++ field_of "applicantType" (Some applicantType)
         ++ field_of "operationDescription" operationDescription
         ++ field "yearBuilt" (truthy (get "year_built" attributes))
              (VStr (toString (get "year_built" attributes)))
         ++ field "totalSqFootage"
              (truthy (_getBestSquareFootage attributes))
              (VStr (toString (_getBestSquareFootage attributes)))
         ++ field_of "constructionType" constructionType
         ++ field_of "ownershipType"
              (Some (_determineOwnershipType attributes))
         ++ field "propertyUse"
              (truthy (or (get "land_use_standard" attributes)
                          (get "zoning" attributes)))
              (or (get "land_use_standard" attributes)
                  (get "zoning" attributes))
         ++ field "acres" (truthy (get "acres" attributes))
              (VStr (toString (get "acres" attributes)))
         ++ field "lotSize" (truthy (get "lot_sqft" attributes))
              (_formatNumber (get "lot_sqft" attributes))
         ++ field "county"
              (truthy (or (get "situs_county" attributes)
                          (get "county" matchedAddress)))
              (or (get "situs_county" attributes)
                  (get "county" matchedAddress))
         ++ field "protectionClass" (truthy (get "fire_district" attributes))
              (get "fire_district" attributes))%list
  | _, _, _ => None
  end.

End Service.

(** The applicant types the form offers besides "other". *)
Definition applicant_types : list string :=
  ["llc"; "corporation"; "partnership"; "jointVenture"; "individual"].

(** [toUpperCase] and [toLowerCase] on ASCII letters, [parseInt] on
    numbers, for records made of ASCII text. *)
Definition ascii_lower_char (c : ascii) : ascii :=
  let n := nat_of_ascii c in
  if ((65 <=? n) && (n <=? 90))%nat then ascii_of_nat (n + 32) else c.

Fixpoint ascii_lower (s : string) : string :=
  match s with
  | EmptyString => EmptyString
  | String c rest => String (ascii_lower_char c) (ascii_lower rest)
  end.

Definition parse_number (v : value) : option Z :=
  match v with
  | VNum n => Some n
  | _ => None
  end.

(** A property record whose deed owner is a company. *)
Definition company_record : value :=
  VObj [("attributes",
         VObj [("deed_owner_full_name", VStr "LAKESIDE FUEL LLC");
               ("owner_occupancy_status", VStr "ABSENTEE OWNER");
               ("land_use_standard", VStr "commercial");
               ("zoning", VStr "C-2");
               ("year_built", VNum 1998)])].

End InsuranceFormPrefillService.

(** ** AuthContext: the session of the user *)

Module AuthContext.

(** The state of the provider, and the [user] item of [localStorage]
    ([None] when there is none). *)
Record state : Type := {
  user : value;
  isLoggedIn : bool;
  loading : bool;
  storedUser : option string
}.

(** The provider when it is mounted, over what the browser has stored. *)
Definition mounted (stored : option string) : state :=
  {| user := VNull; isLoggedIn := false; loading := true;
     storedUser := stored |}.

Definition logout (st : state) : state :=
  {| user := VNull; isLoggedIn := false; loading := loading st;
     storedUser := None |}.

(** What comes back from [fetch]: the 30 s abort, a network error, or a
    response and the outcome of parsing its body. *)
Inductive fetch_result : Type :=
| TimedOut
| Failed (msg : string)
| Response (r : QCNewResults.response) (body : json_outcome).

Section Session.

(** [JSON.parse] ([None] when it throws) and [JSON.stringify], taken as
    given. *)
Variable parse : string -> option value.
Variable stringify : value -> string.

(** [loadUser], in the browser. *)
Definition loadUser (st : state) : state :=
  match storedUser st with
  | Some ((String _ _) as stored) =>
      match parse stored with
      | Some userData =>
          {| user := userData; isLoggedIn := true; loading := false;
             storedUser := storedUser st |}
      | None =>
          {| user := user st; isLoggedIn := isLoggedIn st; loading := false;
             storedUser := None |}
      end
  | _ =>
      {| user := user st; isLoggedIn := isLoggedIn st; loading := false;
         storedUser := storedUser st |}
  end.

(** The last lines of the [catch] of [login] and [register], for an
    error that is not an abort. *)
Definition rethrown (dflt msg : string) : string :=
  if includes "Failed to fetch" msg || includes "NetworkError" msg
  then "Cannot connect to server. Please check your connection or try again later."
  else if String.eqb msg "" then dflt else msg.

(** [errorMsg] of a response that is not ok. *)
Definition errorMsg_of (dflt : string) (r : QCNewResults.response)
  (body : json_outcome) : string :=
  let fallback :=
    toString (or (VStr (QCNewResults.statusText r))
                 (VStr ("HTTP " ++ nat_to_string (QCNewResults.status r)))) in
  match body with
  | JsonOk error =>
      if is_nullish error then fallback
      else toString (or (get "detail" error)
                        (or (get "error" error) (VStr dflt)))
  | JsonFail _ => fallback
  end.

(** The user of a successful answer, or the message of the error the
    call rejects with. *)
Definition answer (dflt : string) (net : fetch_result) : string + value :=
  match net with
  | TimedOut =>
      inl "Request timed out. Please check your connection and try again."
  | Failed msg => inl (rethrown dflt msg)
  | Response r body =>
      if negb (QCNewResults.ok r)
      then inl (rethrown dflt (errorMsg_of dflt r body))
      else
        match body with
        | JsonFail msg => inl (rethrown dflt msg)
        | JsonOk data =>
            if is_nullish data
            then inl (rethrown dflt "Cannot read properties of null")
            else inr (VObj [("username", get "username" data)])
        end
  end.

Record outcome : Type := { after : state; rejected : option string }.

(** The body [login] and [register] share, but for the path of the
    request and the default message. *)
Definition authenticate (dflt : string) (net : fetch_result) (st : state)
  : outcome :=
  match answer dflt net with
  | inl msg =>
      {| after := {| user := user st; isLoggedIn := isLoggedIn st;
                     loading := false; storedUser := storedUser st |};
         rejected := Some msg |}
  | inr userData =>
      {| after := {| user := userData; isLoggedIn := true; loading := false;
                     storedUser := Some (stringify userData) |};
         rejected := None |}
  end.

Definition login : fetch_result -> state -> outcome :=
  authenticate "Login failed".

Definition register : fetch_result -> state -> outcome :=
  authenticate "Registration failed".

End Session.

End AuthContext.

(** ** EformsAuthProvider: the gate of the C-store forms *)

Module EformsAuthProvider.

Record state : Type := { isAuthenticated : bool; isLoading : bool }.

Definition initial : state :=
  {| isAuthenticated := false; isLoading := true |}.

(** [!!agentProfile] for the item of [localStorage]. *)
Definition has_profile (agentProfile : option string) : bool :=
  match agentProfile with
  | Some (String _ _) => true
  | _ => false
  end.

(** The effect, for the stored profile and the path of the page: the new
    state and the [router.push] targets. *)
Definition effect (agentProfile : option string) (pathname : string)
  (st : state) : state * list string :=
  if negb (has_profile agentProfile)
     && negb (String.eqb pathname "/cstore/auth")
  then ({| isAuthenticated := isAuthenticated st; isLoading := false |},
        ["/cstore/auth"])
  else if has_profile agentProfile && String.eqb pathname "/cstore/auth"
  then ({| isAuthenticated := isAuthenticated st; isLoading := false |},
        ["/cstore"])
  else ({| isAuthenticated := has_profile agentProfile; isLoading := false |},
        []).

End EformsAuthProvider.

(* ================================================================== *)
(** * Part II: properties *)
(* ================================================================== *)

(** ** ExtractedFieldsDisplay *)

Section FlattenData.

Import ExtractedFieldsDisplay.

(** Induction on JSON values, with the hypothesis for every element of an
    array and every property of an object. *)
Lemma value_rect_deep (P : value -> Prop) :
  P VUndef -> P VNull -> (forall b, P (VBool b)) -> (forall n, P (VNum n)) ->
  (forall s, P (VStr s)) ->
  (forall items, Forall P items -> P (VArr items)) ->
  (forall fields, Forall (fun kv => P (snd kv)) fields -> P (VObj fields)) ->
  forall v, P v.
Proof.
  intros Hu Hn Hb Hz Hs Ha Ho.
  fix IH 1.
  intros [ | | b | n | s | items | fields ].
  - exact Hu.
  - exact Hn.
  - apply Hb.
  - apply Hz.
  - apply Hs.
  - apply Ha. induction items as [ | x rest IHrest ]; constructor.
    + apply IH.
    + exact IHrest.
  - apply Ho. induction fields as [ | [k x] rest IHrest ]; constructor.
    + apply IH.
    + exact IHrest.
Qed.

Lemma with_property_lookup {A : Type} (k : string) (dflt : A)
  (f : value -> A) (o : list (string * value)) :
  with_property k dflt f o =
  match lookup k o with
  | Some v => f v
  | None => dflt
  end.
Proof.
  induction o as [ | [k' v] rest IH ]; simpl; auto.
  destruct (String.eqb k k'); auto.
Qed.

(** [flattenData] is its loop body mapped over the entries. *)
Lemma flattenValue_obj (isFlagged : bool) (fields : list (string * value))
  (prefix : string) :
  flattenValue isFlagged (VObj fields) prefix =
  flat_map (flatten_entry isFlagged prefix) fields.
Proof.
  cbn [flattenValue].
  apply flat_map_ext. intros [key fieldData].
  unfold flatten_entry.
  destruct (is_nullish fieldData); auto.
  destruct (isFlagged && truthy fieldData && typeof_object fieldData
            && has "value" fieldData && has "color" fieldData) eqn:E; auto.
  destruct fieldData as [ | | b | n | s | items | ffields ]; auto;
    try (rewrite !andb_false_r in E || simpl in E; rewrite ?andb_false_r in E;
         discriminate).
  rewrite with_property_lookup.
  apply andb_prop in E. destruct E as [E _].
  apply andb_prop in E. destruct E as [_ E].
  unfold has in E.
  destruct (lookup "value" ffields) as [v | ] eqn:L; [ | discriminate ].
  assert (G : get "value" (VObj ffields) = v)
    by (unfold get; rewrite L; reflexivity).
  cbv zeta. rewrite G. reflexivity.
Qed.



Lemma lookup_In (k : string) (fields : list (string * value)) (x : value) :
  lookup k fields = Some x -> exists k', In (k', x) fields.
Proof.
  induction fields as [ | [k' v] rest IH ]; simpl; [ discriminate | ].
  destruct (String.eqb k k').
  - intros [= ->]. exists k'. now left.
  - intros H. destruct (IH H) as [k'' Hin]. exists k''. now right.
Qed.

Lemma tagged_is_object (d : value) :
  tagged d -> typeof_object d && has "value" d = true.
Proof.
  intros [Hv _]. rewrite Hv. destruct d; simpl in *; try discriminate.
  reflexivity.
Qed.

Lemma inherit_color_tagged (c : value) (e : entry) :
  tagged (snd e) -> inherit_color c e = e.
Proof.
  destruct e as [k d]. intros H. unfold inherit_color.
  simpl in H. rewrite (tagged_is_object d H). reflexivity.
Qed.

(** Every entry of the flattened list carries a [value] and a [color]. *)
Lemma flattenValue_tagged (v : value) :
  forall isFlagged prefix,
    Forall (fun e : entry => tagged (snd e)) (flattenValue isFlagged v prefix).
Proof.
  set (Q := fun v => forall isFlagged prefix,
              Forall (fun e : entry => tagged (snd e))
                (flattenValue isFlagged v prefix)).
  enough (H : Q v /\ (forall fields, v = VObj fields ->
                      forall k x, lookup k fields = Some x -> Q x))
    by exact (proj1 H).
  induction v as [ | | b | n | s | items _ | fields IH ] using value_rect_deep;
    try (split; [ intros f p; constructor | intros fs [=] ]).
  rewrite Forall_forall in IH.
  assert (Hsub : forall k x, lookup k fields = Some x -> Q x).
  { intros k x Hl. destruct (lookup_In _ _ _ Hl) as [k' Hin].
    exact (proj1 (IH _ Hin)). }
  split; [ | intros fs [= <-]; exact Hsub ].
  intros isFlagged prefix. rewrite flattenValue_obj.
  apply Forall_flat_map. rewrite Forall_forall.
  intros [key fieldData] Hin.
  destruct (IH _ Hin) as [Hq Hdeep]. simpl in Hq, Hdeep.
  unfold flatten_entry.
  destruct (is_nullish fieldData); [ constructor | ].
  destruct (isFlagged && truthy fieldData && typeof_object fieldData
            && has "value" fieldData && has "color" fieldData) eqn:E.
  - apply andb_prop in E. destruct E as [E Hc].
    apply andb_prop in E. destruct E as [_ Hv].
    cbv zeta.
    destruct (truthy (get "value" fieldData)
              && typeof_object (get "value" fieldData)
              && negb (isArray (get "value" fieldData))) eqn:N.
    + destruct fieldData as [ | | | | | | ffields ]; try discriminate Hv.
      assert (Hq' : Q (get "value" (VObj ffields))).
      { unfold get. unfold has in Hv.
        destruct (lookup "value" ffields) as [x | ] eqn:L; [ | discriminate ].
        exact (Hdeep ffields eq_refl "value" x L). }
      apply Forall_map.
      eapply Forall_impl; [ | apply Hq' ].
      intros e He. rewrite (inherit_color_tagged _ _ He). exact He.
    + repeat constructor; assumption.
  - destruct (truthy fieldData && typeof_object fieldData
              && negb (isArray fieldData)).
    + apply Hq.
    + repeat constructor.
Qed.


Lemma inherit_color_flattenValue (c : value) (isFlagged : bool) (v : value)
  (prefix : string) :
  map (inherit_color c) (flattenValue isFlagged v prefix)
  = flattenValue isFlagged v prefix.
Proof.
  pose proof (flattenValue_tagged v isFlagged prefix) as H.
  induction H as [|e l He Hl IH]; cbn [map]; auto.
  rewrite (inherit_color_tagged c e He), IH. reflexivity.
Qed.

Lemma leaf_not_object (x : value) (k : string) :
  leaf x -> typeof_object x && has k x = false.
Proof.
  intros [_ H]. destruct x; simpl in *; auto; discriminate.
Qed.

Lemma flatten_entry_leaf (isFlagged : bool) (prefix key : string)
  (x : value) :
  leaf x ->
  flatten_entry isFlagged prefix (key, x)
  = [(newKey prefix key, flagged x (VStr "black"))].
Proof.
  intros Hl. pose proof (leaf_not_object x "value" Hl) as Hno.
  destruct Hl as [Hn Hl]. unfold flatten_entry. rewrite Hn, Hl.
  replace (isFlagged && truthy x && typeof_object x && has "value" x
           && has "color" x)
    with false; [reflexivity|].
  rewrite <- !andb_assoc, (andb_assoc (typeof_object x)), Hno.
  cbn [andb]. rewrite !andb_false_r. reflexivity.
Qed.




Lemma leaf_at_leaf (obj : list (string * value)) (path : list string)
  (x : value) :
  leaf_at obj path x -> leaf x.
Proof. induction 1; assumption. Qed.





(** A run on flagged data: the absent field is gone, the nested address
    is flattened under its parent's key, a flagged [null] stays. *)
Example flattenData_example :
  flattenData true
    [("policy_number", flagged (VStr "P-1") (VStr "green"));
     ("expiration_date", VUndef);
     ("address", VObj [("city", VStr "Austin"); ("zip", VNull)]);
     ("agent", flagged VNull (VStr "red"))] "" =
  [("policy_number", flagged (VStr "P-1") (VStr "green"));
   ("address > city", flagged (VStr "Austin") (VStr "black"));
   ("agent", flagged VNull (VStr "red"))].
Proof. reflexivity. Qed.

End FlattenData.

(** ** QCNewPage *)

Section HandleUpload.

Import QCNewPage.

Lemma isSome_true {A : Type} (o : option A) : isSome o = true <-> o <> None.
Proof. destruct o; simpl; split; congruence. Qed.

Lemma isSome_false {A : Type} (o : option A) : isSome o = false <-> o = None.
Proof. destruct o; simpl; split; congruence. Qed.

Lemma handleUpload_no_certificate username st net :
  negb (isSome (plCertificateFile st))
  && negb (isSome (glCertificateFile st)) = true ->
  handleUpload username st net =
  {| final := set_error
       "Please upload at least one certificate (PL or GL) and the policy PDF" st;
     sent := []; pushed := [] |}.
Proof. intros H. unfold handleUpload. rewrite H. reflexivity. Qed.

Lemma handleUpload_no_policy username st net :
  negb (isSome (plCertificateFile st))
  && negb (isSome (glCertificateFile st)) = false ->
  policyFile st = None ->
  handleUpload username st net =
  {| final := set_error "Please upload the policy PDF" st;
     sent := []; pushed := [] |}.
Proof. intros H Hp. unfold handleUpload. rewrite H, Hp. reflexivity. Qed.

Lemma handleUpload_sent username st net policy :
  negb (isSome (plCertificateFile st))
  && negb (isSome (glCertificateFile st)) = false ->
  policyFile st = Some policy ->
  let out := handleUpload username st net in
  sent out = [{| path := "/qc-new/upload-unified";
                 body := formData username st policy;
                 user_header := username_or_default username |}]
  /\ (forall msg, read_response net = inl msg ->
         error (final out) = (if String.eqb msg "" then "Failed to upload files" else msg)
         /\ pushed out = [])
  /\ (forall newUploadId, read_response net = inr newUploadId ->
         uploadId (final out) = newUploadId /\ error (final out) = "" /\
         pushed out = ["/qc-new-results?id=" ++ toString newUploadId]).
Proof.
  intros H Hp out. subst out. unfold handleUpload. rewrite H, Hp.
  destruct (read_response net) as [msg | newId]; cbn [sent final pushed];
    split; try reflexivity; split; intros x Hx; inversion Hx; subst;
    repeat split; reflexivity.
Qed.

(** C4, as the form does it. A submission is sent to the server if and
    only if it attaches the policy and a PL or a GL certificate (an ACORD
    certificate does not stand in for them). One that is not sent ends
    with an error message, no request and no redirect. One that is sent
    carries the policy, and when the server answers with an upload id
    the id is kept and the page moves on to the results; any other
    answer ends with an error message. *)
Theorem handleUpload_sends_iff_policy_and_pl_or_gl :
  forall (username : option string) (st : state) (net : fetch_outcome),
    let out := handleUpload username st net in
    (sent out <> [] <->
       policyFile st <> None /\
       (plCertificateFile st <> None \/ glCertificateFile st <> None))
    /\ (sent out = [] ->
          error (final out) <> "" /\ pushed out = [] /\
          uploading (final out) = uploading st)
    /\ (forall req, In req (sent out) ->
          sent out = [req] /\ path req = "/qc-new/upload-unified" /\
          exists policy, policyFile st = Some policy /\
                         In ("policy_pdf", FormFile policy) (body req))
    /\ (sent out <> [] ->
          forall status data,
            net = Responded status (JsonOk data) ->
            response_ok status = true ->
            truthy (get "upload_id" data) = true ->
            uploadId (final out) = get "upload_id" data /\
            error (final out) = "" /\
            pushed out = ["/qc-new-results?id=" ++ toString (get "upload_id" data)])
    /\ (sent out <> [] -> pushed out = [] -> error (final out) <> "").
Proof.
  intros username st net out.
  destruct (negb (isSome (plCertificateFile st))
            && negb (isSome (glCertificateFile st))) eqn:Hcert.
  { (* neither a PL nor a GL certificate *)
    pose proof (handleUpload_no_certificate username st net Hcert) as E.
    fold out in E. rewrite E. cbn [sent final pushed].
    apply andb_prop in Hcert. destruct Hcert as [Hpl Hgl].
    apply negb_true_iff, isSome_false in Hpl, Hgl.
    repeat split; try congruence; try contradiction.
    - intros [_ [H | H]]; contradiction.
    - discriminate. }
  destruct (policyFile st) as [policy | ] eqn:Hpol.
  2:{ (* no policy *)
    pose proof (handleUpload_no_policy username st net Hcert Hpol) as E.
    fold out in E. rewrite E. cbn [sent final pushed].
    repeat split; try congruence; try contradiction.
    - intros [H _]; contradiction.
    - discriminate. }
  (* the request goes out *)
  pose proof (handleUpload_sent username st net policy Hcert Hpol) as E.
  fold out in E. destruct E as [Hsent [Hfail Hok]].
  assert (Hany : plCertificateFile st <> None \/ glCertificateFile st <> None).
  { apply andb_false_iff in Hcert.
    destruct Hcert as [H | H]; apply negb_false_iff, isSome_true in H; auto. }
  split; [ | split; [ | split; [ | split ] ] ].
  - rewrite Hsent. split; [ intros _; split; [ discriminate | exact Hany ]
                          | intros _; discriminate ].
  - rewrite Hsent. discriminate.
  - rewrite Hsent. intros req [<- | []].
    split; [ reflexivity | split; [ reflexivity | ] ].
    exists policy. split; [ reflexivity | ].
    unfold body, formData. rewrite !in_app_iff. do 4 right. now left.
  - intros _ status data -> Hstatus Hid.
    assert (Hn : is_nullish data = false)
      by (destruct data; simpl in Hid |- *; congruence).
    apply Hok. unfold read_response.
    rewrite Hn, Hstatus, Hid. reflexivity.
  - intros _ Hpushed.
    destruct (read_response net) as [msg | newId] eqn:Hr.
    + rewrite (proj1 (Hfail msg eq_refl)).
      destruct (String.eqb msg "") eqn:Em; [ discriminate | ].
      apply String.eqb_neq in Em. exact Em.
    + destruct (Hok newId eq_refl) as [_ [_ Hp]]. rewrite Hp in Hpushed.
      discriminate.
Qed.

Lemma handleUpload_sends_iff_policy_and_pl_or_gl_witness :
  let st := {| plCertificateFile := Some {| name := "pl.pdf"; type := "application/pdf" |};
               glCertificateFile := None;
               acordCertificateFile := None;
               glAcordCertificateFile := None;
               policyFile := Some {| name := "policy.pdf"; type := "application/pdf" |};
               uploading := false; uploadId := VStr ""; error := "";
               results := VNull |} in
  let net := Responded 200 (JsonOk (VObj [("upload_id", VStr "u-17")])) in
  uploadId (final (handleUpload (Some "ana") st net)) = VStr "u-17" /\
  error (final (handleUpload (Some "ana") st net)) = "" /\
  pushed (handleUpload (Some "ana") st net) = ["/qc-new-results?id=u-17"].
Proof.
  intros st net.
  pose proof (handleUpload_sends_iff_policy_and_pl_or_gl (Some "ana") st net)
    as H.
  cbv zeta in H. destruct H as [Hiff [_ [_ [Hok _]]]].
  assert (Hs : sent (handleUpload (Some "ana") st net) <> []).
  { apply Hiff. split; [ discriminate | left; discriminate ]. }
  exact (Hok Hs 200 (VObj [("upload_id", VStr "u-17")])
           eq_refl eq_refl eq_refl).
Defined.

(** C4 as stated fails: a submission with the policy and an ACORD
    certificate attaches a role-tagged certificate, and is rejected
    before any request. *)
Lemma handleUpload_acord_only_rejected :
  let st := {| plCertificateFile := None;
               glCertificateFile := None;
               acordCertificateFile := Some {| name := "acord.pdf"; type := "application/pdf" |};
               glAcordCertificateFile := None;
               policyFile := Some {| name := "policy.pdf"; type := "application/pdf" |};
               uploading := false; uploadId := VStr ""; error := "";
               results := VNull |} in
  let net := Responded 200 (JsonOk (VObj [("upload_id", VStr "u-17")])) in
  (policyFile st <> None /\ attached_certificates st = ["acord_certificate_pdf"])
  /\ sent (handleUpload (Some "ana") st net) = []
  /\ error (final (handleUpload (Some "ana") st net)) =
     "Please upload at least one certificate (PL or GL) and the policy PDF".
Proof.
  cbv zeta. split; [ split; [ discriminate | reflexivity ] | ].
  split; reflexivity.
Qed.

End HandleUpload.

(** ** The rows of the results page *)

Section ResultRows.

Import QCNewResultsView.

Lemma str_eq_true (v : value) (s : string) :
  str_eq v s = true <-> v = VStr s.
Proof.
  destruct v; simpl; try (split; [ discriminate | intros [=] ]).
  rewrite String.eqb_eq. split; [ intros -> | intros [= ->] ]; reflexivity.
Qed.

Lemma str_eq_false (v : value) (s : string) :
  str_eq v s = false <-> v <> VStr s.
Proof.
  rewrite <- str_eq_true. destruct (str_eq v s); split; congruence.
Qed.

Lemma get_not_nullish (k : string) (item x : value) :
  get k item = x -> is_nullish x = false -> is_nullish item = false.
Proof. destruct item; simpl; intros <-; auto. Qed.

(** The status pill of every kind of row shows the status it is given,
    whatever it is, and picks its colour from it. *)
Lemma status_badge_spec (status : value) :
  badge_text (status_badge status) = status
  /\ (badge_class (status_badge status) = green <-> status = VStr "MATCH")
  /\ (badge_class (status_badge status) = red <->
        status = VStr "MISMATCH" \/ status = VStr "NOT_FOUND")
  /\ (badge_class (status_badge status) = yellow <->
        status <> VStr "MATCH" /\ status <> VStr "MISMATCH"
        /\ status <> VStr "NOT_FOUND").
Proof.
  unfold status_badge, status_class; cbn [badge_text badge_class].
  destruct (str_eq status "MATCH") eqn:E1;
    [ apply str_eq_true in E1
    | apply str_eq_false in E1;
      destruct (str_eq status "MISMATCH") eqn:E2;
      [ apply str_eq_true in E2
      | apply str_eq_false in E2;
        destruct (str_eq status "NOT_FOUND") eqn:E3;
        [ apply str_eq_true in E3 | apply str_eq_false in E3 ] ] ];
    cbn [orb]; subst;
    repeat split; try discriminate; try congruence; auto;
    try (intros [H | H]; congruence);
    try (intros [H1 [H2 H3]]; congruence).
Qed.

Lemma traverse_In {A B : Type} (f : A -> option B) (l : list A)
  (out : list B) (x : A) :
  traverse f l = Some out -> In x l -> exists y, f x = Some y /\ In y out.
Proof.
  revert out. induction l as [ | a rest IH ]; intros out H Hin;
    [ contradiction | ].
  simpl in H. destruct (f a) as [y | ] eqn:Ea; [ | discriminate ].
  destruct (traverse f rest) as [ys | ] eqn:Er; [ | discriminate ].
  injection H as <-. destruct Hin as [<- | Hin].
  - exists y. split; [ exact Ea | now left ].
  - destruct (IH ys eq_refl Hin) as [z [Hz Hin']].
    exists z. split; [ exact Hz | now right ].
Qed.

Lemma parts_In (l : list (option (list block))) (out a : list block)
  (b : block) :
  parts l = Some out -> In (Some a) l -> In b a -> In b out.
Proof.
  revert out. induction l as [ | p rest IH ]; intros out H Hin Hb;
    [ contradiction | ].
  simpl in H. destruct p as [a' | ]; [ | discriminate ].
  destruct (parts rest) as [bs | ] eqn:Er; [ | discriminate ].
  injection H as <-. apply in_or_app. destruct Hin as [[= ->] | Hin].
  - now left.
  - right. exact (IH bs eq_refl Hin Hb).
Qed.

Lemma parts_all_some (l : list (option (list block))) (out : list block)
  (p : option (list block)) :
  parts l = Some out -> In p l -> exists a, p = Some a.
Proof.
  revert out. induction l as [ | q rest IH ]; intros out H Hin;
    [ contradiction | ].
  simpl in H. destruct q as [a' | ]; [ | discriminate ].
  destruct (parts rest) as [bs | ] eqn:Er; [ | discriminate ].
  destruct Hin as [<- | Hin]; [ now exists a' | exact (IH bs eq_refl Hin) ].
Qed.

Lemma part_Some (cond : bool) (p : option (list block)) (out : list block) :
  cond = true -> part cond p = Some out -> p = Some out.
Proof. intros ->. auto. Qed.

(** A section that is rendered has every row of a list it maps over. *)
Lemma rows_In {A : Type} (f : A -> option three_way_row)
  (l : list A) (out : list block) (x : A) :
  omap (map ThreeWayCore) (traverse f l) = Some out -> In x l ->
  exists r, f x = Some r /\ In (ThreeWayCore r) out.
Proof.
  intros H Hin. destruct (traverse f l) as [rows | ] eqn:Hrows;
    [ | discriminate ].
  injection H as <-.
  destruct (traverse_In f l rows x Hrows Hin) as [r [Hr Hin']].
  exists r. split; [ exact Hr | ]. now apply in_map.
Qed.

Lemma nonempty_entries {A : Type} (l : list A) (x : A) :
  In x l -> nonempty (List.length l) = true.
Proof. destruct l; [ contradiction | reflexivity ]. Qed.

(** *** What a rendered page is made of *)

Lemma parts_cons (p : option (list block)) (rest : list (option (list block)))
  (out : list block) :
  parts (p :: rest) = Some out ->
  exists a b, p = Some a /\ parts rest = Some b /\ out = (a ++ b)%list.
Proof.
  simpl. destruct p as [a | ]; [ | discriminate ].
  destruct (parts rest) as [b | ]; [ | discriminate ].
  intros [= <-]. eauto.
Qed.

Lemma parts_In_inv (l : list (option (list block))) (out : list block)
  (b : block) :
  parts l = Some out -> In b out -> exists a, In (Some a) l /\ In b a.
Proof.
  revert out. induction l as [ | p rest IH ]; intros out H Hin.
  - injection H as <-. contradiction.
  - destruct (parts_cons _ _ _ H) as (a & bs & -> & Hrest & ->).
    apply in_app_or in Hin. destruct Hin as [Hin | Hin].
    + exists a. split; [ now left | exact Hin ].
    + destruct (IH bs Hrest Hin) as (a' & Ha' & Hb).
      exists a'. split; [ now right | exact Hb ].
Qed.

Lemma part_In_inv (cond : bool) (p : option (list block)) (a : list block)
  (b : block) :
  part cond p = Some a -> In b a -> cond = true /\ p = Some a.
Proof.
  destruct cond; cbn [part]; [ auto | ].
  intros [= <-] [].
Qed.

Lemma traverse_In_inv {A B : Type} (f : A -> option B) (l : list A)
  (out : list B) (y : B) :
  traverse f l = Some out -> In y out -> exists x, In x l /\ f x = Some y.
Proof.
  revert out. induction l as [ | a rest IH ]; intros out H Hin.
  - injection H as <-. contradiction.
  - simpl in H. destruct (f a) as [y' | ] eqn:Ea; [ | discriminate ].
    destruct (traverse f rest) as [ys | ]; [ | discriminate ].
    injection H as <-. destruct Hin as [<- | Hin].
    + exists a. split; [ now left | exact Ea ].
    + destruct (IH ys eq_refl Hin) as (x & Hx & Hy).
      exists x. split; [ now right | exact Hy ].
Qed.

Lemma traverse_Forall2 {A B : Type} (f : A -> option B) (R : A -> B -> Prop)
  (l : list A) (out : list B) :
  (forall x y, f x = Some y -> R x y) ->
  traverse f l = Some out -> Forall2 R l out.
Proof.
  intros Hf. revert out. induction l as [ | a rest IH ]; intros out H.
  - injection H as <-. constructor.
  - simpl in H. destruct (f a) as [y | ] eqn:Ea; [ | discriminate ].
    destruct (traverse f rest) as [ys | ]; [ | discriminate ].
    injection H as <-. constructor; auto.
Qed.

Lemma rows_In_inv {A R : Type} (f : A -> option R) (wrap : R -> block)
  (l : list A) (out : list block) (b : block) :
  omap (map wrap) (traverse f l) = Some out -> In b out ->
  exists x r, In x l /\ f x = Some r /\ b = wrap r.
Proof.
  intros H Hin. destruct (traverse f l) as [rows | ] eqn:Hrows;
    [ | discriminate ].
  injection H as <-. apply in_map_iff in Hin.
  destruct Hin as (r & <- & Hr).
  destruct (traverse_In_inv _ _ _ _ Hrows Hr) as (x & Hx & Hfx).
  exists x, r. auto.
Qed.

Lemma map_array_In_inv {R : Type} (f : value -> option R) (wrap : R -> block)
  (v : value) (out : list block) (b : block) :
  map_array (fun i => omap wrap (f i)) v = Some out -> In b out ->
  exists items item r,
    v = VArr items /\ In item items /\ f item = Some r /\ b = wrap r.
Proof.
  intros H Hin. destruct v as [ | | | | | items | ]; try discriminate.
  cbn [map_array] in H.
  destruct (traverse_In_inv _ _ _ _ H Hin) as (item & Hitem & Hf).
  destruct (f item) as [r | ] eqn:Er; [ | discriminate ].
  injection Hf as <-. exists items, item, r. auto.
Qed.

Lemma coverage_groups_In_inv (l : list (string * value)) (out : list block)
  (b : block) :
  coverage_groups l = Some out -> In b out ->
  exists coverage items views,
    b = CoverageGroup coverage views
    /\ In (coverage, VArr items) l
    /\ traverse CoverageItem items = Some views.
Proof.
  unfold coverage_groups. intros H Hin.
  match type of H with
  | omap _ (traverse ?f l) = _ =>
      destruct (traverse f l) as [gs | ] eqn:Hgs; [ | discriminate ]
  end.
  injection H as <-. apply in_concat in Hin.
  destruct Hin as (g & Hg & Hb).
  destruct (traverse_In_inv _ _ _ _ Hgs Hg) as ([coverage v] & Hl & Hv).
  destruct v as [ | | | | | [ | i items ] | ];
    try (injection Hv as <-; contradiction).
  destruct (traverse CoverageItem (i :: items)) as [views | ] eqn:Hviews;
    [ | discriminate ].
  injection Hv as <-. destruct Hb as [<- | []].
  exists coverage, (i :: items), views. auto.
Qed.

Lemma additional_interests_In_inv (v : value) (out : list block) (b : block) :
  additional_interests v = Some out -> In b out ->
  b = NoInterests
  \/ exists items item w,
       v = VArr items /\ In item items /\ CoverageItem item = Some w
       /\ b = Interest w.
Proof.
  unfold additional_interests. intros H Hin.
  destruct (length_is_positive v).
  - right. exact (map_array_In_inv CoverageItem Interest _ _ _ H Hin).
  - destruct (length_is_zero v); injection H as <-.
    + destruct Hin as [<- | []]. now left.
    + contradiction.
Qed.

Lemma CoverageItem_badge (item : value) (v : coverage_view) :
  CoverageItem item = Some v -> cv_badge v = status_badge (get "status" item).
Proof.
  unfold CoverageItem. destruct (is_nullish item); [ discriminate | ].
  intros [= <-]. reflexivity.
Qed.

Lemma core_row_badge (entry : string * value) (r : validation_row) :
  core_row entry = Some r ->
  vr_label r = VStr (field_label (fst entry))
  /\ vr_badge r = status_badge (get "status" (snd entry)).
Proof.
  destruct entry as [field data]. unfold core_row.
  destruct (is_nullish data); [ discriminate | ].
  intros [= <-]. split; reflexivity.
Qed.

Lemma address_row_badge (item : value) (r : validation_row) :
  address_row item = Some r -> vr_badge r = status_badge (get "status" item).
Proof.
  unfold address_row. destruct (is_nullish item); [ discriminate | ].
  destruct (address_label (get "address_type" item)); [ | discriminate ].
  intros [= <-]. reflexivity.
Qed.

Lemma presence_item_badge (item : value) (r : presence_row) :
  presence_item item = Some r ->
  badge_text (pr_badge r) = get "status" item
  /\ badge_class (pr_badge r)
     = (if str_eq (get "status" item) "PRESENT" then green else red).
Proof.
  unfold presence_item. destruct (is_nullish item); [ discriminate | ].
  intros [= <-]. split; reflexivity.
Qed.

Lemma acordPlCoreRow_badge (entry : string * value) (r : three_way_row) :
  acordPlCoreRow entry = Some r ->
  tw_label r = VStr (field_label (fst entry))
  /\ tw_badge r = status_badge (get "status" (snd entry)).
Proof.
  destruct entry as [field data]. unfold acordPlCoreRow.
  destruct (is_nullish data); [ discriminate | ].
  intros [= <-]. split; reflexivity.
Qed.

Lemma glAcordCoreRow_badge (entry : string * value) (r : three_way_row) :
  glAcordCoreRow entry = Some r ->
  tw_label r = VStr (field_label (fst entry))
  /\ tw_badge r = status_badge (get "status" (snd entry)).
Proof.
  destruct entry as [field data]. unfold glAcordCoreRow.
  destruct (is_nullish data); [ discriminate | ].
  intros [= <-]. split; reflexivity.
Qed.

Lemma acordPlCoverageRow_badge (item : value) (r : three_way_row) :
  acordPlCoverageRow item = Some r ->
  tw_badge r = status_badge (get "status" item).
Proof.
  unfold acordPlCoverageRow. destruct (is_nullish item); [ discriminate | ].
  destruct (coverage_group (get "coverage_group" item)); [ | discriminate ].
  intros [= <-]. reflexivity.
Qed.

Lemma glAcordCoverageRow_badge (item : value) (r : three_way_row) :
  glAcordCoverageRow item = Some r ->
  tw_badge r = status_badge (get "status" item).
Proof.
  unfold glAcordCoverageRow. destruct (is_nullish item); [ discriminate | ].
  intros [= <-]. reflexivity.
Qed.

(** The head of a list of parts, and the parts after it. *)
Ltac first_part H a Ha Hrest :=
  let b := fresh "rest" in
  let E := fresh "E" in
  destruct (parts_cons _ _ _ H) as (a & b & Ha & Hrest & E);
  subst.

Lemma group_rendered (results : value) (l : list (string * value))
  (out : list block) (b : block) :
  (forall coverage items,
      In (coverage, VArr items) l ->
      In (coverage, VArr items) (plCoverageValidationsFiltered results)
      \/ In (coverage, VArr items) (obj_entries (glCoverageValidations results))
      \/ In (coverage, VArr items) (obj_entries (coverageValidations results))) ->
  coverage_groups l = Some out -> In b out -> rendered_from results b.
Proof.
  intros Hl H Hin.
  destruct (coverage_groups_In_inv _ _ _ H Hin)
    as (coverage & items & views & -> & Hc & Hviews).
  cbn [rendered_from]. exists items. split; [ exact (Hl _ _ Hc) | ].
  exact (traverse_Forall2 _ _ _ _ CoverageItem_badge Hviews).
Qed.

Lemma interests_rendered (results : value) (out : list block) (b : block) :
  additional_interests (plAdditionalInterests results) = Some out ->
  In b out -> rendered_from results b.
Proof.
  intros H Hin.
  destruct (additional_interests_In_inv _ _ _ H Hin)
    as [-> | (items & item & w & Hv & Hitem & Hw & ->)];
    cbn [rendered_from]; [ exact I | ].
  exists items, item. split; [ exact Hv | ]. split; [ exact Hitem | ].
  exact (CoverageItem_badge _ _ Hw).
Qed.

(** Every block of a rendered page comes from an entry or an item of
    the results, with the pill of the status found there. *)
Lemma page_rendered_from (results : value) (blocks : list block) (b : block) :
  validation_results results = Some blocks ->
  In b blocks -> rendered_from results b.
Proof.
  unfold validation_results. intros Hpage Hin.
  destruct (parts_In_inv _ _ _ Hpage Hin) as (sec & Hsec & Hb).
  cbn [In] in Hsec.
  destruct Hsec as [Hsec | [Hsec | [Hsec | [Hsec | [Hsec | []]]]]].
  - (* the PL section *)
    unfold pl_section in Hsec.
    destruct (part_In_inv _ _ _ _ Hsec Hb) as [_ Hparts].
    destruct (parts_In_inv _ _ _ Hparts Hb) as (a & Ha & Hba).
    cbn [In] in Ha. destruct Ha as [Ha | [Ha | [Ha | []]]].
    + destruct (part_In_inv _ _ _ _ Ha Hba) as [_ Hrows].
      destruct (rows_In_inv _ _ _ _ _ Hrows Hba) as ([field data] & r & Hx & Hr & ->).
      cbn [rendered_from]. exists field, data. split; [ now left | ].
      exact (proj2 (core_row_badge _ _ Hr)).
    + destruct (part_In_inv _ _ _ _ Ha Hba) as [_ Hg].
      apply (group_rendered results _ _ _ (fun c i H => or_introl H) Hg Hba).
    + exact (interests_rendered _ _ _ Ha Hba).
  - (* the GL section *)
    unfold gl_section in Hsec.
    destruct (part_In_inv _ _ _ _ Hsec Hb) as [_ Hparts].
    destruct (parts_In_inv _ _ _ Hparts Hb) as (a & Ha & Hba).
    cbn [In] in Ha. destruct Ha as [Ha | [Ha | [Ha | []]]].
    + destruct (part_In_inv _ _ _ _ Ha Hba) as [_ Hrows].
      destruct (map_array_In_inv address_row Address _ _ _ Hrows Hba)
        as (items & item & r & Hv & Hitem & Hr & ->).
      cbn [rendered_from]. exists items, item. split; [ exact Hv | ].
      split; [ exact Hitem | ]. exact (address_row_badge _ _ Hr).
    + destruct (part_In_inv _ _ _ _ Ha Hba) as [_ Hrows].
      destruct (map_array_In_inv presence_item Presence _ _ _ Hrows Hba)
        as (items & item & r & Hv & Hitem & Hr & ->).
      cbn [rendered_from]. exists items, item. split; [ exact Hv | ].
      split; [ exact Hitem | ]. exact (presence_item_badge _ _ Hr).
    + destruct (part_In_inv _ _ _ _ Ha Hba) as [_ Hg].
      apply (group_rendered results _ _ _
               (fun c i H => or_intror (or_introl H)) Hg Hba).
  - (* the ACORD section *)
    unfold acord_section in Hsec.
    destruct (part_In_inv _ _ _ _ Hsec Hb) as [_ Hparts].
    destruct (parts_In_inv _ _ _ Hparts Hb) as (a & Ha & Hba).
    cbn [In] in Ha. destruct Ha as [Ha | [Ha | [Ha | []]]].
    + destruct (part_In_inv _ _ _ _ Ha Hba) as [_ Hrows].
      destruct (rows_In_inv _ _ _ _ _ Hrows Hba) as ([field data] & r & Hx & Hr & ->).
      cbn [rendered_from]. exists field, data. split; [ now left | ].
      exact (proj2 (acordPlCoreRow_badge _ _ Hr)).
    + destruct (part_In_inv _ _ _ _ Ha Hba) as [_ Hrows].
      destruct (map_array_In_inv acordPlCoverageRow ThreeWayCoverage _ _ _
                  Hrows Hba)
        as (items & item & r & Hv & Hitem & Hr & ->).
      cbn [rendered_from]. exists items, item. split; [ now left | ].
      split; [ exact Hitem | ]. exact (acordPlCoverageRow_badge _ _ Hr).
    + exact (interests_rendered _ _ _ Ha Hba).
  - (* the GL ACORD section *)
    unfold gl_acord_section in Hsec.
    destruct (parts_In_inv _ _ _ Hsec Hb) as (a & Ha & Hba).
    cbn [In] in Ha. destruct Ha as [Ha | [Ha | []]].
    + destruct (part_In_inv _ _ _ _ Ha Hba) as [_ Hrows].
      destruct (rows_In_inv _ _ _ _ _ Hrows Hba) as ([field data] & r & Hx & Hr & ->).
      cbn [rendered_from]. exists field, data. split; [ now right | ].
      exact (proj2 (glAcordCoreRow_badge _ _ Hr)).
    + destruct (part_In_inv _ _ _ _ Ha Hba) as [_ Hrows].
      destruct (map_array_In_inv glAcordCoverageRow ThreeWayCoverage _ _ _
                  Hrows Hba)
        as (items & item & r & Hv & Hitem & Hr & ->).
      cbn [rendered_from]. exists items, item. split; [ now right | ].
      split; [ exact Hitem | ]. exact (glAcordCoverageRow_badge _ _ Hr).
  - (* the legacy section *)
    unfold legacy_section in Hsec.
    destruct (part_In_inv _ _ _ _ Hsec Hb) as [_ Hparts].
    destruct (parts_In_inv _ _ _ Hparts Hb) as (a & Ha & Hba).
    cbn [In] in Ha. destruct Ha as [Ha | [Ha | []]].
    + destruct (part_In_inv _ _ _ _ Ha Hba) as [_ Hrows].
      destruct (rows_In_inv _ _ _ _ _ Hrows Hba) as ([field data] & r & Hx & Hr & ->).
      cbn [rendered_from]. exists field, data. split; [ now right | ].
      exact (proj2 (core_row_badge _ _ Hr)).
    + destruct (part_In_inv _ _ _ _ Ha Hba) as [_ Hg].
      apply (group_rendered results _ _ _
               (fun c i H => or_intror (or_intror H)) Hg Hba).
Qed.

(** *** The core-field verdicts of a rendered page *)

Lemma core_verdicts_app (a b : list block) :
  core_verdicts (a ++ b) = (core_verdicts a ++ core_verdicts b)%list.
Proof. apply flat_map_app. Qed.

Lemma core_verdicts_none (a : list block) :
  (forall b, In b a -> core_verdict b = []) -> core_verdicts a = [].
Proof.
  induction a as [ | b a IH ]; intros H; [ reflexivity | ].
  unfold core_verdicts. cbn [flat_map]. rewrite (H b (or_introl eq_refl)).
  apply IH. intros b' Hb'. apply H. now right.
Qed.

Lemma keys_length_zero (v : value) :
  nonempty (keys_length v) = false -> obj_entries v = [].
Proof.
  unfold nonempty, keys_length. destruct (obj_entries v); [ auto | discriminate ].
Qed.

(** A part that maps a row over the entries of an object shows the
    verdict of each entry, in order; when the object has no entry the
    part is not rendered, and there is no verdict to show. *)
Lemma core_part_verdicts {R : Type} (f : string * value -> option R)
  (wrap : R -> block) (v : value) (a : list block) :
  (forall e r, f e = Some r -> core_verdict (wrap r) = [entry_verdict e]) ->
  part (nonempty (keys_length v))
    (omap (map wrap) (traverse f (obj_entries v))) = Some a ->
  core_verdicts a = map entry_verdict (obj_entries v).
Proof.
  intros Hf H. destruct (nonempty (keys_length v)) eqn:E; cbn [part] in H.
  - destruct (traverse f (obj_entries v)) as [rows | ] eqn:Hrows;
      [ | discriminate ].
    injection H as <-. revert rows Hrows.
    induction (obj_entries v) as [ | e l IH ]; intros rows Hrows.
    + injection Hrows as <-. reflexivity.
    + simpl in Hrows. destruct (f e) as [r | ] eqn:Er; [ | discriminate ].
      destruct (traverse f l) as [rs | ]; [ | discriminate ].
      injection Hrows as <-. cbn [map]. unfold core_verdicts.
      cbn [flat_map]. rewrite (Hf _ _ Er). cbn [app]. f_equal.
      exact (IH rs eq_refl).
  - injection H as <-. rewrite (keys_length_zero _ E). reflexivity.
Qed.

Lemma core_row_verdict (e : string * value) (r : validation_row) :
  core_row e = Some r -> core_verdict (Core r) = [entry_verdict e].
Proof.
  intros H. destruct (core_row_badge _ _ H) as [Hl Hb].
  cbn [core_verdict]. rewrite Hl, Hb. reflexivity.
Qed.

Lemma acordPlCoreRow_verdict (e : string * value) (r : three_way_row) :
  acordPlCoreRow e = Some r -> core_verdict (ThreeWayCore r) = [entry_verdict e].
Proof.
  intros H. destruct (acordPlCoreRow_badge _ _ H) as [Hl Hb].
  cbn [core_verdict]. rewrite Hl, Hb. reflexivity.
Qed.

Lemma glAcordCoreRow_verdict (e : string * value) (r : three_way_row) :
  glAcordCoreRow e = Some r -> core_verdict (ThreeWayCore r) = [entry_verdict e].
Proof.
  intros H. destruct (glAcordCoreRow_badge _ _ H) as [Hl Hb].
  cbn [core_verdict]. rewrite Hl, Hb. reflexivity.
Qed.

Lemma array_part_no_verdict {R : Type} (f : value -> option R) (wrap : R -> block)
  (cond : bool) (v : value) (a : list block) :
  (forall r, core_verdict (wrap r) = []) ->
  part cond (map_array (fun i => omap wrap (f i)) v) = Some a ->
  core_verdicts a = [].
Proof.
  intros Hw H. apply core_verdicts_none. intros b Hb.
  destruct (part_In_inv _ _ _ _ H Hb) as [_ Hrows].
  destruct (map_array_In_inv f wrap _ _ _ Hrows Hb) as (_ & _ & r & _ & _ & _ & ->).
  apply Hw.
Qed.

Lemma groups_part_no_verdict (cond : bool) (l : list (string * value))
  (a : list block) :
  part cond (coverage_groups l) = Some a -> core_verdicts a = [].
Proof.
  intros H. apply core_verdicts_none. intros b Hb.
  destruct (part_In_inv _ _ _ _ H Hb) as [_ Hg].
  destruct (coverage_groups_In_inv _ _ _ Hg Hb) as (c & i & w & -> & _).
  reflexivity.
Qed.

Lemma interests_no_verdict (v : value) (a : list block) :
  additional_interests v = Some a -> core_verdicts a = [].
Proof.
  intros H. apply core_verdicts_none. intros b Hb.
  destruct (additional_interests_In_inv _ _ _ H Hb)
    as [-> | (_ & _ & w & _ & _ & _ & ->)]; reflexivity.
Qed.

Lemma pl_section_verdicts (results : value) (a : list block) :
  pl_section results = Some a ->
  core_verdicts a =
  if hasPl results && no_acord_pl_comparisons results
  then map entry_verdict (obj_entries (plCoreValidations results))
  else [].
Proof.
  unfold pl_section. intros H.
  destruct (hasPl results && no_acord_pl_comparisons results);
    cbn [part] in H; [ | injection H as <-; reflexivity ].
  first_part H a1 H1 Hr1. first_part Hr1 a2 H2 Hr2.
  first_part Hr2 a3 H3 Hr3. injection Hr3 as <-.
  rewrite !core_verdicts_app.
  rewrite (core_part_verdicts _ _ _ _ core_row_verdict H1).
  rewrite (groups_part_no_verdict _ _ _ H2), (interests_no_verdict _ _ H3).
  rewrite !app_nil_r. reflexivity.
Qed.

Lemma gl_section_verdicts (results : value) (a : list block) :
  gl_section results = Some a -> core_verdicts a = [].
Proof.
  unfold gl_section. intros H.
  destruct (hasGl results && no_gl_acord_comparisons results);
    cbn [part] in H; [ | injection H as <-; reflexivity ].
  first_part H a1 H1 Hr1. first_part Hr1 a2 H2 Hr2.
  first_part Hr2 a3 H3 Hr3. injection Hr3 as <-.
  rewrite !core_verdicts_app.
  rewrite (array_part_no_verdict address_row Address _ _ _ (fun _ => eq_refl) H1).
  rewrite (array_part_no_verdict presence_item Presence _ _ _ (fun _ => eq_refl) H2).
  rewrite (groups_part_no_verdict _ _ _ H3). reflexivity.
Qed.

Lemma acord_section_verdicts (results : value) (a : list block) :
  acord_section results = Some a ->
  core_verdicts a =
  if hasAcord results
  then map entry_verdict (obj_entries (acordPlCoreComparisons results))
  else [].
Proof.
  unfold acord_section. intros H.
  destruct (hasAcord results);
    cbn [part] in H; [ | injection H as <-; reflexivity ].
  first_part H a1 H1 Hr1. first_part Hr1 a2 H2 Hr2.
  first_part Hr2 a3 H3 Hr3. injection Hr3 as <-.
  rewrite !core_verdicts_app.
  rewrite (core_part_verdicts _ _ _ _ acordPlCoreRow_verdict H1).
  rewrite (array_part_no_verdict acordPlCoverageRow ThreeWayCoverage _ _ _
             (fun _ => eq_refl) H2).
  rewrite (interests_no_verdict _ _ H3). rewrite !app_nil_r. reflexivity.
Qed.

Lemma gl_acord_section_verdicts (results : value) (a : list block) :
  gl_acord_section results = Some a ->
  core_verdicts a =
  if hasGlAcord results
  then map entry_verdict (obj_entries (glAcordCoreComparisons results))
  else [].
Proof.
  unfold gl_acord_section. intros H.
  first_part H a1 H1 Hr1. first_part Hr1 a2 H2 Hr2. injection Hr2 as <-.
  rewrite !core_verdicts_app.
  rewrite (array_part_no_verdict glAcordCoverageRow ThreeWayCoverage _ _ _
             (fun _ => eq_refl) H2).
  rewrite !app_nil_r.
  destruct (hasGlAcord results); cbn [andb] in H1.
  - exact (core_part_verdicts _ _ _ _ glAcordCoreRow_verdict H1).
  - injection H1 as <-. reflexivity.
Qed.

Lemma legacy_section_verdicts (results : value) (a : list block) :
  legacy_section results = Some a ->
  core_verdicts a =
  if hasPlGlFormat results then []
  else map entry_verdict (obj_entries (coreValidations results)).
Proof.
  unfold legacy_section. intros H.
  destruct (hasPlGlFormat results);
    cbn [negb part] in H; [ injection H as <-; reflexivity | ].
  first_part H a1 H1 Hr1. first_part Hr1 a2 H2 Hr2. injection Hr2 as <-.
  rewrite !core_verdicts_app.
  rewrite (core_part_verdicts _ _ _ _ core_row_verdict H1).
  rewrite (groups_part_no_verdict _ _ _ H2). rewrite !app_nil_r. reflexivity.
Qed.

(** C1, as the page does it. A field compared across the policy, the PL
    certificate and the ACORD certificate has one three-way row in the
    ACORD view: the row sets the three values side by side (["N/A"] for
    an absent one) and carries one verdict, the [status] of the
    comparison entry, not a verdict per pair of sources. With such a
    comparison in the results the PL section renders nothing. The
    core-field verdicts of the whole page are, in page order, those of
    the two-way PL rows (without three-way data only), of the PL/ACORD
    rows, of the GL/GL ACORD rows and, for results with neither a
    [pl_certificate] nor a [gl_certificate] key only, of the legacy rows,
    which fall back to the two-way PL validations. *)
Theorem three_way_row_single_status :
  forall (results : value) (blocks : list block),
    validation_results results = Some blocks ->
    (forall field data,
        In (field, data) (obj_entries (acordPlCoreComparisons results)) ->
        no_acord_pl_comparisons results = false
        /\ pl_section results = Some []
        /\ (hasAcord results = true ->
            exists r,
              In (ThreeWayCore r) blocks
              /\ acordPlCoreRow (field, data) = Some r
              /\ core_verdict (ThreeWayCore r)
                 = [(VStr (field_label field), get "status" data)]
              /\ row_value r Policy
                 = nullish_or (get "policy_value" data) (VStr "N/A")
              /\ row_value r Certificate
                 = nullish_or (get "certificate_value" data) (VStr "N/A")
              /\ row_value r Acord
                 = nullish_or (get "acord_value" data) (VStr "N/A")))
    /\ core_verdicts blocks =
       ((if hasPl results && no_acord_pl_comparisons results
         then map entry_verdict (obj_entries (plCoreValidations results))
         else [])
        ++ (if hasAcord results
            then map entry_verdict
                   (obj_entries (acordPlCoreComparisons results))
            else [])
        ++ (if hasGlAcord results
            then map entry_verdict
                   (obj_entries (glAcordCoreComparisons results))
            else [])
        ++ (if hasPlGlFormat results then []
            else map entry_verdict (obj_entries (coreValidations results))))%list.
Proof.
  intros results blocks Hpage. split.
  - intros field data Hin.
    pose proof (nonempty_entries _ _ Hin) as Hne.
    assert (Hno : no_acord_pl_comparisons results = false).
    { unfold no_acord_pl_comparisons, keys_length.
      unfold nonempty in Hne. apply negb_true_iff in Hne. rewrite Hne.
      reflexivity. }
    split; [ exact Hno | ]. split.
    + unfold pl_section. rewrite Hno, andb_false_r. reflexivity.
    + intros Ha. unfold validation_results in Hpage.
      destruct (parts_all_some _ _ (acord_section results) Hpage
                  ltac:(cbn; tauto)) as [sec Hsec].
      unfold acord_section in Hsec. rewrite Ha in Hsec. cbn [part] in Hsec.
      match type of Hsec with
      | parts (?p :: _) = _ =>
          destruct (parts_all_some _ _ p Hsec ltac:(cbn; tauto)) as [rows Hrows]
      end.
      pose proof Hrows as Hrows'.
      apply (part_Some _ _ _ Hne) in Hrows'.
      destruct (rows_In _ _ _ _ Hrows' Hin) as [r [Hr Hin']].
      exists r. split.
      * apply (parts_In _ _ sec _ Hpage).
        -- unfold acord_section. rewrite Ha. cbn [part]. rewrite <- Hsec.
           cbn; tauto.
        -- apply (parts_In _ _ rows _ Hsec); [ rewrite <- Hrows; cbn; tauto | ].
           exact Hin'.
      * split; [ exact Hr | ].
        split; [ exact (acordPlCoreRow_verdict _ _ Hr) | ].
        unfold acordPlCoreRow in Hr.
        destruct (is_nullish data); [ discriminate | ].
        injection Hr as <-. repeat split.
  - unfold validation_results in Hpage.
    first_part Hpage a1 H1 Hr1. first_part Hr1 a2 H2 Hr2.
    first_part Hr2 a3 H3 Hr3. first_part Hr3 a4 H4 Hr4.
    first_part Hr4 a5 H5 Hr5. injection Hr5 as <-.
    rewrite !core_verdicts_app.
    rewrite (pl_section_verdicts _ _ H1), (gl_section_verdicts _ _ H2),
      (acord_section_verdicts _ _ H3), (gl_acord_section_verdicts _ _ H4),
      (legacy_section_verdicts _ _ H5).
    rewrite app_nil_r. reflexivity.
Qed.

Lemma three_way_row_single_status_witness :
  exists blocks,
    validation_results three_way_results = Some blocks
    /\ pl_section three_way_results = Some []
    /\ core_verdicts blocks = [(VStr "EFFECTIVE DATE", VStr "NOT_FOUND")]
    /\ exists r, In (ThreeWayCore r) blocks /\ row_value r Acord = VStr "N/A".
Proof.
  destruct (validation_results three_way_results) as [blocks | ] eqn:E;
    [ | vm_compute in E; discriminate E ].
  exists blocks. split; [ reflexivity | ].
  destruct (three_way_row_single_status three_way_results blocks E)
    as [Hrow Hall].
  destruct (Hrow "effective_date"
              (VObj [("status", VStr "NOT_FOUND");
                     ("policy_value", VStr "01/01/2025");
                     ("certificate_value", VStr "01/01/2025");
                     ("acord_value", VNull)])
              (or_introl eq_refl))
    as (_ & Hpl & Hr).
  destruct (Hr eq_refl) as (r & Hin & _ & _ & _ & _ & Hacord).
  split; [ exact Hpl | ]. split; [ exact Hall | ].
  exists r. split; [ exact Hin | exact Hacord ].
Defined.

(** The rows of "GL vs Policy vs GL ACORD" are built the same way: three
    values and the one [status] of the entry. *)
Lemma gl_three_way_row_single_status (field : string) (data : value) :
  is_nullish data = false ->
  exists r,
    glAcordCoreRow (field, data) = Some r
    /\ core_verdict (ThreeWayCore r)
       = [(VStr (field_label field), get "status" data)]
    /\ row_value r Policy = or (get "policy_value" data) (VStr "N/A")
    /\ row_value r Certificate = or (get "certificate_value" data) (VStr "N/A")
    /\ row_value r Acord = or (get "gl_acord_value" data) (VStr "N/A").
Proof.
  intros Hn. eexists.
  split; [ unfold glAcordCoreRow; rewrite Hn; reflexivity | ].
  repeat split.
Qed.

(** C1 as stated fails: with three sources the page shows one status for
    the field, here NOT_FOUND; the MATCH of the policy against the PL
    certificate is not in the output. *)
Lemma three_way_output_has_one_verdict :
  exists blocks,
    validation_results three_way_results = Some blocks
    /\ flat_map block_statuses blocks = [VStr "NOT_FOUND"]
    /\ ~ (In (VStr "MATCH") (flat_map block_statuses blocks)
          /\ In (VStr "NOT_FOUND") (flat_map block_statuses blocks)).
Proof.
  eexists. split; [ reflexivity | ]. split; [ reflexivity | ].
  cbn. intros [[H | []] _]. discriminate.
Qed.

(** The same results in the legacy format, without the [pl_certificate]
    key: the legacy section falls back to the two-way PL validations, and
    the two-way MATCH is shown after the three-way NOT_FOUND. *)
Example legacy_format_shows_the_two_way_verdict :
  hasPlGlFormat legacy_three_way_results = false
  /\ pl_section legacy_three_way_results = Some []
  /\ exists blocks,
       validation_results legacy_three_way_results = Some blocks
       /\ core_verdicts blocks
          = [(VStr "EFFECTIVE DATE", VStr "NOT_FOUND");
             (VStr "EFFECTIVE DATE", VStr "MATCH")].
Proof.
  split; [ reflexivity | ]. split; [ reflexivity | ].
  eexists. split; reflexivity.
Qed.

(** *** The statuses of a rendered page *)

Lemma statuses_app (a b : list block) :
  flat_map block_statuses (a ++ b)
  = (flat_map block_statuses a ++ flat_map block_statuses b)%list.
Proof. apply flat_map_app. Qed.

(** A part that maps a row over the entries of an object. *)
Lemma entries_part_statuses {R : Type} (f : string * value -> option R)
  (wrap : R -> block) (v : value) (a : list block) :
  (forall e r, f e = Some r ->
               block_statuses (wrap r) = [get "status" (snd e)]) ->
  part (nonempty (keys_length v))
    (omap (map wrap) (traverse f (obj_entries v))) = Some a ->
  flat_map block_statuses a = entry_statuses v.
Proof.
  intros Hf H. unfold entry_statuses.
  destruct (nonempty (keys_length v)) eqn:E; cbn [part] in H.
  - destruct (traverse f (obj_entries v)) as [rows | ] eqn:Hrows;
      [ | discriminate ].
    injection H as <-. revert rows Hrows.
    induction (obj_entries v) as [ | e l IH ]; intros rows Hrows.
    + injection Hrows as <-. reflexivity.
    + simpl in Hrows. destruct (f e) as [r | ] eqn:Er; [ | discriminate ].
      destruct (traverse f l) as [rs | ]; [ | discriminate ].
      injection Hrows as <-. cbn [map flat_map]. rewrite (Hf _ _ Er).
      cbn [app]. f_equal. exact (IH rs eq_refl).
  - injection H as <-. rewrite (keys_length_zero _ E). reflexivity.
Qed.

(** A part that maps a row over the items of an array. *)
Lemma items_statuses {R : Type} (f : value -> option R) (wrap : R -> block)
  (items : list value) (a : list block) :
  (forall i r, f i = Some r -> block_statuses (wrap r) = [get "status" i]) ->
  traverse (fun i => omap wrap (f i)) items = Some a ->
  flat_map block_statuses a = map (get "status") items.
Proof.
  intros Hf. revert a. induction items as [ | i items IH ]; intros a H.
  - injection H as <-. reflexivity.
  - simpl in H. destruct (f i) as [r | ] eqn:Er; [ | discriminate ].
    cbn [omap] in H.
    destruct (traverse _ items) as [rs | ]; [ | discriminate ].
    injection H as <-. cbn [map flat_map]. rewrite (Hf _ _ Er).
    cbn [app]. f_equal. exact (IH rs eq_refl).
Qed.

Lemma not_positive_no_items (v : value) :
  length_is_positive v = false -> item_statuses v = [].
Proof.
  destruct v as [ | | | | | [ | i items ] | ]; try reflexivity.
  discriminate.
Qed.

Lemma array_part_statuses {R : Type} (f : value -> option R)
  (wrap : R -> block) (v : value) (a : list block) :
  (forall i r, f i = Some r -> block_statuses (wrap r) = [get "status" i]) ->
  part (length_is_positive v) (map_array (fun i => omap wrap (f i)) v)
  = Some a ->
  flat_map block_statuses a = item_statuses v.
Proof.
  intros Hf H. destruct (length_is_positive v) eqn:E; cbn [part] in H.
  - destruct v as [ | | | | | items | ]; try discriminate H.
    exact (items_statuses f wrap items a Hf H).
  - injection H as <-. rewrite (not_positive_no_items _ E). reflexivity.
Qed.

Lemma CoverageItem_statuses (items : list value) (views : list coverage_view) :
  traverse CoverageItem items = Some views ->
  map (fun v => badge_text (cv_badge v)) views = map (get "status") items.
Proof.
  revert views. induction items as [ | i items IH ]; intros views H.
  - injection H as <-. reflexivity.
  - simpl in H. destruct (CoverageItem i) as [v | ] eqn:Ev; [ | discriminate ].
    destruct (traverse CoverageItem items) as [vs | ]; [ | discriminate ].
    injection H as <-. cbn [map].
    rewrite (CoverageItem_badge _ _ Ev), (IH vs eq_refl). reflexivity.
Qed.

Lemma coverage_groups_statuses (l : list (string * value)) (a : list block) :
  coverage_groups l = Some a ->
  flat_map block_statuses a = group_statuses l.
Proof.
  unfold coverage_groups. revert a.
  induction l as [ | [coverage items] rest IH ]; intros a H;
    cbn [traverse omap] in H.
  - injection H as <-. reflexivity.
  - match type of H with
    | omap _ (match ?g with _ => _ end) = _ => destruct g as [g1 | ] eqn:Eg
    end; [ | discriminate ].
    destruct (traverse _ rest) as [gs | ] eqn:Er; [ | discriminate ].
    cbn [omap] in H. injection H as <-. cbn [List.concat].
    rewrite statuses_app, (IH (List.concat gs) eq_refl).
    unfold group_statuses at 2. cbn [flat_map snd]. f_equal.
    cbv beta iota in Eg.
    destruct items as [ | | | | | [ | i l ] | ];
      try (injection Eg as <-; reflexivity).
    destruct (traverse CoverageItem (i :: l)) as [vs | ] eqn:Ev;
      [ | discriminate ].
    cbn [omap] in Eg. injection Eg as <-.
    cbn [flat_map block_statuses]. rewrite app_nil_r.
    exact (CoverageItem_statuses _ _ Ev).
Qed.

Lemma groups_part_statuses (l : list (string * value)) (a : list block) :
  part (nonempty (List.length l)) (coverage_groups l) = Some a ->
  flat_map block_statuses a = group_statuses l.
Proof.
  destruct l as [ | kv l ]; cbn [List.length nonempty Nat.eqb negb part].
  - intros [= <-]. reflexivity.
  - apply coverage_groups_statuses.
Qed.

Lemma interests_statuses (v : value) (a : list block) :
  additional_interests v = Some a ->
  flat_map block_statuses a = item_statuses v.
Proof.
  unfold additional_interests. intros H.
  destruct (length_is_positive v) eqn:E.
  - destruct v as [ | | | | | items | ]; try discriminate H.
    exact (items_statuses CoverageItem Interest items a
             (fun i r Hr => f_equal (fun b => [badge_text b])
                              (CoverageItem_badge i r Hr)) H).
  - rewrite (not_positive_no_items _ E).
    destruct (length_is_zero v); injection H as <-; reflexivity.
Qed.

Lemma core_row_status (e : string * value) (r : validation_row) :
  core_row e = Some r -> block_statuses (Core r) = [get "status" (snd e)].
Proof.
  intros H. cbn [block_statuses].
  rewrite (proj2 (core_row_badge _ _ H)). reflexivity.
Qed.

Lemma acordPlCoreRow_status (e : string * value) (r : three_way_row) :
  acordPlCoreRow e = Some r ->
  block_statuses (ThreeWayCore r) = [get "status" (snd e)].
Proof.
  intros H. cbn [block_statuses].
  rewrite (proj2 (acordPlCoreRow_badge _ _ H)). reflexivity.
Qed.

Lemma glAcordCoreRow_status (e : string * value) (r : three_way_row) :
  glAcordCoreRow e = Some r ->
  block_statuses (ThreeWayCore r) = [get "status" (snd e)].
Proof.
  intros H. cbn [block_statuses].
  rewrite (proj2 (glAcordCoreRow_badge _ _ H)). reflexivity.
Qed.

Lemma address_row_status (i : value) (r : validation_row) :
  address_row i = Some r -> block_statuses (Address r) = [get "status" i].
Proof.
  intros H. cbn [block_statuses]. rewrite (address_row_badge _ _ H).
  reflexivity.
Qed.

Lemma presence_item_status (i : value) (r : presence_row) :
  presence_item i = Some r -> block_statuses (Presence r) = [get "status" i].
Proof.
  intros H. cbn [block_statuses].
  rewrite (proj1 (presence_item_badge _ _ H)). reflexivity.
Qed.

Lemma acordPlCoverageRow_status (i : value) (r : three_way_row) :
  acordPlCoverageRow i = Some r ->
  block_statuses (ThreeWayCoverage r) = [get "status" i].
Proof.
  intros H. cbn [block_statuses]. rewrite (acordPlCoverageRow_badge _ _ H).
  reflexivity.
Qed.

Lemma glAcordCoverageRow_status (i : value) (r : three_way_row) :
  glAcordCoverageRow i = Some r ->
  block_statuses (ThreeWayCoverage r) = [get "status" i].
Proof.
  intros H. cbn [block_statuses]. rewrite (glAcordCoverageRow_badge _ _ H).
  reflexivity.
Qed.

(** The statuses a rendered page shows are those of the results, for
    the sections it renders, one pill per entry or item and in order. *)
Lemma page_statuses (results : value) (blocks : list block) :
  validation_results results = Some blocks ->
  flat_map block_statuses blocks = shown_statuses results.
Proof.
  unfold validation_results, shown_statuses. intros Hpage.
  first_part Hpage a1 H1 Hr1. first_part Hr1 a2 H2 Hr2.
  first_part Hr2 a3 H3 Hr3. first_part Hr3 a4 H4 Hr4.
  first_part Hr4 a5 H5 Hr5. injection Hr5 as <-.
  rewrite !statuses_app, app_nil_r.
  f_equal; [ | f_equal; [ | f_equal; [ | f_equal ] ] ].
  - unfold pl_section in H1.
    destruct (hasPl results && no_acord_pl_comparisons results);
      cbn [part] in H1; [ | injection H1 as <-; reflexivity ].
    first_part H1 b1 G1 Gr1. first_part Gr1 b2 G2 Gr2.
    first_part Gr2 b3 G3 Gr3. injection Gr3 as <-.
    rewrite !statuses_app, app_nil_r.
    rewrite (entries_part_statuses _ _ _ _ core_row_status G1),
      (groups_part_statuses _ _ G2), (interests_statuses _ _ G3).
    reflexivity.
  - unfold gl_section in H2.
    destruct (hasGl results && no_gl_acord_comparisons results);
      cbn [part] in H2; [ | injection H2 as <-; reflexivity ].
    first_part H2 b1 G1 Gr1. first_part Gr1 b2 G2 Gr2.
    first_part Gr2 b3 G3 Gr3. injection Gr3 as <-.
    rewrite !statuses_app, app_nil_r.
    rewrite (array_part_statuses address_row Address _ _ address_row_status G1),
      (array_part_statuses presence_item Presence _ _ presence_item_status G2),
      (groups_part_statuses _ _ G3).
    reflexivity.
  - unfold acord_section in H3.
    destruct (hasAcord results);
      cbn [part] in H3; [ | injection H3 as <-; reflexivity ].
    first_part H3 b1 G1 Gr1. first_part Gr1 b2 G2 Gr2.
    first_part Gr2 b3 G3 Gr3. injection Gr3 as <-.
    rewrite !statuses_app, app_nil_r.
    rewrite (entries_part_statuses _ _ _ _ acordPlCoreRow_status G1),
      (array_part_statuses acordPlCoverageRow ThreeWayCoverage _ _
         acordPlCoverageRow_status G2),
      (interests_statuses _ _ G3).
    reflexivity.
  - unfold gl_acord_section in H4.
    first_part H4 b1 G1 Gr1. first_part Gr1 b2 G2 Gr2. injection Gr2 as <-.
    rewrite !statuses_app, app_nil_r.
    destruct (hasGlAcord results); cbn [andb] in G1, G2.
    + rewrite (entries_part_statuses _ _ _ _ glAcordCoreRow_status G1),
        (array_part_statuses glAcordCoverageRow ThreeWayCoverage _ _
           glAcordCoverageRow_status G2).
      reflexivity.
    + cbn [part] in G1, G2. injection G1 as <-. injection G2 as <-.
      reflexivity.
  - unfold legacy_section in H5.
    destruct (hasPlGlFormat results);
      cbn [negb part] in H5; [ injection H5 as <-; reflexivity | ].
    first_part H5 b1 G1 Gr1. first_part Gr1 b2 G2 Gr2. injection Gr2 as <-.
    rewrite !statuses_app, app_nil_r.
    rewrite (entries_part_statuses _ _ _ _ core_row_status G1),
      (groups_part_statuses _ _ G2).
    reflexivity.
Qed.

(** C7, as the page does it. The statuses in the pills of the page are
    the statuses of the results, unchanged and unchecked, for every
    entry and item of the sections the page renders and for nothing
    else: verdicts are not kept to a closed set. Every block is rendered
    from an entry or an item of the results, with the pill of the
    [status] found there: MATCH is green, MISMATCH and NOT_FOUND are red
    and any other status is yellow; a coverage-presence pill is green
    for PRESENT and red for any other status. *)
Theorem status_pill_shows_any_status :
  forall (results : value) (blocks : list block),
    validation_results results = Some blocks ->
    flat_map block_statuses blocks = shown_statuses results
    /\ (forall b, In b blocks -> rendered_from results b)
    /\ (forall status : value,
           badge_text (status_badge status) = status
           /\ (badge_class (status_badge status) = green <->
                 status = VStr "MATCH")
           /\ (badge_class (status_badge status) = red <->
                 status = VStr "MISMATCH" \/ status = VStr "NOT_FOUND")
           /\ (badge_class (status_badge status) = yellow <->
                 ~ In status [VStr "MATCH"; VStr "MISMATCH"; VStr "NOT_FOUND"])).
Proof.
  intros results blocks Hpage.
  split; [ exact (page_statuses _ _ Hpage) | ]. split.
  - intros b Hb. exact (page_rendered_from _ _ _ Hpage Hb).
  - intros status.
    destruct (status_badge_spec status) as [Ht [Hg [Hr Hy]]].
    split; [ exact Ht | ]. split; [ exact Hg | ]. split; [ exact Hr | ].
    rewrite Hy. cbn [In]. split.
    + intros [H1 [H2 H3]] [H | [H | [H | []]]]; congruence.
    + intros H. repeat split; intros E; apply H; rewrite E; auto.
Qed.

Lemma status_pill_shows_any_status_witness :
  exists blocks r,
    validation_results
      (VObj [("gl_certificate", VObj [("policy_number", VStr "GL-7")]);
             ("gl_validations",
              VObj [("coverage_presence_validations",
                     VArr [VObj [("coverage_name", VStr "Liquor Liability");
                                 ("cert_policy_number", VStr "GL-7");
                                 ("status", VStr "PRESENT")]])])])
    = Some blocks
    /\ In (Presence r) blocks
    /\ badge_text (pr_badge r) = VStr "PRESENT"
    /\ badge_class (pr_badge r) = green.
Proof.
  match goal with
  | |- exists blocks r, validation_results ?res = _ /\ _ =>
      set (results := res);
      destruct (validation_results results) as [blocks | ] eqn:E;
        [ | vm_compute in E; discriminate E ]
  end.
  destruct (status_pill_shows_any_status results blocks E)
    as (_ & Hfrom & _).
  vm_compute in E. injection E as E. subst blocks.
  eexists. eexists. split; [ reflexivity | ]. split; [ now left | ].
  destruct (Hfrom _ (or_introl eq_refl))
    as (items & item & Hitems & Hitem & Htext & Hclass).
  vm_compute in Hitems. injection Hitems as <-.
  destruct Hitem as [<- | []].
  split; [ exact Htext | exact Hclass ].
Defined.

(** C7 as stated fails: the coverage-presence rows of a GL upload carry
    the status PRESENT, which is none of MATCH, MISMATCH, NOT_FOUND. *)
Lemma presence_status_outside_closed_set :
  exists blocks,
    validation_results
      (VObj [("gl_certificate", VObj [("policy_number", VStr "GL-7")]);
             ("gl_validations",
              VObj [("coverage_presence_validations",
                     VArr [VObj [("coverage_name", VStr "Liquor Liability");
                                 ("cert_policy_number", VStr "GL-7");
                                 ("status", VStr "PRESENT")]])])])
    = Some blocks
    /\ flat_map block_statuses blocks = [VStr "PRESENT"]
    /\ ~ Forall
           (fun status =>
              In status [VStr "MATCH"; VStr "MISMATCH"; VStr "NOT_FOUND"])
           (flat_map block_statuses blocks).
Proof.
  eexists. split; [ reflexivity | ]. split; [ reflexivity | ].
  cbn. intros H. inversion H as [ | x l [Hc | [Hc | [Hc | []]]] _ ];
    discriminate.
Qed.

(** Where the additional interests are rendered, each of them is
    rendered by [CoverageItem]. *)
Lemma additional_interests_In (interests : list value) (out : list block)
  (i : value) :
  additional_interests (VArr interests) = Some out -> In i interests ->
  exists v, CoverageItem i = Some v /\ In (Interest v) out.
Proof.
  intros H Hin. unfold additional_interests in H.
  destruct interests as [ | x rest ]; [ contradiction | ].
  cbn [length_is_positive js_length List.length map_array] in H.
  destruct (traverse_In _ _ _ i H Hin) as [b [Hb Hin']].
  destruct (CoverageItem i) as [v | ]; [ | discriminate ].
  injection Hb as <-. now exists v.
Qed.

(** C8, as the page does it. An item given to [CoverageItem] whose
    [match_type] is NAME_VARIATION is shown with the "OCR Variation" pill
    next to its status, which is the one received; an additional
    interest also gets the name-variation notice and keeps the name of
    the certificate as its title. The additional interests of the PL
    validations are rendered this way in the ACORD view and in the
    two-way PL view. *)
Theorem coverage_item_shows_name_variation :
  forall item : value,
    get "match_type" item = VStr "NAME_VARIATION" ->
    (exists v,
        CoverageItem item = Some v
        /\ cv_ocr_variation v = true
        /\ cv_badge v = status_badge (get "status" item)
        /\ (truthy (get "cert_interest_name" item) = true ->
            truthy (get "cert_limit_key" item) = false ->
            cv_name_variation_notice v = true
            /\ cv_name v = get "cert_interest_name" item))
    /\ (forall results interests blocks,
          plAdditionalInterests results = VArr interests ->
          In item interests ->
          hasAcord results = true
          \/ (hasPl results = true /\ no_acord_pl_comparisons results = true) ->
          validation_results results = Some blocks ->
          exists v, CoverageItem item = Some v /\ In (Interest v) blocks).
Proof.
  intros item Hm.
  assert (Hn : is_nullish item = false)
    by (apply (get_not_nullish "match_type" item _ Hm); reflexivity).
  split.
  - eexists. split; [ unfold CoverageItem; rewrite Hn; reflexivity | ].
    cbn [cv_ocr_variation cv_badge cv_name_variation_notice cv_name].
    rewrite Hm. split; [ reflexivity | ]. split; [ reflexivity | ].
    intros Hi Hl. rewrite Hi, Hl. split; reflexivity.
  - intros results interests blocks Hai Hin Hshown Hpage.
    unfold validation_results in Hpage.
    destruct Hshown as [Ha | [Hp H2]].
    + destruct (parts_all_some _ _ (acord_section results) Hpage
                  ltac:(cbn; tauto)) as [sec Hsec].
      pose proof Hsec as Hsec'. unfold acord_section in Hsec'.
      rewrite Ha, Hai in Hsec'. cbn [part] in Hsec'.
      destruct (parts_all_some _ _ (additional_interests (VArr interests))
                  Hsec' ltac:(cbn; tauto)) as [ai Hai'].
      destruct (additional_interests_In _ _ _ Hai' Hin) as [v [Hv Hin']].
      exists v. split; [ exact Hv | ].
      apply (parts_In _ _ sec _ Hpage); [ rewrite <- Hsec; cbn; tauto | ].
      apply (parts_In _ _ ai _ Hsec'); [ rewrite <- Hai'; cbn; tauto | exact Hin' ].
    + destruct (parts_all_some _ _ (pl_section results) Hpage
                  ltac:(cbn; tauto)) as [sec Hsec].
      pose proof Hsec as Hsec'. unfold pl_section in Hsec'.
      rewrite Hp, H2, Hai in Hsec'. cbn [part andb] in Hsec'.
      destruct (parts_all_some _ _ (additional_interests (VArr interests))
                  Hsec' ltac:(cbn; tauto)) as [ai Hai'].
      destruct (additional_interests_In _ _ _ Hai' Hin) as [v [Hv Hin']].
      exists v. split; [ exact Hv | ].
      apply (parts_In _ _ sec _ Hpage); [ rewrite <- Hsec; cbn; tauto | ].
      apply (parts_In _ _ ai _ Hsec'); [ rewrite <- Hai'; cbn; tauto | exact Hin' ].
Qed.

Lemma coverage_item_shows_name_variation_witness :
  exists v,
    CoverageItem name_variation_interest = Some v
    /\ cv_ocr_variation v = true
    /\ cv_name_variation_notice v = true
    /\ badge_text (cv_badge v) = VStr "MATCH".
Proof.
  destruct (coverage_item_shows_name_variation name_variation_interest eq_refl)
    as [[v [Hv [Ho [Hb Hai]]]] _].
  exists v. split; [ exact Hv | ]. split; [ exact Ho | ].
  split; [ exact (proj1 (Hai eq_refl eq_refl)) | ].
  rewrite Hb. reflexivity.
Defined.

(** C8 as stated fails: a core field whose entry carries the qualifier
    NAME_VARIATION is rendered by [ValidationRow], which is not given the
    [match_type]; the page shows what it shows for the entry without the
    qualifier. *)
Lemma core_row_drops_match_type :
  get "match_type"
    (get "insured_name"
       (plCoreValidations (name_variation_core_results true)))
  = VStr "NAME_VARIATION"
  /\ validation_results (name_variation_core_results true)
     = validation_results (name_variation_core_results false)
  /\ exists r,
       validation_results (name_variation_core_results true)
       = Some [Core r; NoInterests]
       /\ badge_text (vr_badge r) = VStr "MATCH".
Proof.
  split; [ reflexivity | ]. split; [ reflexivity | ].
  eexists. split; reflexivity.
Qed.

End ResultRows.

(** ** start.sh *)

Section Lanes.

Import StartSh.

(** The two [celery] command lines, parsed. *)
Lemma lanes_parsed :
  lanes =
  [ {| queues := Some ["qc"]; concurrency := Some 1;
       without_mingle := true; without_gossip := true |};
    {| queues := Some ["summary"]; concurrency := Some 1;
       without_mingle := true; without_gossip := true |} ].
Proof. vm_compute. reflexivity. Qed.

Lemma consumes_one_queue (w : worker) (q queue : string) :
  queues w = Some [q] -> consumes w queue = true -> queue = q.
Proof.
  unfold consumes. intros ->. cbn [existsb]. rewrite orb_false_r.
  apply String.eqb_eq.
Qed.

(** C6. [start.sh] starts exactly two workers: one on the queue [qc]
    only, one on the queue [summary] only, each with a pool of one. A
    unit is routed by its type to the queue of exactly one of them, and
    that worker consumes from no other queue. *)
Theorem two_lanes_one_queue_each :
  (exists qc summary,
      lanes = [qc; summary]
      /\ queues qc = Some ["qc"] /\ concurrency qc = Some 1
      /\ queues summary = Some ["summary"] /\ concurrency summary = Some 1)
  /\ (forall u : unit_type,
        exists w,
          In w lanes
          /\ consumes w (route u) = true
          /\ at_most_concurrent w 1 = true
          /\ (forall queue, consumes w queue = true -> queue = route u)
          /\ (forall w', In w' lanes -> consumes w' (route u) = true -> w' = w)).
Proof.
  rewrite lanes_parsed. split.
  - do 2 eexists. repeat split; reflexivity.
  - intros u. destruct u.
    + eexists. split; [ left; reflexivity | ].
      split; [ reflexivity | ]. split; [ reflexivity | ]. split.
      * intros queue. apply consumes_one_queue. reflexivity.
      * intros w' [<- | [<- | []]] H; [ reflexivity | discriminate H ].
    + eexists. split; [ right; left; reflexivity | ].
      split; [ reflexivity | ]. split; [ reflexivity | ]. split.
      * intros queue. apply consumes_one_queue. reflexivity.
      * intros w' [<- | [<- | []]] H; [ discriminate H | reflexivity ].
Qed.

Lemma two_lanes_one_queue_each_witness :
  exists w,
    In w lanes /\ consumes w "summary" = true /\ consumes w "qc" = false
    /\ at_most_concurrent w 1 = true.
Proof.
  destruct (proj2 two_lanes_one_queue_each SummaryUnit)
    as [w [Hin [Hc [Hn [Honly _]]]]].
  exists w. split; [ exact Hin | ]. split; [ exact Hc | ].
  split; [ | exact Hn ].
  destruct (consumes w "qc") eqn:E; [ | reflexivity ].
  specialize (Honly "qc" E). discriminate Honly.
Defined.

End Lanes.

(** ** ConfirmedPage *)

Section Finalize.

Import ConfirmedPage.

Lemma nth_error_last {A : Type} (l : list A) (x : A) :
  nth_error (l ++ [x])%list (List.length l) = Some x.
Proof. induction l; simpl; auto. Qed.

Lemma replace_at_last {A : Type} (l : list A) (x y : A) :
  replace_at (List.length l) y (l ++ [x])%list = (l ++ [y])%list.
Proof. induction l; simpl; auto. f_equal. exact IHl. Qed.

Lemma remove_at_last {A : Type} (l : list A) (x : A) :
  remove_at (List.length l) (l ++ [x])%list = l.
Proof. induction l; simpl; auto. f_equal. exact IHl. Qed.

Lemma truthy_get_not_nullish (k : string) (d : value) :
  truthy (get k d) = true -> is_nullish d = false.
Proof. destruct d; simpl; auto; discriminate. Qed.

(** C2. A finalize response whose body has [inProgress] set leaves the
    page as it is but for the status message: the interval keeps
    running, no error is set, processing is not stopped and nothing is
    marked complete; the next tick polls again. *)
Theorem inProgress_keeps_polling :
  forall (st : state) (i currentAttempt : nat) (ok : bool)
         (finalizeData : value),
    nth_error (running st) i = Some (AwaitFinalizeJson currentAttempt ok) ->
    truthy (get "inProgress" finalizeData) = true ->
    exists st',
      step (JsonSettles i (JsonOk finalizeData)) st = Some st'
      /\ pollInterval st' = pollInterval st
      /\ error st' = error st
      /\ isProcessing st' = isProcessing st
      /\ isComplete st' = isComplete st
      /\ isFinalizing st' = isFinalizing st
      /\ pollCount st' = pollCount st
      /\ requests st' = requests st
      /\ statusMessage st' = FinalizingInProgress
      /\ running st' = remove_at i (running st)
      /\ (pollInterval st = true ->
          step Tick st' = Some (checkStatusAndFinalize st')).
Proof.
  intros st i a ok d Hpc Hin.
  pose proof (truthy_get_not_nullish _ _ Hin) as Hn.
  eexists. split.
  - unfold step. rewrite Hpc. unfold after_finalize_json.
    rewrite Hn, Hin. reflexivity.
  - cbn. repeat split. intros ->. reflexivity.
Qed.

Lemma inProgress_keeps_polling_witness :
  let st := {| uploadId := "u-17"; pollInterval := true; pollCount := 70;
               isFinalizing := true; isProcessing := true;
               isComplete := false; error := VNull;
               statusMessage := PushingToSheets; sheetUrl := VNull;
               running := [AwaitFinalizeJson 70 true];
               requests := [GetFinalizeUpload "u-17" "Insurance Fields Data"] |} in
  exists st',
    step (JsonSettles 0 (JsonOk (VObj [("inProgress", VBool true)]))) st = Some st'
    /\ pollInterval st' = true /\ error st' = VNull /\ isProcessing st' = true.
Proof.
  intros st.
  destruct (inProgress_keeps_polling st 0 70 true
              (VObj [("inProgress", VBool true)]) eq_refl eq_refl)
    as [st' [Hs [Hp [He [Hpr _]]]]].
  exists st'. repeat split; assumption.
Defined.


Lemma run_cons (e : event) (rest : list event) (st : state) :
  run (e :: rest) st =
  match step e st with
  | Some st' => run rest st'
  | None => None
  end.
Proof. reflexivity. Qed.


(** The steps of the invocation that was started last. *)
Lemma step_status_resolves (st : state) (rest : list pc) (a status : nat) :
  running st = (rest ++ [AwaitStatus a])%list ->
  (status =? 404)%nat = false ->
  step (Resolves (List.length rest) status) st =
  Some (set_running (rest ++ [AwaitStatusJson a])%list st).
Proof.
  intros Hr H. cbn [step]. rewrite Hr, nth_error_last.
  unfold after_status. rewrite H, Hr, replace_at_last. reflexivity.
Qed.

Lemma step_status_ready (st : state) (rest : list pc) (a : nat)
  (statusData : value) :
  running st = (rest ++ [AwaitStatusJson a])%list ->
  truthy (get "ready" statusData) = true ->
  isFinalizing st = false ->
  step (JsonSettles (List.length rest) (JsonOk statusData)) st =
  Some (send (GetFinalizeUpload (uploadId st) "Insurance Fields Data")
          (AwaitFinalize a)
          (setStatusMessage PushingToSheets
             (set_isFinalizing true (set_running rest st)))).
Proof.
  intros Hr Hready Hf. cbn [step]. rewrite Hr, nth_error_last, remove_at_last.
  unfold after_status_json.
  rewrite (truthy_get_not_nullish _ _ Hready), Hready.
  cbn [negb set_running isFinalizing]. rewrite Hf. reflexivity.
Qed.

Lemma step_finalize_resolves (st : state) (rest : list pc) (a status : nat) :
  running st = (rest ++ [AwaitFinalize a])%list ->
  step (Resolves (List.length rest) status) st =
  Some (set_running
          (rest ++ [AwaitFinalizeJson a (response_ok status)])%list st).
Proof.
  intros Hr. cbn [step]. rewrite Hr, nth_error_last, replace_at_last.
  reflexivity.
Qed.

Lemma step_finalize_success (st : state) (rest : list pc) (a : nat)
  (ok : bool) (finalizeData : value) :
  running st = (rest ++ [AwaitFinalizeJson a ok])%list ->
  truthy (get "inProgress" finalizeData) = false ->
  ok = true ->
  truthy (get "success" finalizeData) = true ->
  step (JsonSettles (List.length rest) (JsonOk finalizeData)) st =
  Some (complete (or (get "sheetUrl" finalizeData) VNull)
          (set_running rest st)).
Proof.
  intros Hr Hp -> Hs. cbn [step]. rewrite Hr, nth_error_last, remove_at_last.
  unfold after_finalize_json.
  rewrite (truthy_get_not_nullish _ _ Hs), Hp, Hs. reflexivity.
Qed.


End Finalize.

(** ** QCNewResults: the polling effect *)

Section Polling.

Import QCNewResults.

Ltac conjs := repeat match goal with |- _ /\ _ => split end.

Ltac fields :=
  cbn [retry fail succeed set_running set_pending issue_fetch cancel
         seen_results retryCount timeoutId isCancelled loading error results
         statusMessage pending running nextTimer fetches delays] in *.

Lemma quiescent_well_formed (st : state) : quiescent st -> well_formed st.
Proof.
  intros [Hr Hp]. unfold well_formed. rewrite Hr, Hp. cbn.
  repeat split; auto. intros id [].
Qed.

Lemma clear_named (id : nat) (l : list nat) :
  (forall x, In x l -> x = id) -> clear id l = [].
Proof.
  induction l as [ | y rest IH ]; intros H; [ reflexivity | ].
  cbn [clear filter]. rewrite (H y (or_introl eq_refl)), Nat.eqb_refl.
  cbn [negb]. apply IH. intros x Hx. apply H. now right.
Qed.

Lemma mem_In (id : nat) (l : list nat) : mem id l = true -> In id l.
Proof.
  unfold mem. rewrite existsb_exists. intros [x [Hx E]].
  apply Nat.eqb_eq in E. now subst.
Qed.

(** With at most one thing under way, the invocation that is resumed is
    the only one, and no timer is set. *)
Lemma only_invocation (st : state) (i : nat) (p : pc) :
  well_formed st -> nth_error (running st) i = Some p ->
  running st = [p] /\ i = 0 /\ pending st = []
  /\ truthy (results st) = false.
Proof.
  intros [Hlen [_ [_ Hres]]] Hn.
  destruct (running st) as [ | q [ | q' rest ] ] eqn:Hr.
  - destruct i; discriminate.
  - destruct (pending st) as [ | t ts ] eqn:Hp; [ | cbn in Hlen; lia ].
    destruct i as [ | [ | i ] ]; try discriminate.
    injection Hn as ->. repeat split.
    destruct (truthy (results st)); [ | reflexivity ].
    destruct (Hres eq_refl) as [Hq _]. rewrite Hr in Hq. discriminate.
  - cbn in Hlen. lia.
Qed.

Lemma only_timer (st : state) (id : nat) :
  well_formed st -> mem id (pending st) = true ->
  running st = [] /\ clear id (pending st) = []
  /\ truthy (results st) = false /\ isCancelled st = false.
Proof.
  intros [Hlen [Hid [Hc Hres]]] Hm. apply mem_In in Hm.
  destruct (pending st) as [ | t ts ] eqn:Hp; [ contradiction | ].
  destruct (running st) as [ | q rest ] eqn:Hr; [ | cbn in Hlen; lia ].
  split; [ reflexivity | ]. split.
  - apply clear_named. intros x Hx.
    pose proof (Hid x Hx) as E1. pose proof (Hid id Hm) as E2. congruence.
  - split.
    + destruct (truthy (results st)); [ | reflexivity ].
      destruct (Hres eq_refl) as [_ Hq]. rewrite Hp in Hq. discriminate.
    + destruct (isCancelled st); [ | reflexivity ].
      specialize (Hc eq_refl). discriminate.
Qed.

Lemma catch_block_ending (msg : string) (st : state) :
  ending st (catch_block msg st).
Proof.
  unfold catch_block.
  destruct (retryCount st <? maxRetries)%nat eqn:Hlt;
    destruct (isCancelled st) eqn:Hc;
    destruct (truthy (seen_results st)) eqn:Hs; cbn [andb negb];
    try (apply Returns; unfold stopped; rewrite Hs; apply orb_true_r).
  - apply Fails; [ | congruence ].
    destruct (String.eqb msg "") eqn:E; [ discriminate | ].
    now apply String.eqb_neq.
  - apply Retries; [ exact Hc | now apply Nat.ltb_lt ].
  - apply Fails; [ | congruence ].
    destruct (String.eqb msg "") eqn:E; [ discriminate | ].
    now apply String.eqb_neq.
  - apply Fails; [ | intros _; now apply Nat.ltb_ge ].
    destruct (String.eqb msg "") eqn:E; [ discriminate | ].
    now apply String.eqb_neq.
Qed.

Lemma after_error_json_ending (r : response) (j : json_outcome) (st : state) :
  ending st (after_error_json r j st).
Proof.
  unfold after_error_json.
  destruct (((status r =? 404) || (status r =? 500))%nat
            && (retryCount st <? maxRetries)%nat && negb (isCancelled st)) eqn:E.
  - apply andb_prop in E. destruct E as [E Hc].
    apply andb_prop in E. destruct E as [_ Hlt].
    apply Retries; [ now apply negb_true_iff | now apply Nat.ltb_lt ].
  - apply catch_block_ending.
Qed.

Lemma after_json_ending (data : value) (st : state) :
  ending st (after_json data st).
Proof.
  unfold after_json.
  destruct (stopped st) eqn:Hst; [ apply Returns; exact Hst | ].
  destruct (is_nullish data); [ apply catch_block_ending | ].
  destruct (negb (truthy (get "success" data))
            || negb (truthy (get "merged" data))) eqn:E.
  - destruct (truthy (get "error" data)); [ | apply catch_block_ending ].
    destruct (includes_not_ready (get "error" data)) as [ [ | ] | ];
      try apply catch_block_ending.
    destruct ((retryCount st <? maxRetries)%nat && negb (isCancelled st)) eqn:G.
    + apply andb_prop in G. destruct G as [Hlt Hc].
      apply Retries; [ now apply negb_true_iff | now apply Nat.ltb_lt ].
    + apply Fails; [ discriminate | ].
      intros Hc. rewrite Hc in G. cbn [negb] in G. rewrite andb_true_r in G.
      now apply Nat.ltb_ge.
  - apply orb_false_iff in E. destruct E as [_ Hm].
    apply negb_false_iff in Hm.
    apply Succeeds; [ | exact Hst ].
    unfold or. rewrite Hm. exact Hm.
Qed.

Lemma ending_well_formed (st st' : state) :
  ending st st' -> quiescent st -> truthy (results st) = false ->
  well_formed st'.
Proof.
  intros H [Hr Hp] Hres. destruct H as [ Hs | msg Hc Hlt | msg Hm Hge | r Hr' Hs ].
  - apply quiescent_well_formed. now split.
  - unfold well_formed. fields. rewrite Hr, Hp. cbn [List.length Nat.add].
    split; [ lia | ]. split.
    + intros id [<- | []]. reflexivity.
    + split; [ congruence | ]. intros E. congruence.
  - apply quiescent_well_formed. now split.
  - apply quiescent_well_formed. now split.
Qed.

(** A cancelled effect ends its invocations without a request, a timer
    or a change of the results. *)
Lemma ending_cancelled (st st' : state) :
  ending st st' -> isCancelled st = true ->
  fetches st' = fetches st /\ delays st' = delays st
  /\ pending st' = pending st /\ running st' = running st
  /\ results st' = results st /\ isCancelled st' = true.
Proof.
  intros H Hc. destruct H as [ Hs | msg Hc' Hlt | msg Hm Hge | r Hr' Hs ];
    fields; try (repeat split; congruence).
  unfold stopped in Hs. rewrite Hc in Hs. discriminate.
Qed.

(** How a step ends the invocation it resumes, if it does. *)
Lemma step_resumes (e : event) (st st' : state) :
  well_formed st -> step e st = Some st' ->
  match e with
  | TimerFires id =>
      st' = fetchResults (set_pending [] st) /\ running st = []
      /\ truthy (results st) = false /\ isCancelled st = false
  | FetchResolves i r =>
      running st = [AwaitFetch] /\ pending st = []
      /\ truthy (results st) = false
      /\ (st' = set_running [] st /\ stopped st = true
          \/ exists p, st' = set_running [p] st /\ p <> AwaitFetch)
  | Cleanup =>
      st' = cancel (set_pending [] st)
  | _ =>
      exists p, running st = [p] /\ pending st = []
                /\ truthy (results st) = false
                /\ ending (set_running [] st) st'
  end.
Proof.
  intros Hwf Hstep. destruct e as [ id | i r | i msg | i j | ]; cbn [step] in Hstep.
  - destruct (mem id (pending st)) eqn:Hm; [ | discriminate ].
    destruct (only_timer st id Hwf Hm) as [Hr [Hcl [Hres Hc]]].
    rewrite Hcl in Hstep. injection Hstep as <-. repeat split; assumption.
  - destruct (nth_error (running st) i) as [ [ | r' | ] | ] eqn:Hn;
      try discriminate.
    destruct (only_invocation st i _ Hwf Hn) as [Hr [-> [Hp Hres]]].
    rewrite Hr in Hstep. cbn [remove_at replace_at] in Hstep.
    repeat (split; [ assumption | ]).
    destruct (stopped st) eqn:Hs.
    + injection Hstep as <-. left. now split.
    + right. destruct (negb (ok r)); injection Hstep as <-;
        eexists; (split; [ reflexivity | discriminate ]).
  - destruct (nth_error (running st) i) as [ [ | r' | ] | ] eqn:Hn;
      try discriminate.
    destruct (only_invocation st i _ Hwf Hn) as [Hr [-> [Hp Hres]]].
    rewrite Hr in Hstep. cbn [remove_at] in Hstep. injection Hstep as <-.
    exists AwaitFetch. repeat (split; [ assumption | ]).
    apply catch_block_ending.
  - destruct (nth_error (running st) i) as [ [ | r' | ] | ] eqn:Hn;
      try discriminate;
      destruct (only_invocation st i _ Hwf Hn) as [Hr [-> [Hp Hres]]];
      rewrite Hr in Hstep; cbn [remove_at] in Hstep.
    + injection Hstep as <-. eexists. repeat (split; [ eassumption | ]).
      apply after_error_json_ending.
    + eexists. repeat (split; [ eassumption | ]).
      destruct j as [ msg | data ]; injection Hstep as <-;
        [ apply catch_block_ending | apply after_json_ending ].
  - destruct Hwf as [_ [Hid [_ _]]].
    destruct (timeoutId st) as [ id | ] eqn:Ht.
    + rewrite (clear_named id (pending st)) in Hstep.
      * now injection Hstep as <-.
      * intros x Hx. specialize (Hid x Hx). congruence.
    + destruct (pending st) as [ | x rest ] eqn:Hp.
      * injection Hstep as <-. unfold cancel. fields. rewrite Hp.
        reflexivity.
      * specialize (Hid x (or_introl eq_refl)). discriminate.
Qed.

Lemma well_formed_step (e : event) (st st' : state) :
  well_formed st -> step e st = Some st' -> well_formed st'.
Proof.
  intros Hwf Hstep. pose proof (step_resumes e st st' Hwf Hstep) as H.
  destruct e as [ id | i r | i msg | i j | ].
  - destruct H as [-> [Hr [Hres Hc]]]. unfold fetchResults.
    destruct (stopped (set_pending [] st)).
    + apply quiescent_well_formed. split; [ exact Hr | reflexivity ].
    + unfold well_formed. fields. rewrite Hr. cbn.
      repeat split; try lia; try congruence; try (intros ? []).
  - destruct H as [Hr [Hp [Hres [[-> _] | [p [-> _]]]]]].
    + apply quiescent_well_formed. now split.
    + unfold well_formed. fields. rewrite Hp. cbn.
      repeat split; try lia; try congruence; try (intros ? []).
  - destruct H as [p [Hr [Hp [Hres Hend]]]].
    apply (ending_well_formed _ _ Hend); [ now split | exact Hres ].
  - destruct H as [p [Hr [Hp [Hres Hend]]]].
    apply (ending_well_formed _ _ Hend); [ now split | exact Hres ].
  - subst st'. destruct Hwf as [Hlen [_ [_ Hres]]].
    unfold well_formed. fields. cbn [List.length].
    repeat split; try lia; try reflexivity.
    + intros id [].
    + exact (proj1 (Hres H)).
Qed.

Lemma well_formed_effect uploadId apiUrl results0 loading0 error0 :
  well_formed (effect uploadId apiUrl results0 loading0 error0).
Proof.
  unfold effect, fetchResults.
  destruct (truthy results0) eqn:Hres.
  { apply quiescent_well_formed. now split. }
  destruct uploadId as [ id | ];
    [ destruct (String.eqb id "");
      [ | destruct (String.eqb apiUrl "");
          [ | destruct (stopped (fresh results0 loading0 error0)) ] ] | ];
    try (apply quiescent_well_formed; now split).
  unfold well_formed. fields. cbn.
  repeat split; try lia; try congruence; try (intros ? []).
Qed.

Lemma well_formed_run (events : list event) (st st' : state) :
  well_formed st -> run events st = Some st' -> well_formed st'.
Proof.
  revert st. induction events as [ | e rest IH ]; intros st Hwf Hrun.
  - now injection Hrun as <-.
  - cbn [run] in Hrun. destruct (step e st) as [ st1 | ] eqn:Hs;
      [ | discriminate ].
    exact (IH st1 (well_formed_step e st st1 Hwf Hs) Hrun).
Qed.

(** Once finished, a step sends no request and sets no timer. *)
Lemma finished_step (e : event) (st st' : state) :
  well_formed st -> finished st -> step e st = Some st' ->
  fetches st' = fetches st /\ delays st' = delays st /\ pending st' = []
  /\ finished st'.
Proof.
  intros Hwf Hfin Hstep.
  pose proof (step_resumes e st st' Hwf Hstep) as H.
  assert (Hidle : pending st = []).
  { destruct Hwf as [_ [_ [Hc Hres]]].
    destruct Hfin as [Hf | Hf]; [ exact (proj2 (Hres Hf)) | exact (Hc Hf) ]. }
  assert (Hcanc : forall p, running st = [p] -> isCancelled st = true).
  { intros p Hr. destruct Hfin as [Hf | Hf]; [ | exact Hf ].
    destruct Hwf as [_ [_ [_ Hres]]]. destruct (Hres Hf) as [Hq _].
    rewrite Hr in Hq. discriminate. }
  destruct e as [ id | i r | i msg | i j | ].
  - destruct H as [_ [_ [Hres Hc]]]. destruct Hfin; congruence.
  - destruct H as [Hr [_ [_ [[-> _] | [p [-> _]]]]]]; fields;
      repeat split; auto.
  - destruct H as [p [Hr [_ [_ Hend]]]].
    destruct (ending_cancelled _ _ Hend (Hcanc p Hr))
      as [Hf [Hd [Hp [_ [_ Hc]]]]]. fields.
    repeat split; try congruence. now right.
  - destruct H as [p [Hr [_ [_ Hend]]]].
    destruct (ending_cancelled _ _ Hend (Hcanc p Hr))
      as [Hf [Hd [Hp [_ [_ Hc]]]]]. fields.
    repeat split; try congruence. now right.
  - subst st'. fields. repeat split. now right.
Qed.

Lemma finished_run (events : list event) (st st' : state) :
  well_formed st -> finished st -> run events st = Some st' ->
  fetches st' = fetches st /\ delays st' = delays st /\ pending st' = [].
Proof.
  revert st. induction events as [ | e rest IH ]; intros st Hwf Hfin Hrun.
  - injection Hrun as <-. repeat split.
    destruct Hwf as [_ [_ [Hc Hres]]].
    destruct Hfin as [Hf | Hf]; [ exact (proj2 (Hres Hf)) | exact (Hc Hf) ].
  - cbn [run] in Hrun. destruct (step e st) as [ st1 | ] eqn:Hs;
      [ | discriminate ].
    destruct (finished_step e st st1 Hwf Hfin Hs) as [Hf [Hd [Hp Hfin1]]].
    pose proof (well_formed_step e st st1 Hwf Hs) as Hwf1.
    destruct (IH st1 Hwf1 Hfin1 Hrun) as [Hf' [Hd' Hp']].
    repeat split; congruence.
Qed.

(** C10. In every run of the effect, whatever the environment does and
    in whatever order: an effect started with results loaded sends no
    request and sets no timer; the cleanup cancels and leaves no timer
    pending; and from a state with results loaded or the effect
    cancelled on, no request is sent and no timer is set, ever. *)
Theorem polling_stops_for_good :
  forall (uploadId : option string) (apiUrl : string) (results0 : value)
         (loading0 : bool) (error0 : string) (events : list event)
         (st : state),
    run events (effect uploadId apiUrl results0 loading0 error0) = Some st ->
    (truthy results0 = true -> fetches st = 0 /\ delays st = [])
    /\ (forall st', step Cleanup st = Some st' ->
                    isCancelled st' = true /\ pending st' = [])
    /\ (finished st ->
        forall more st',
          run more st = Some st' ->
          fetches st' = fetches st /\ delays st' = delays st
          /\ pending st' = []).
Proof.
  intros uploadId apiUrl results0 loading0 error0 events st Hrun.
  pose proof (well_formed_effect uploadId apiUrl results0 loading0 error0)
    as Hwf0.
  pose proof (well_formed_run _ _ _ Hwf0 Hrun) as Hwf.
  split; [ | split ].
  - intros Hres.
    assert (E : effect uploadId apiUrl results0 loading0 error0
                = fresh results0 loading0 error0)
      by (unfold effect; rewrite Hres; reflexivity).
    rewrite E in Hrun, Hwf0.
    destruct (finished_run events _ st Hwf0 (or_introl Hres) Hrun)
      as [Hf [Hd _]].
    split; [ exact Hf | exact Hd ].
  - intros st' Hs.
    pose proof (step_resumes Cleanup st st' Hwf Hs) as ->.
    split; reflexivity.
  - intros Hfin more st' Hmore. exact (finished_run more st st' Hwf Hfin Hmore).
Qed.

Lemma polling_stops_for_good_witness :
  exists st st',
    run [FetchResolves 0 {| status := 200; statusText := "OK" |};
         JsonSettles 0 (JsonOk merged_reply)]
      (mounted "u-17" "http://localhost:8000") = Some st
    /\ truthy (results st) = true
    /\ run [Cleanup] st = Some st'
    /\ fetches st' = 1 /\ delays st' = [] /\ pending st' = [].
Proof.
  eexists. eexists.
  split; [ vm_compute; reflexivity | ].
  split; [ reflexivity | ].
  split; [ vm_compute; reflexivity | ].
  exact (proj2 (proj2
           (polling_stops_for_good (Some "u-17") "http://localhost:8000"
              VNull true ""
              [FetchResolves 0 {| status := 200; statusText := "OK" |};
               JsonSettles 0 (JsonOk merged_reply)]
              _ eq_refl))
           (or_introl eq_refl) [Cleanup] _ eq_refl).
Defined.

(** *** The undisturbed loop *)

Lemma in_attempt_not_stopped (st : state) :
  in_attempt st -> stopped st = false.
Proof.
  intros [[Hc [Hs _]] _]. unfold stopped. rewrite Hc, Hs. reflexivity.
Qed.

(** However an invocation of the undisturbed loop ends, the loop stays
    on track and has less left to do. *)
Lemma ending_on_track (st st' : state) :
  ending st st' -> in_attempt st -> running st = [] ->
  on_track st' /\ work_left st' <= 2 * (maxRetries - retryCount st) + 1.
Proof.
  intros H Hin Hr.
  pose proof (in_attempt_not_stopped st Hin) as Hns.
  destruct Hin as [[Hc [Hs [Hle [Hlen [Hall [Hres Herr]]]]]] [Hp Hf]].
  destruct H as [ Hst | msg _ Hlt | msg Hm Hge | r Hr' _ ].
  - congruence.
  - split.
    + right; left. unfold counting. fields.
      conjs; auto; try lia.
      * cbn [List.length]. lia.
      * rewrite Hp. eexists. reflexivity.
    + unfold work_left. fields. rewrite Hr. lia.
  - split.
    + right; right. unfold quiescent. fields.
      conjs; auto; try lia.
      right. conjs; auto. specialize (Hge Hc). lia.
    + unfold work_left. fields. rewrite Hr, Hp. lia.
  - split.
    + right; right. unfold quiescent. fields.
      conjs; auto; try lia.
    + unfold work_left. fields. rewrite Hr, Hp. lia.
Qed.

Lemma in_attempt_set_running (l : list pc) (st : state) :
  in_attempt st -> in_attempt (set_running l st).
Proof. intros H. exact H. Qed.

(** The server answers the request in flight. *)
Lemma answer_on_track (x : exchange) (st : state) :
  in_attempt st -> running st = [AwaitFetch] ->
  exists st',
    answer x st = Some st' /\ on_track st' /\ work_left st' < work_left st.
Proof.
  intros Hin Hr.
  pose proof (in_attempt_not_stopped st Hin) as Hns.
  assert (Hw : work_left st = 2 * (maxRetries - retryCount st) + 2)
    by (unfold work_left; rewrite Hr; reflexivity).
  assert (Hend : forall st',
             ending (set_running [] st) st' ->
             on_track st' /\ work_left st' < work_left st).
  { intros st' He.
    destruct (ending_on_track _ _ He (in_attempt_set_running [] st Hin) eq_refl)
      as [Ht Hl].
    split; [ exact Ht | ]. fields. lia. }
  destruct x as [ msg | r body ]; cbn [answer step].
  - rewrite Hr. cbn [nth_error remove_at].
    eexists. split; [ reflexivity | ]. apply Hend, catch_block_ending.
  - rewrite Hr, Hns. cbn [nth_error replace_at].
    destruct (negb (ok r)); cbn [step running set_running nth_error remove_at].
    + eexists. split; [ reflexivity | ].
      apply Hend, after_error_json_ending.
    + destruct body as [ msg | data ]; (eexists; split; [ reflexivity | ]);
        apply Hend; [ apply catch_block_ending | apply after_json_ending ].
Qed.

(** The timer of a retry fires. *)
Lemma timer_on_track (st : state) (id : nat) :
  counting st -> running st = [] -> pending st = [id] ->
  fetches st = retryCount st ->
  exists st',
    step (TimerFires id) st = Some st'
    /\ on_track st' /\ work_left st' < work_left st.
Proof.
  intros Hcount Hr Hp Hf.
  pose proof Hcount as [Hc [Hs _]].
  cbn [step]. rewrite Hp. unfold mem, clear.
  cbn [existsb filter]. rewrite Nat.eqb_refl. cbn [orb negb].
  unfold fetchResults, stopped. fields. rewrite Hc, Hs. cbn [orb].
  eexists. split; [ reflexivity | ]. split.
  - left. unfold in_attempt, counting. fields. rewrite Hr.
    repeat split; try apply Hcount. lia.
  - unfold work_left. fields. rewrite Hr, Hp. cbn [app]. lia.
Qed.

Lemma poll_on_track (server : nat -> exchange) (fuel : nat) :
  forall st,
    on_track st -> work_left st <= fuel ->
    on_track (poll fuel server st) /\ quiescent (poll fuel server st).
Proof.
  induction fuel as [ | fuel IH ]; intros st Ht Hw.
  - cbn [poll]. split; [ exact Ht | ].
    destruct Ht as [[_ Hr] | [[_ [Hr [[id Hp] _]]] | [Hq _]]];
      [ | | exact Hq ]; unfold work_left in Hw; rewrite Hr in Hw;
      try rewrite Hp in Hw; lia.
  - destruct Ht as [[Hin Hr] | [[Hc [Hr [[id Hp] Hf]]] | Hq]].
    + destruct (answer_on_track (server (fetches st - 1)) st Hin Hr)
        as [st' [Ha [Ht' Hl]]].
      cbn [poll]. rewrite Hr, Ha. apply IH; [ exact Ht' | lia ].
    + destruct (timer_on_track st id Hc Hr Hp Hf) as [st' [Hs [Ht' Hl]]].
      cbn [poll]. rewrite Hr, Hp, Hs. apply IH; [ exact Ht' | lia ].
    + pose proof Hq as [[Hr Hp] _]. cbn [poll]. rewrite Hr, Hp.
      split; [ right; right; exact Hq | now split ].
Qed.

Lemma mounted_on_track (uploadId apiUrl : string) :
  uploadId <> "" -> apiUrl <> "" ->
  on_track (mounted uploadId apiUrl)
  /\ work_left (mounted uploadId apiUrl) = 2 * maxRetries + 2.
Proof.
  intros Hu Ha. apply String.eqb_neq in Hu, Ha.
  unfold mounted, effect. cbn [truthy]. rewrite Hu, Ha.
  split; [ left | reflexivity ].
  unfold in_attempt, counting. cbn. repeat split; auto. lia.
Qed.

(** C5, as the page does it. Left alone with any server, the loop sends
    at most 601 requests (the first attempt and at most 600 retries),
    each retry after a timer of 3000 ms, and comes to rest: with the
    results, or with a terminal error and loading switched off, which it
    reaches only after all 601 requests. *)
Theorem polling_is_bounded :
  forall (uploadId apiUrl : string) (server : nat -> exchange) (fuel : nat),
    uploadId <> "" -> apiUrl <> "" -> 1202 <= fuel ->
    let st := poll fuel server (mounted uploadId apiUrl) in
    quiescent st
    /\ fetches st <= 601
    /\ List.length (delays st) <= 600
    /\ Forall (fun d => d = 3000) (delays st)
    /\ loading st = false
    /\ (truthy (results st) = true /\ error st = ""
        \/ truthy (results st) = false /\ error st <> ""
           /\ fetches st = 601).
Proof.
  intros uploadId apiUrl server fuel Hu Ha Hfuel st.
  destruct (mounted_on_track uploadId apiUrl Hu Ha) as [Ht Hw].
  assert (Hle : work_left (mounted uploadId apiUrl) <= fuel)
    by (rewrite Hw; unfold maxRetries; lia).
  destruct (poll_on_track server fuel _ Ht Hle) as [Ht' Hq]. fold st in Ht', Hq.
  split; [ exact Hq | ].
  destruct Hq as [Hr Hp].
  destruct Ht' as [[_ Hr'] | [[_ [_ [[id Hp'] _]]] | [_ H]]];
    [ congruence | congruence | ].
  destruct H as [Hrc [Hlen [Hall [Hf [Hl Hres]]]]].
  unfold maxRetries, retryDelay in *.
  repeat split; try assumption; try lia.
Qed.

Lemma polling_is_bounded_witness :
  let st := poll 1202 (fun _ => NetworkError "Failed to fetch")
              (mounted "u-17" "http://localhost:8000") in
  quiescent st /\ fetches st <= 601 /\ loading st = false.
Proof.
  intros st.
  destruct (polling_is_bounded "u-17" "http://localhost:8000"
              (fun _ => NetworkError "Failed to fetch") 1202
              ltac:(discriminate) ltac:(discriminate) (le_n 1202))
    as [Hq [Hf [_ [_ [Hl _]]]]].
  repeat split; assumption.
Defined.

(** C5 as stated fails: against a server that keeps answering "not
    ready" the loop makes 601 attempts, not 600, before it gives up. *)
Lemma polling_makes_601_attempts :
  let st := poll 1202
              (fun _ => Reply {| status := 200; statusText := "OK" |}
                          (JsonOk not_ready_reply))
              (mounted "u-17" "http://localhost:8000") in
  fetches st = 601 /\ ~ fetches st <= 600 /\ List.length (delays st) = 600
  /\ running st = [] /\ pending st = [] /\ loading st = false
  /\ error st =
     "Results are taking longer than expected (30+ minutes). The QC task may have failed. Please check Railway logs or try uploading again.".
Proof.
  cbv zeta.
  assert (E : fetches
                (poll 1202
                   (fun _ => Reply {| status := 200; statusText := "OK" |}
                               (JsonOk not_ready_reply))
                   (mounted "u-17" "http://localhost:8000")) = 601)
    by (vm_compute; reflexivity).
  split; [ exact E | ]. split; [ rewrite E; lia | ].
  repeat split; vm_compute; reflexivity.
Qed.

End Polling.

(* ------------------------------------------------------------------ *)
(** ** The confirmation page: what a run sends, and when it stops *)

Section ConfirmedRuns.

Import ConfirmedPage ConfirmedPolling.

Ltac conjs := repeat match goal with |- _ /\ _ => split end.

Ltac page_fields :=
  cbn [set_running setStatusMessage set_isFinalizing stopPolling
       stop_with_error complete send incr_pollCount
       uploadId pollInterval pollCount isFinalizing isProcessing isComplete
       error statusMessage sheetUrl running requests] in *.

Lemma filter_remove_at {A : Type} (f : A -> bool) (l : list A) :
  forall (i : nat) (p : A),
    nth_error l i = Some p ->
    List.length (filter f l)
    = List.length (filter f (remove_at i l)) + (if f p then 1 else 0).
Proof.
  induction l as [|x l IH]; intros [|i] p H; simpl in H; try discriminate.
  - injection H as ->. simpl. destruct (f p); simpl; lia.
  - simpl. specialize (IH i p H). destruct (f x); simpl; lia.
Qed.

Lemma filter_replace_at {A : Type} (f : A -> bool) (l : list A) :
  forall (i : nat) (p q : A),
    nth_error l i = Some p ->
    List.length (filter f (replace_at i q l))
    = List.length (filter f (remove_at i l)) + (if f q then 1 else 0).
Proof.
  induction l as [|x l IH]; intros [|i] p q H; simpl in H; try discriminate.
  - simpl. destruct (f q); simpl; lia.
  - simpl. specialize (IH i p q H). destruct (f x); simpl; lia.
Qed.

Lemma catch_block_frame (msg : string) (st : state) :
  uploadId (catch_block msg st) = uploadId st
  /\ pollCount (catch_block msg st) = pollCount st
  /\ running (catch_block msg st) = running st
  /\ requests (catch_block msg st) = requests st
  /\ isComplete (catch_block msg st) = isComplete st
  /\ (pollInterval st = false -> pollInterval (catch_block msg st) = false).
Proof.
  unfold catch_block. page_fields.
  destruct (pollCount st <? 50)%nat; page_fields; auto 10.
Qed.

Lemma after_finalize_json_frame (a : nat) (ok : bool) (j : json_outcome)
  (st : state) :
  uploadId (after_finalize_json a ok j st) = uploadId st
  /\ pollCount (after_finalize_json a ok j st) = pollCount st
  /\ running (after_finalize_json a ok j st) = running st
  /\ requests (after_finalize_json a ok j st) = requests st
  /\ (pollInterval st = false ->
      pollInterval (after_finalize_json a ok j st) = false).
Proof.
  unfold after_finalize_json. destruct j as [msg|d].
  - page_fields. destruct (a <? 50)%nat; page_fields; auto 10.
  - destruct (is_nullish d).
    + destruct (catch_block_frame "Cannot read properties of null" st)
        as (? & ? & ? & ? & ? & ?). auto 10.
    + destruct (truthy (get "inProgress" d)); page_fields; auto 10.
      destruct (ok && truthy (get "success" d)); page_fields; auto 10.
      destruct (a <? 60)%nat; page_fields; auto 10.
Qed.

Lemma after_status_json_frame (a : nat) (j : json_outcome) (st : state) :
  uploadId (after_status_json a j st) = uploadId st
  /\ pollCount (after_status_json a j st) = pollCount st
  /\ (pollInterval st = false ->
      pollInterval (after_status_json a j st) = false)
  /\ (running (after_status_json a j st) = running st
      /\ requests (after_status_json a j st) = requests st
      \/ running (after_status_json a j st)
         = (running st ++ [AwaitFinalize a])%list
         /\ requests (after_status_json a j st)
            = GetFinalizeUpload (uploadId st) "Insurance Fields Data"
              :: requests st).
Proof.
  unfold after_status_json. destruct j as [msg|d].
  - destruct (a <? 30)%nat; page_fields; auto 10.
  - destruct (is_nullish d).
    + destruct (catch_block_frame "Cannot read properties of null" st)
        as (? & ? & ? & ? & ? & ?). auto 10.
    + destruct (truthy (get "ready" d)); cbn [negb].
      * destruct (isFinalizing st); page_fields; auto 10.
      * destruct (maxPolls <=? a)%nat; page_fields; auto 10.
Qed.

Lemma after_status_frame (i a status : nat) (st : state) :
  uploadId (after_status i a status st) = uploadId st
  /\ pollCount (after_status i a status st) = pollCount st
  /\ requests (after_status i a status st) = requests st
  /\ (pollInterval st = false ->
      pollInterval (after_status i a status st) = false)
  /\ (running (after_status i a status st) = remove_at i (running st)
      \/ running (after_status i a status st)
         = replace_at i (AwaitStatusJson a) (running st)).
Proof.
  unfold after_status. destruct (status =? 404)%nat.
  - destruct (maxPolls <=? a)%nat; page_fields; auto 10.
  - page_fields. auto 10.
Qed.

(** Every event but the tick of the interval leaves the poll counter and
    the status requests alone, and never restarts the interval. *)
Lemma step_leaves_status_requests (e : event) (st st' : state) :
  step e st = Some st' -> e <> Tick ->
  uploadId st' = uploadId st
  /\ pollCount st' = pollCount st
  /\ status_requests st' = status_requests st
  /\ (pollInterval st = false -> pollInterval st' = false).
Proof.
  unfold status_requests.
  destruct e as [|i status|i msg|i j|]; cbn [step]; intros H Hne;
    try congruence.
  - destruct (nth_error (running st) i) as [[a|a|a|a ok]|];
      try discriminate; injection H as <-.
    + destruct (after_status_frame i a status st) as (-> & -> & -> & ? & _).
      auto.
    + page_fields. auto.
  - assert (E : st' = catch_block msg (set_running (remove_at i (running st)) st)).
    { destruct (nth_error (running st) i) as [[a|a|a|a ok]|];
        try discriminate; injection H as <-; reflexivity. }
    subst st'.
    destruct (catch_block_frame msg (set_running (remove_at i (running st)) st))
      as (-> & -> & _ & -> & _ & ?). page_fields. auto.
  - destruct (nth_error (running st) i) as [[a|a|a|a ok]|];
      try discriminate; injection H as <-.
    + destruct (after_status_json_frame a j
                  (set_running (remove_at i (running st)) st))
        as (-> & -> & ? & [[_ ->]|[_ ->]]); page_fields; auto.
    + destruct (after_finalize_json_frame a ok j
                  (set_running (remove_at i (running st)) st))
        as (-> & -> & _ & -> & ?); page_fields; auto.
  - injection H as <-. page_fields. auto.
Qed.

(** X1. Once the interval has been cleared (by [stopPolling] or by the
    cleanup of the effect), no event sequence sends another status
    request: the interval stays cleared, it does not fire, and the poll
    counter and the number of status requests stay as they are. *)
Theorem no_status_request_once_stopped :
  forall (events : list event) (st st' : state),
    pollInterval st = false ->
    run events st = Some st' ->
    ~ In Tick events
    /\ pollInterval st' = false
    /\ pollCount st' = pollCount st
    /\ status_requests st' = status_requests st.
Proof.
  induction events as [|e events IH]; intros st st' Hp H; cbn [run] in H.
  - injection H as <-. simpl. tauto.
  - destruct (step e st) as [st1|] eqn:E; try discriminate.
    assert (Hne : e <> Tick).
    { intros He. rewrite He in E. cbn [step] in E. rewrite Hp in E.
      discriminate. }
    destruct (step_leaves_status_requests e st st1 E Hne)
      as (_ & Hc & Hs & Hi).
    destruct (IH st1 st' (Hi Hp) H) as (Hn & ? & ? & ?).
    conjs; try congruence.
    intros [He|Hin]; [exact (Hne He) | exact (Hn Hin)].
Qed.

Lemma no_status_request_once_stopped_witness :
  exists st',
    run [Resolves 0 200;
         JsonSettles 0 (JsonOk (VObj [("ready", VBool true)]))]
      (stopPolling (effect "u-17" false))
    = Some st'
    /\ pollInterval st' = false
    /\ status_requests st' = 1
    /\ finalize_requests st' = 1.
Proof.
  destruct (run [Resolves 0 200;
                 JsonSettles 0 (JsonOk (VObj [("ready", VBool true)]))]
              (stopPolling (effect "u-17" false))) as [st'|] eqn:E.
  - exists st'. split; [reflexivity|].
    destruct (no_status_request_once_stopped
                _ (stopPolling (effect "u-17" false)) _ eq_refl E)
      as (_ & Hi & _ & Hs).
    split; [exact Hi|]. split; [exact Hs|].
    vm_compute in E. injection E as <-. reflexivity.
  - vm_compute in E. discriminate E.
Defined.

Lemma accounted_step (e : event) (st st' : state) :
  accounted st -> step e st = Some st' -> accounted st'.
Proof.
  unfold accounted, status_requests, finalize_requests.
  intros (Hc & Hle & Hall) H.
  destruct e as [|i status|i msg|i j|]; cbn [step] in H.
  - destruct (pollInterval st); try discriminate. injection H as <-.
    unfold checkStatusAndFinalize. page_fields.
    rewrite filter_app, length_app.
    cbn [filter is_status negb before_answer List.length].
    conjs; try lia. constructor; auto.
  - destruct (nth_error (running st) i) as [[a|a|a|a ok]|] eqn:En;
      try discriminate; injection H as <-.
    + destruct (after_status_frame i a status st)
        as (-> & -> & -> & _ & [-> | ->]).
      * pose proof (filter_remove_at before_answer _ _ _ En). simpl in *.
        conjs; auto; lia.
      * pose proof (filter_remove_at before_answer _ _ _ En).
        pose proof (filter_replace_at before_answer _ _ _
                      (AwaitStatusJson a) En).
        simpl in *. conjs; auto; lia.
    + page_fields.
      pose proof (filter_remove_at before_answer _ _ _ En).
      pose proof (filter_replace_at before_answer _ _ _
                    (AwaitFinalizeJson a (response_ok status)) En).
      simpl in *. conjs; auto; lia.
  - assert (E : exists p,
               nth_error (running st) i = Some p
               /\ st' = catch_block msg
                          (set_running (remove_at i (running st)) st)).
    { destruct (nth_error (running st) i) as [[a|a|a|a ok]|];
        try discriminate; injection H as <-; eauto. }
    destruct E as (p & En & ->).
    destruct (catch_block_frame msg (set_running (remove_at i (running st)) st))
      as (-> & -> & -> & -> & _). page_fields.
    pose proof (filter_remove_at before_answer _ _ _ En).
    conjs; auto; lia.
  - destruct (nth_error (running st) i) as [[a|a|a|a ok]|] eqn:En;
      try discriminate; injection H as <-.
    + pose proof (filter_remove_at before_answer _ _ _ En) as Hr.
      cbn [before_answer] in Hr.
      destruct (after_status_json_frame a j
                  (set_running (remove_at i (running st)) st))
        as (-> & -> & _ & [[-> ->]|[-> ->]]); page_fields.
      * conjs; auto; lia.
      * rewrite filter_app, length_app.
        cbn [filter is_status negb before_answer List.length].
        conjs; auto; try lia.
    + pose proof (filter_remove_at before_answer _ _ _ En) as Hr.
      destruct (after_finalize_json_frame a ok j
                  (set_running (remove_at i (running st)) st))
        as (-> & -> & -> & -> & _); page_fields.
      conjs; auto; lia.
  - injection H as <-. page_fields. auto.
Qed.

Lemma accounted_run (events : list event) :
  forall st st', accounted st -> run events st = Some st' -> accounted st'.
Proof.
  induction events as [|e events IH]; intros st st' Ha H; cbn [run] in H.
  - injection H as <-. exact Ha.
  - destruct (step e st) as [st1|] eqn:E; try discriminate.
    exact (IH _ _ (accounted_step _ _ _ Ha E) H).
Qed.

Lemma uploadId_run (events : list event) :
  forall st st', run events st = Some st' -> uploadId st' = uploadId st.
Proof.
  induction events as [|e events IH]; intros st st' H; cbn [run] in H.
  - injection H as <-. reflexivity.
  - destruct (step e st) as [st1|] eqn:E; try discriminate.
    rewrite (IH _ _ H).
    destruct e; try (apply (step_leaves_status_requests _ _ _ E); discriminate).
    cbn [step] in E. destruct (pollInterval st); try discriminate.
    injection E as <-. reflexivity.
Qed.

(** X2. Whatever the order in which the interval fires and the requests
    of the effect are answered, the poll counter is the number of status
    requests sent, no more finalize requests than status requests have
    been sent, and every request is for the upload id of the URL (finalize
    with the sheet name "Insurance Fields Data"). *)
Theorem requests_are_accounted_for :
  forall (uploadId0 : string) (isFinalizing0 : bool) (events : list event)
         (st : state),
    run events (effect uploadId0 isFinalizing0) = Some st ->
    pollCount st = status_requests st
    /\ finalize_requests st <= status_requests st
    /\ forall r, In r (requests st) ->
                 r = GetUploadStatus uploadId0
                 \/ r = GetFinalizeUpload uploadId0 "Insurance Fields Data".
Proof.
  intros uid f0 events st H.
  assert (A0 : accounted (effect uid f0)).
  { unfold accounted, status_requests, finalize_requests. simpl.
    conjs; auto. }
  destruct (accounted_run events _ _ A0 H) as (Hc & Hle & Hall).
  rewrite (uploadId_run _ _ _ H) in Hall. cbn in Hall.
  conjs; try lia.
  intros r Hin. rewrite Forall_forall in Hall. exact (Hall r Hin).
Qed.

Lemma requests_are_accounted_for_witness :
  exists st,
    run [Tick; Resolves 0 404; Resolves 0 200;
         JsonSettles 0 (JsonOk (VObj [("ready", VBool true)]))]
      (effect "u-17" false) = Some st
    /\ pollCount st = status_requests st
    /\ finalize_requests st <= status_requests st.
Proof.
  destruct (run [Tick; Resolves 0 404; Resolves 0 200;
                 JsonSettles 0 (JsonOk (VObj [("ready", VBool true)]))]
              (effect "u-17" false)) as [st|] eqn:E.
  - exists st. split; [reflexivity|].
    destruct (requests_are_accounted_for _ _ _ _ E) as (Hc & Hle & _).
    split; [exact Hc | exact Hle].
  - vm_compute in E. discriminate E.
Defined.


Lemma effect_checking (uploadId0 : string) (isFinalizing0 : bool) :
  checking (effect uploadId0 isFinalizing0).
Proof.
  unfold checking, status_requests, finalize_requests, maxPolls. simpl.
  conjs; auto; lia.
Qed.

Lemma tick_checking (st : state) :
  running st = [] -> pollInterval st = true -> isComplete st = false ->
  pollCount st < maxPolls ->
  status_requests st = pollCount st -> finalize_requests st = 0 ->
  step Tick st = Some (checkStatusAndFinalize st)
  /\ checking (checkStatusAndFinalize st).
Proof.
  unfold checking, status_requests, finalize_requests.
  intros Hr Hp Hc Hlt Hs Hf. cbn [step]. rewrite Hp. split; [reflexivity|].
  unfold checkStatusAndFinalize. page_fields. rewrite Hr.
  cbn [app filter is_status negb List.length]. conjs; auto; lia.
Qed.

(** A reply that is not "ready" ends the call with nothing under way:
    either the page has stopped with an error, or the interval is still
    set and the attempt was not the last one allowed. *)
Lemma answer_not_ready (r : status_reply) (st : state) :
  checking st -> not_ready r = true ->
  exists st1,
    answer r st = Some st1
    /\ running st1 = [] /\ isComplete st1 = false
    /\ pollCount st1 = pollCount st /\ requests st1 = requests st
    /\ (pollInterval st1 = false /\ isProcessing st1 = false
        /\ truthy (error st1) = true
        \/ pollInterval st1 = true /\ pollCount st < maxPolls).
Proof.
  intros (Hr & Hp & Hc & Hb & _) Hn. unfold answer. rewrite Hr.
  cbn [List.length Nat.sub].
  assert (Hcatch : forall msg,
    let st1 := catch_block msg (set_running [] st) in
    running st1 = [] /\ isComplete st1 = false
    /\ pollCount st1 = pollCount st /\ requests st1 = requests st
    /\ (pollInterval st1 = false /\ isProcessing st1 = false
        /\ truthy (error st1) = true
        \/ pollInterval st1 = true /\ pollCount st < maxPolls)).
  { intros msg. unfold catch_block. page_fields.
    destruct (pollCount st <? 50)%nat eqn:E; page_fields.
    - apply Nat.ltb_lt in E. unfold maxPolls. conjs; auto. right.
      split; [exact Hp | lia].
    - conjs; auto. left. conjs; auto. unfold or.
      destruct (truthy (VStr msg)) eqn:T; [exact T | reflexivity]. }
  assert (Hlast : forall (msg : value) (st0 : state),
    truthy msg = true -> running st0 = [] -> isComplete st0 = false ->
    pollCount st0 = pollCount st -> requests st0 = requests st ->
    let st1 := stop_with_error msg st0 in
    running st1 = [] /\ isComplete st1 = false
    /\ pollCount st1 = pollCount st /\ requests st1 = requests st
    /\ (pollInterval st1 = false /\ isProcessing st1 = false
        /\ truthy (error st1) = true
        \/ pollInterval st1 = true /\ pollCount st < maxPolls)).
  { intros msg st0 Hm H1 H2 H3 H4. page_fields. conjs; auto. }
  destruct r as [msg| |status msg|status d]; cbn [not_ready] in Hn;
    cbn [status_events run step]; rewrite Hr; cbn [nth_error remove_at].
  - eexists. split; [reflexivity|]. apply Hcatch.
  - unfold after_status. rewrite Hr. cbn [Nat.eqb remove_at].
    destruct (maxPolls <=? pollCount st)%nat eqn:E.
    + eexists. split; [reflexivity|]. apply Hlast; auto.
    + apply Nat.leb_gt in E. eexists. split; [reflexivity|]. page_fields.
      conjs; auto.
  - unfold after_status. apply negb_true_iff in Hn. rewrite Hn, Hr.
    page_fields. cbn [replace_at nth_error remove_at after_status_json].
    destruct (pollCount st <? 30)%nat eqn:E.
    + apply Nat.ltb_lt in E. eexists. split; [reflexivity|]. page_fields.
      unfold maxPolls. conjs; auto. right. split; [auto | lia].
    + eexists. split; [reflexivity|]. apply Hlast; auto.
  - apply andb_true_iff in Hn. destruct Hn as [Hs Hd].
    unfold after_status. apply negb_true_iff in Hs. rewrite Hs, Hr.
    page_fields. cbn [replace_at nth_error remove_at after_status_json].
    destruct (is_nullish d) eqn:En.
    + eexists. split; [reflexivity|].
      apply (Hcatch "Cannot read properties of null").
    + cbn [orb] in Hd. rewrite Hd.
      destruct (maxPolls <=? pollCount st)%nat eqn:E.
      * eexists. split; [reflexivity|]. apply Hlast; auto.
      * apply Nat.leb_gt in E. eexists. split; [reflexivity|]. page_fields.
        conjs; auto.
Qed.

Lemma polls_not_ready (replies : list status_reply) :
  forall st,
    checking st -> forallb not_ready replies = true ->
    maxPolls < pollCount st + List.length replies ->
    exists st',
      polls replies st = Some st'
      /\ pollInterval st' = false /\ isProcessing st' = false
      /\ truthy (error st') = true /\ isComplete st' = false
      /\ running st' = []
      /\ status_requests st' <= maxPolls /\ finalize_requests st' = 0.
Proof.
  induction replies as [|r replies IH]; intros st Hc Hall Hlen.
  - destruct Hc as (_ & _ & _ & Hb & _). simpl in Hlen. lia.
  - cbn [forallb] in Hall. apply andb_true_iff in Hall.
    destruct Hall as [Hr Hall].
    destruct (answer_not_ready r st Hc Hr)
      as (st1 & Ha & Hrun & Hcomp & Hcount & Hreq & Hcase).
    destruct Hc as (_ & _ & _ & Hb & Hs & Hf).
    assert (Hs1 : status_requests st1 = pollCount st1).
    { unfold status_requests in *. rewrite Hreq, Hcount. exact Hs. }
    assert (Hf1 : finalize_requests st1 = 0).
    { unfold finalize_requests in *. rewrite Hreq. exact Hf. }
    cbn [polls]. rewrite Ha.
    destruct Hcase as [(Hp & Hproc & Herr) | (Hp & Hlt)].
    + cbn [step]. rewrite Hp. exists st1. conjs; auto. lia.
    + rewrite <- Hcount in Hlt.
      destruct (tick_checking st1 Hrun Hp Hcomp Hlt Hs1 Hf1) as [-> Hc2].
      apply IH; auto.
      unfold checkStatusAndFinalize. page_fields. simpl in Hlen. lia.
Qed.

(** X3. With a server that answers every status request before the
    interval fires again but never says the upload is ready (a failed
    request, a 404, an unreadable body, a body without a truthy
    [ready]), the page stops by itself: after at most 240 status
    requests the interval is cleared, an error message is shown,
    processing is off, and no finalize request was ever sent. *)
Theorem status_polling_stops_without_ready :
  forall (uploadId0 : string) (isFinalizing0 : bool)
         (replies : list status_reply),
    forallb not_ready replies = true ->
    maxPolls <= List.length replies ->
    exists st,
      polls replies (effect uploadId0 isFinalizing0) = Some st
      /\ pollInterval st = false
      /\ isProcessing st = false
      /\ truthy (error st) = true
      /\ isComplete st = false
      /\ running st = []
      /\ status_requests st <= 240
      /\ finalize_requests st = 0.
Proof.
  intros uid f0 replies Hall Hlen.
  apply polls_not_ready; auto using effect_checking.
  simpl. lia.
Qed.

Lemma status_polling_stops_without_ready_witness :
  exists st,
    polls (repeat NotFound 240) (effect "u-17" false) = Some st
    /\ pollInterval st = false
    /\ error st = VStr "Upload not found. Please try again."
    /\ status_requests st = 240.
Proof.
  destruct (status_polling_stops_without_ready "u-17" false
              (repeat NotFound 240) eq_refl)
    as (st & Hst & Hp & _); [rewrite repeat_length; apply le_n|].
  exists st. split; [exact Hst|]. split; [exact Hp|].
  vm_compute in Hst. injection Hst as <-. split; reflexivity.
Defined.

Lemma answer_ready_guarded (st : state) (a status : nat) (d : value) :
  running st = [AwaitStatus a] ->
  (status =? 404)%nat = false ->
  truthy (get "ready" d) = true ->
  isFinalizing st = true ->
  answer (Body status d) st = Some (set_running [] st).
Proof.
  intros Hr Hs Hd Hf. unfold answer. rewrite Hr.
  cbn [List.length Nat.sub status_events].
  pose proof (step_status_resolves st [] a status Hr Hs) as E1.
  cbn [List.length app] in E1. rewrite run_cons, E1, run_cons.
  cbn [step app set_running running nth_error remove_at run].
  unfold after_status_json.
  rewrite (truthy_get_not_nullish _ _ Hd), Hd. cbn [negb]. page_fields.
  rewrite Hf. reflexivity.
Qed.

(** X4. While the finalize guard [isFinalizingRef] is set, as it stays
    after a finalize answer with [inProgress], a status reply that says
    "ready" makes the call return without a finalize request, and no
    attempt limit applies on that path: however many such replies come,
    the interval keeps firing, each reply is followed by one more status
    request, and the page neither completes nor reports an error. *)
Theorem ready_is_ignored_while_finalizing :
  forall (replies : list status_reply) (st : state) (a : nat),
    running st = [AwaitStatus a] ->
    pollInterval st = true ->
    isFinalizing st = true ->
    forallb ready replies = true ->
    exists st',
      polls replies st = Some st'
      /\ pollInterval st' = true
      /\ isFinalizing st' = true
      /\ pollCount st' = pollCount st + List.length replies
      /\ status_requests st' = status_requests st + List.length replies
      /\ finalize_requests st' = finalize_requests st
      /\ isComplete st' = isComplete st
      /\ isProcessing st' = isProcessing st
      /\ error st' = error st.
Proof.
  unfold status_requests, finalize_requests.
  induction replies as [|r replies IH]; intros st a Hr Hp Hf Hall.
  - exists st. cbn [polls List.length]. conjs; auto.
  - cbn [forallb] in Hall. apply andb_true_iff in Hall.
    destruct Hall as [Hready Hall].
    destruct r as [msg| |status msg|status d]; try discriminate.
    cbn [ready] in Hready. apply andb_true_iff in Hready.
    destruct Hready as [Hs Hd]. apply negb_true_iff in Hs.
    cbn [polls]. rewrite (answer_ready_guarded st a status d Hr Hs Hd Hf).
    cbn [step]. page_fields. rewrite Hp.
    destruct (IH (checkStatusAndFinalize (set_running [] st))
                 (S (pollCount st)))
      as (st' & Hst & H1 & H2 & H3 & H4 & H5 & H6 & H7 & H8); auto.
    exists st'. split; [exact Hst|].
    unfold checkStatusAndFinalize in *. page_fields.
    cbn [filter is_status negb List.length] in *.
    conjs; auto; lia.
Qed.

Lemma ready_is_ignored_while_finalizing_witness :
  exists st',
    polls (repeat (Body 200 (VObj [("ready", VBool true)])) 300)
      (effect "u-17" true) = Some st'
    /\ pollInterval st' = true
    /\ pollCount st' = 301
    /\ finalize_requests st' = 0
    /\ isComplete st' = false.
Proof.
  destruct (ready_is_ignored_while_finalizing
              (repeat (Body 200 (VObj [("ready", VBool true)])) 300)
              (effect "u-17" true) 1 eq_refl eq_refl eq_refl eq_refl)
    as (st' & Hst & Hp & _ & Hc & _ & Hf & Hd & _).
  exists st'. split; [exact Hst|]. split; [exact Hp|].
  split; [exact Hc|]. split; [exact Hf | exact Hd].
Defined.

Lemma answer_waiting (r : status_reply) (st : state) :
  checking st -> waiting r = true -> pollCount st < maxPolls ->
  exists st1,
    answer r st = Some st1
    /\ running st1 = [] /\ pollInterval st1 = true
    /\ isComplete st1 = false
    /\ pollCount st1 = pollCount st /\ requests st1 = requests st
    /\ uploadId st1 = uploadId st
    /\ isFinalizing st1 = isFinalizing st /\ error st1 = error st
    /\ isProcessing st1 = isProcessing st /\ sheetUrl st1 = sheetUrl st.
Proof.
  intros (Hr & Hp & Hc & Hb & _) Hw Hlt. unfold answer. rewrite Hr.
  cbn [List.length Nat.sub].
  apply Nat.leb_gt in Hlt.
  destruct r as [msg| |status msg|status d]; cbn [waiting] in Hw;
    try discriminate;
    cbn [status_events run step]; rewrite Hr; cbn [nth_error remove_at].
  - unfold after_status. rewrite Hr. cbn [Nat.eqb remove_at]. rewrite Hlt.
    eexists. split; [reflexivity|]. page_fields. conjs; auto.
  - apply andb_true_iff in Hw. destruct Hw as [Hw Hd].
    apply andb_true_iff in Hw. destruct Hw as [Hs Hn].
    apply negb_true_iff in Hs, Hn.
    unfold after_status. rewrite Hs, Hr.
    page_fields. cbn [replace_at nth_error remove_at after_status_json].
    rewrite Hn, Hd, Hlt.
    eexists. split; [reflexivity|]. page_fields. conjs; auto.
Qed.

Lemma polls_waiting (replies : list status_reply) :
  forall st,
    checking st -> forallb waiting replies = true ->
    pollCount st + List.length replies <= maxPolls ->
    exists st',
      polls replies st = Some st'
      /\ checking st'
      /\ pollCount st' = pollCount st + List.length replies
      /\ uploadId st' = uploadId st
      /\ isFinalizing st' = isFinalizing st /\ error st' = error st
      /\ isProcessing st' = isProcessing st /\ sheetUrl st' = sheetUrl st.
Proof.
  induction replies as [|r replies IH]; intros st Hc Hall Hlen.
  - exists st. cbn [polls List.length]. conjs; auto.
  - cbn [forallb] in Hall. apply andb_true_iff in Hall.
    destruct Hall as [Hw Hall]. cbn [List.length] in Hlen.
    assert (Hlt : pollCount st < maxPolls) by lia.
    destruct (answer_waiting r st Hc Hw Hlt)
      as (st1 & Ha & Hrun & Hp & Hcomp & Hcount & Hreq & Hu & Hf & He
          & Hproc & Hsheet).
    destruct Hc as (_ & _ & _ & Hb & Hs & Hfin).
    assert (Hs1 : status_requests st1 = pollCount st1).
    { unfold status_requests in *. rewrite Hreq, Hcount. exact Hs. }
    assert (Hf1 : finalize_requests st1 = 0).
    { unfold finalize_requests in *. rewrite Hreq. exact Hfin. }
    rewrite <- Hcount in Hlt.
    destruct (tick_checking st1 Hrun Hp Hcomp Hlt Hs1 Hf1) as [Ht Hc2].
    cbn [polls]. rewrite Ha, Ht.
    destruct (IH (checkStatusAndFinalize st1) Hc2 Hall)
      as (st' & Hst & Hc' & Hcount' & Hu' & Hf' & He' & Hproc' & Hsheet').
    { unfold checkStatusAndFinalize. page_fields. lia. }
    exists st'. split; [exact Hst|]. split; [exact Hc'|].
    unfold checkStatusAndFinalize in *. page_fields.
    cbn [List.length]. conjs; try congruence; lia.
Qed.

(** X5. The way through: when the server makes the page wait (upload
    unknown, or files still in process) fewer than 240 times, then says
    the upload is ready, and answers the finalize request with an ok
    response whose body has [success], the page completes: processing
    is off, the interval is cleared, the sheet URL is the one of the
    body ([null] without one), no error is shown, and it has sent one
    status request per reply and exactly one finalize request. *)
Theorem upload_completes_once_ready :
  forall (uploadId0 : string) (replies : list status_reply)
         (status : nat) (statusData : value)
         (finalizeStatus : nat) (finalizeData : value),
    forallb waiting replies = true ->
    List.length replies < maxPolls ->
    ready (Body status statusData) = true ->
    response_ok finalizeStatus = true ->
    truthy (get "inProgress" finalizeData) = false ->
    truthy (get "success" finalizeData) = true ->
    exists st,
      polls_then_finalize replies (Body status statusData)
        finalizeStatus finalizeData (effect uploadId0 false) = Some st
      /\ isComplete st = true
      /\ isProcessing st = false
      /\ pollInterval st = false
      /\ sheetUrl st = or (get "sheetUrl" finalizeData) VNull
      /\ error st = VNull
      /\ running st = []
      /\ status_requests st = List.length replies + 1
      /\ finalize_requests st = 1.
Proof.
  intros uid replies status d fstatus fdata Hall Hlen Hready Hok Hprog Hsucc.
  destruct (polls_waiting replies (effect uid false)
              (effect_checking uid false) Hall)
    as (st1 & Hst1 & Hc1 & Hcount & Hu & Hf & He & Hproc & Hsheet).
  { cbn. lia. }
  unfold polls_then_finalize. rewrite Hst1.
  destruct Hc1 as (Hr & Hp & Hcomp & Hb & Hs & Hfin).
  cbn [ready] in Hready. apply andb_true_iff in Hready.
  destruct Hready as [H404 Hd]. apply negb_true_iff in H404.
  cbn in Hf.
  assert (Ha : answer (Body status d) st1
               = Some (send (GetFinalizeUpload (uploadId st1)
                               "Insurance Fields Data")
                         (AwaitFinalize (pollCount st1))
                         (setStatusMessage PushingToSheets
                            (set_isFinalizing true (set_running [] st1))))).
  { unfold answer. rewrite Hr. cbn [List.length Nat.sub status_events].
    pose proof (step_status_resolves st1 [] _ status Hr H404) as E1.
    cbn [List.length app] in E1. rewrite run_cons, E1, run_cons.
    pose proof (step_status_ready
                  (set_running [AwaitStatusJson (pollCount st1)] st1)
                  [] (pollCount st1) d eq_refl Hd Hf) as E2.
    cbn [List.length app] in E2. rewrite E2. reflexivity. }
  rewrite Ha. page_fields. cbn [app List.length Nat.sub].
  rewrite run_cons.
  pose proof (step_finalize_resolves
                (send (GetFinalizeUpload (uploadId st1)
                         "Insurance Fields Data")
                   (AwaitFinalize (pollCount st1))
                   (setStatusMessage PushingToSheets
                      (set_isFinalizing true (set_running [] st1))))
                [] (pollCount st1) fstatus eq_refl) as E3.
  cbn [List.length app] in E3. rewrite E3, run_cons.
  match goal with
  | |- context [step _ ?s] =>
      pose proof (step_finalize_success s [] (pollCount st1)
                    (response_ok fstatus) fdata eq_refl Hprog Hok Hsucc)
        as E4
  end.
  cbn [List.length app] in E4. rewrite E4. cbn [run].
  eexists. split; [reflexivity|].
  unfold status_requests, finalize_requests in *. page_fields.
  cbn [filter is_status negb List.length].
  cbn in He, Hcount. rewrite Hfin, Hs, Hcount.
  conjs; auto. lia.
Qed.

Lemma upload_completes_once_ready_witness :
  exists st,
    polls_then_finalize
      [NotFound; Body 200 (VObj [("ready", VBool false)])]
      (Body 200 (VObj [("ready", VBool true)])) 200
      (VObj [("success", VBool true);
             ("sheetUrl", VStr "https://sheets.example/1")])
      (effect "u-17" false) = Some st
    /\ isComplete st = true
    /\ sheetUrl st = VStr "https://sheets.example/1"
    /\ status_requests st = 3
    /\ finalize_requests st = 1.
Proof.
  destruct (upload_completes_once_ready "u-17"
              [NotFound; Body 200 (VObj [("ready", VBool false)])]
              200 (VObj [("ready", VBool true)]) 200
              (VObj [("success", VBool true);
                     ("sheetUrl", VStr "https://sheets.example/1")])
              eq_refl ltac:(unfold maxPolls; cbn; lia) eq_refl eq_refl
              eq_refl eq_refl)
    as (st & Hst & Hc & _ & _ & Hsheet & _ & _ & Hs & Hf).
  exists st. split; [exact Hst|]. split; [exact Hc|].
  split; [exact Hsheet|]. split; [exact Hs | exact Hf].
Defined.





End ConfirmedRuns.

(* ------------------------------------------------------------------ *)
(** ** The results page: what the polling effect makes it show *)

Section ResultsRender.

Import QCNewResults QCNewResultsRender.

Ltac conjs := repeat match goal with |- _ /\ _ => split end.

Ltac fields :=
  cbn [retry fail succeed set_running set_pending issue_fetch cancel
         seen_results retryCount timeoutId isCancelled loading error results
         statusMessage pending running nextTimer fetches delays] in *.

Lemma catch_block_results (msg : string) (st : state) :
  results (catch_block msg st) = results st.
Proof.
  unfold catch_block.
  destruct ((retryCount st <? maxRetries)%nat && negb (isCancelled st)
            && negb (truthy (seen_results st))); fields; auto.
  destruct (negb (truthy (seen_results st))); fields; auto.
Qed.

Lemma after_error_json_results (r : response) (j : json_outcome)
  (st : state) :
  results (after_error_json r j st) = results st.
Proof.
  unfold after_error_json.
  destruct (((status r =? 404) || (status r =? 500))%nat
            && (retryCount st <? maxRetries)%nat && negb (isCancelled st));
    fields; auto using catch_block_results.
Qed.

Lemma after_json_results (data : value) (st : state) :
  results (after_json data st) = results st
  \/ stopped st = false
     /\ truthy (get "success" data) = true
     /\ truthy (get "merged" data) = true
     /\ after_json data st = succeed (get "merged" data) st.
Proof.
  unfold after_json.
  destruct (stopped st); auto.
  destruct (is_nullish data); auto using catch_block_results.
  destruct (truthy (get "success" data)) eqn:Es; cbn [negb orb].
  - destruct (truthy (get "merged" data)) eqn:Em; cbn [negb].
    + right. unfold or. rewrite Em. auto.
    + left. destruct (truthy (get "error" data));
        auto using catch_block_results.
      destruct (includes_not_ready (get "error" data)) as [[|]|];
        auto using catch_block_results.
      destruct ((retryCount st <? maxRetries)%nat && negb (isCancelled st));
        fields; auto.
  - left. destruct (truthy (get "error" data));
      auto using catch_block_results.
    destruct (includes_not_ready (get "error" data)) as [[|]|];
      auto using catch_block_results.
    destruct ((retryCount st <? maxRetries)%nat && negb (isCancelled st));
      fields; auto.
Qed.

(** X6. The results the page holds change only when the body of an ok
    response is parsed and has a truthy [success] and a truthy [merged],
    in an effect that is neither cancelled nor already has results: the
    results are then [data.merged], loading is switched off and the
    error is left as it is. No other event touches them. *)
Theorem results_come_from_a_successful_reply :
  forall (e : event) (st st' : state),
    step e st = Some st' ->
    results st' <> results st ->
    exists i data,
      e = JsonSettles i (JsonOk data)
      /\ nth_error (running st) i = Some AwaitJson
      /\ stopped st = false
      /\ truthy (get "success" data) = true
      /\ truthy (get "merged" data) = true
      /\ results st' = get "merged" data
      /\ loading st' = false
      /\ error st' = error st.
Proof.
  intros e st st' H Hne.
  destruct e as [id|i r|i msg|i j|]; cbn [step] in H.
  - destruct (mem id (pending st)); try discriminate. injection H as <-.
    exfalso. apply Hne. unfold fetchResults.
    destruct (stopped _); reflexivity.
  - destruct (nth_error (running st) i) as [[|r'|]|]; try discriminate.
    exfalso. apply Hne.
    destruct (stopped st); [|destruct (negb (ok r))];
      injection H as <-; reflexivity.
  - destruct (nth_error (running st) i) as [[|r'|]|]; try discriminate.
    injection H as <-. exfalso. apply Hne.
    rewrite catch_block_results. reflexivity.
  - destruct (nth_error (running st) i) as [[|r'|]|] eqn:En;
      try discriminate.
    + injection H as <-. exfalso. apply Hne.
      rewrite after_error_json_results. reflexivity.
    + destruct j as [msg|data]; injection H as <-.
      * exfalso. apply Hne. rewrite catch_block_results. reflexivity.
      * destruct (after_json_results data
                    (set_running (remove_at i (running st)) st))
          as [E|(Hs & Hsu & Hm & E)].
        -- exfalso. apply Hne. rewrite E. reflexivity.
        -- exists i, data. rewrite E. fields. conjs; auto.
  - injection H as <-. exfalso. apply Hne.
    destruct (timeoutId st); reflexivity.
Qed.

Lemma results_come_from_a_successful_reply_witness :
  exists st',
    step (JsonSettles 0 (JsonOk merged_reply))
      (set_running [AwaitJson] (mounted "u-17" "http://localhost:8000"))
    = Some st'
    /\ results st' = get "merged" merged_reply
    /\ loading st' = false.
Proof.
  destruct (step (JsonSettles 0 (JsonOk merged_reply))
              (set_running [AwaitJson]
                 (mounted "u-17" "http://localhost:8000")))
    as [st'|] eqn:E.
  - exists st'. split; [reflexivity|].
    destruct (results_come_from_a_successful_reply _ _ _ E)
      as (i & data & He & _ & _ & _ & _ & Hr & Hl & _).
    + vm_compute in E. injection E as <-. discriminate.
    + injection He as _ <-. split; [exact Hr | exact Hl].
  - vm_compute in E. discriminate E.
Defined.

Lemma settled_loading (st : state) :
  error st = "" -> truthy (results st) = false -> loading st = true ->
  settled st.
Proof.
  intros He Hr Hl. unfold settled. rewrite He, Hr, Hl.
  conjs; intros; congruence.
Qed.

Lemma settled_busy (st : state) :
  settled st -> running st <> [] \/ pending st <> [] ->
  truthy (results st) = false ->
  error st = "" /\ loading st = true.
Proof.
  intros (H1 & H2 & H3) Hb Hr.
  assert (He : error st = "").
  { destruct (string_dec (error st) "") as [He|He]; auto.
    destruct (H1 He) as (? & ? & _). tauto. }
  split; auto.
  destruct (loading st); auto.
  destruct (H3 eq_refl); congruence.
Qed.

Lemma ending_settled (st st' : state) :
  ending st st' ->
  running st = [] -> pending st = [] -> error st = "" ->
  truthy (results st) = false -> loading st = true ->
  settled st'.
Proof.
  intros H Hrun Hpend He Hr Hl.
  destruct H as [Hs|msg Hc Hlt|msg Hm Hc|r Ht Hs].
  - apply settled_loading; auto.
  - apply settled_loading; auto.
  - unfold settled. fields. rewrite Hr. conjs; intros; auto; congruence.
  - unfold settled. fields. rewrite He, Ht. conjs; intros; auto; congruence.
Qed.

Lemma settled_step (e : event) (st st' : state) :
  well_formed st -> settled st -> step e st = Some st' -> settled st'.
Proof.
  intros Hwf Hs H. pose proof (step_resumes e st st' Hwf H) as R.
  destruct e as [id|i r|i msg|i j|].
  - destruct R as (-> & Hrun & Hres & _).
    cbn [step] in H. destruct (mem id (pending st)) eqn:M; try discriminate.
    apply mem_In in M.
    destruct (settled_busy st Hs) as [He Hl]; auto.
    { right. intros E. rewrite E in M. exact M. }
    apply settled_loading; unfold fetchResults;
      destruct (stopped _); fields; auto.
  - destruct R as (Hrun & _ & Hres & R).
    destruct (settled_busy st Hs) as [He Hl]; auto.
    { left. rewrite Hrun. discriminate. }
    destruct R as [(-> & _)|(p & -> & _)]; apply settled_loading; auto.
  - destruct R as (p & Hrun & Hpend & Hres & R).
    destruct (settled_busy st Hs) as [He Hl]; auto.
    { left. rewrite Hrun. discriminate. }
    apply (ending_settled _ _ R); auto.
  - destruct R as (p & Hrun & Hpend & Hres & R).
    destruct (settled_busy st Hs) as [He Hl]; auto.
    { left. rewrite Hrun. discriminate. }
    apply (ending_settled _ _ R); auto.
  - subst st'. destruct Hs as (H1 & H2 & H3). unfold settled. fields.
    conjs; auto. intros He. destruct (H1 He) as (? & ? & ? & ?). auto.
Qed.

Lemma settled_run (events : list event) :
  forall st st',
    well_formed st -> settled st -> run events st = Some st' -> settled st'.
Proof.
  induction events as [|e events IH]; intros st st' Hwf Hs H; cbn [run] in H.
  - injection H as <-. exact Hs.
  - destruct (step e st) as [st1|] eqn:E; try discriminate.
    exact (IH _ _ (well_formed_step _ _ _ Hwf E) (settled_step _ _ _ Hwf Hs E) H).
Qed.

Lemma settled_mounted (uploadId apiUrl : string) :
  settled (mounted uploadId apiUrl).
Proof.
  unfold mounted, effect. cbn [truthy].
  destruct (String.eqb uploadId "").
  - unfold settled. cbn. conjs; intros; auto; try discriminate.
    left. discriminate.
  - destruct (String.eqb apiUrl ""); apply settled_loading; reflexivity.
Qed.

(** X7. From the first mount on, whatever the order of the timer, fetch,
    json and cleanup events of the polling effect, the page is loading,
    or shows the error, or shows the results: the "Results not ready yet"
    screen (loading off, no error, no results) never appears, results
    once loaded are never hidden behind the spinner or an error, and an
    error is never hidden behind the spinner. *)
Theorem results_page_never_shows_not_ready :
  forall (uploadId apiUrl : string) (events : list event) (st : state),
    run events (mounted uploadId apiUrl) = Some st ->
    render st <> NotReadyView
    /\ (truthy (results st) = true -> render st = ResultsView)
    /\ (error st <> "" -> render st = ErrorView).
Proof.
  intros uid url events st H.
  assert (Hs : settled st).
  { apply (settled_run events (mounted uid url) st); auto.
    - apply well_formed_effect.
    - apply settled_mounted. }
  destruct Hs as (H1 & H2 & H3). unfold render.
  destruct (loading st).
  - conjs; try discriminate.
    + intros Hr. destruct (H2 Hr). discriminate.
    + intros He. destruct (H1 He) as (_ & _ & _ & ?). discriminate.
  - destruct (String.eqb (error st) "") eqn:Ee; cbn [negb].
    + apply String.eqb_eq in Ee.
      destruct (H3 eq_refl) as [He|Hr]; [congruence|]. rewrite Hr.
      cbn [negb]. conjs; auto; try discriminate. congruence.
    + apply String.eqb_neq in Ee. conjs; auto; try discriminate.
      intros Hr. destruct (H2 Hr). congruence.
Qed.

Lemma results_page_never_shows_not_ready_witness :
  exists st,
    run [FetchResolves 0 {| status := 500; statusText := "" |};
         JsonSettles 0 (JsonFail "Unexpected token");
         TimerFires 1;
         FetchResolves 0 {| status := 200; statusText := "OK" |};
         JsonSettles 0 (JsonOk merged_reply)]
      (mounted "u-17" "http://localhost:8000") = Some st
    /\ render st = ResultsView.
Proof.
  destruct (run [FetchResolves 0 {| status := 500; statusText := "" |};
                 JsonSettles 0 (JsonFail "Unexpected token");
                 TimerFires 1;
                 FetchResolves 0 {| status := 200; statusText := "OK" |};
                 JsonSettles 0 (JsonOk merged_reply)]
              (mounted "u-17" "http://localhost:8000")) as [st|] eqn:E.
  - exists st. split; [reflexivity|].
    apply (results_page_never_shows_not_ready _ _ _ _ E).
    vm_compute in E. injection E as <-. reflexivity.
  - vm_compute in E. discriminate E.
Defined.

End ResultsRender.

(* ------------------------------------------------------------------ *)
(** ** The results page: tabs, rows and what is never shown *)

Section ResultSections.

Import QCNewResultsView QCNewResultsPdf.

Ltac conjs := repeat match goal with |- _ /\ _ => split end.

Lemma tab_In (cond : bool) (p q : pdf) :
  In q (tab cond p) <-> cond = true /\ q = p.
Proof.
  unfold tab. destruct cond; simpl; intuition congruence.
Qed.

Lemma tabs_In (results : value) (p : pdf) :
  In p (tabs results) <->
  match p with
  | PdfPl => hasPl results = true
  | PdfGl => hasGl results = true
  | PdfAcord => hasAcord results = true
  | PdfGlAcord => hasGlAcord results = true
  | PdfLegacy => hasLegacyCert results = true
  | PdfPolicy => True
  end.
Proof.
  unfold tabs. rewrite !in_app_iff, !tab_In. simpl.
  destruct p; intuition congruence.
Qed.

Lemma pdf_eqb_eq (p q : pdf) : pdf_eqb p q = true -> p = q.
Proof. destruct p, q; simpl; intros H; try discriminate; reflexivity. Qed.

Lemma clicks_In (results : value) (l : list pdf) :
  forall p q, In p (tabs results) -> clicks results l p = Some q ->
              In q (tabs results).
Proof.
  induction l as [|c l IH]; intros p q Hp H; cbn [clicks] in H.
  - injection H as <-. exact Hp.
  - destruct (existsb _ (tabs results)) eqn:E; try discriminate.
    apply existsb_exists in E. destruct E as (c' & Hin & Hc).
    apply pdf_eqb_eq in Hc. subst c'. exact (IH c q Hin H).
Qed.

(** X8. When the results arrive the viewer selects a tab that is shown,
    and never the GL ACORD tab; whatever tab buttons the user clicks
    afterwards, the selected tab is one of the buttons on the page, so
    the viewer never asks for a document without a tab. *)
Theorem active_pdf_is_a_shown_tab :
  forall (results : value) (activePdf0 : pdf) (l : list pdf) (p : pdf),
    truthy results = true ->
    clicks results l (activePdf_effect results activePdf0) = Some p ->
    In (activePdf_effect results activePdf0) (tabs results)
    /\ activePdf_effect results activePdf0 <> PdfGlAcord
    /\ In p (tabs results)
    /\ In (pdf_document p) (map pdf_document (tabs results)).
Proof.
  intros results a0 l p Ht H.
  assert (H0 : In (activePdf_effect results a0) (tabs results)).
  { apply tabs_In. unfold activePdf_effect. rewrite Ht.
    destruct (hasPl results) eqn:E1; auto.
    destruct (hasGl results) eqn:E2; auto.
    destruct (hasAcord results) eqn:E3; auto.
    destruct (hasLegacyCert results) eqn:E4; auto. }
  conjs; auto.
  - unfold activePdf_effect. rewrite Ht.
    destruct (hasPl results); try discriminate.
    destruct (hasGl results); try discriminate.
    destruct (hasAcord results); try discriminate.
    destruct (hasLegacyCert results); discriminate.
  - exact (clicks_In results l _ p H0 H).
  - apply in_map. exact (clicks_In results l _ p H0 H).
Qed.

Lemma active_pdf_is_a_shown_tab_witness :
  In (activePdf_effect three_way_results PdfPolicy) (tabs three_way_results)
  /\ In PdfAcord (tabs three_way_results).
Proof.
  destruct (active_pdf_is_a_shown_tab three_way_results PdfPolicy
              [PdfPolicy; PdfAcord] PdfAcord eq_refl eq_refl)
    as (H1 & _ & H2 & _).
  split; [exact H1 | exact H2].
Defined.

Lemma traverse_length {A B : Type} (f : A -> option B) (l : list A) :
  forall out, traverse f l = Some out ->
              Forall2 (fun x y => f x = Some y) l out.
Proof.
  induction l as [|x l IH]; intros out H; cbn [traverse] in H.
  - injection H as <-. constructor.
  - destruct (f x) as [y|] eqn:Ex; try discriminate.
    destruct (traverse f l) as [ys|] eqn:El; try discriminate.
    injection H as <-. constructor; auto.
Qed.

Lemma core_labels_app (a b : list block) :
  core_labels (a ++ b) = (core_labels a ++ core_labels b)%list.
Proof. apply flat_map_app. Qed.

Lemma core_rows_labels (entries : list (string * value)) :
  forall rows,
    traverse core_row entries = Some rows ->
    core_labels (map Core rows)
    = map (fun kv => VStr (field_label (fst kv))) entries.
Proof.
  induction entries as [|[field data] entries IH]; intros rows H;
    cbn [traverse] in H.
  - injection H as <-. reflexivity.
  - destruct (core_row (field, data)) as [r|] eqn:Er; try discriminate.
    destruct (traverse core_row entries) as [rs|] eqn:El; try discriminate.
    injection H as <-. cbn [map core_labels flat_map app fst].
    fold (core_labels (map Core rs)). rewrite (IH rs eq_refl).
    unfold core_row in Er. destruct (is_nullish data); try discriminate.
    injection Er as <-. reflexivity.
Qed.

Lemma coverage_groups_no_core (validations : list (string * value)) :
  forall blocks,
    coverage_groups validations = Some blocks -> core_labels blocks = [].
Proof.
  unfold coverage_groups.
  induction validations as [|[coverage items] rest IH]; intros blocks H;
    cbn [traverse omap] in H.
  - injection H as <-. reflexivity.
  - match type of H with
    | omap _ (match ?a with _ => _ end) = _ => destruct a as [g|] eqn:Eg
    end; try discriminate.
    destruct (traverse _ rest) as [gs|] eqn:Er; try discriminate.
    cbn [omap] in H. injection H as <-. cbn [List.concat].
    rewrite core_labels_app, (IH (List.concat gs) eq_refl), app_nil_r.
    cbv beta iota in Eg.
    destruct items as [| | | | |[|i l]|]; try (injection Eg as <-; reflexivity).
    destruct (traverse CoverageItem (i :: l)) as [vs|]; try discriminate.
    cbn [omap] in Eg. injection Eg as <-. reflexivity.
Qed.

Lemma interests_no_core (l : list value) :
  forall blocks,
    traverse (fun i => omap Interest (CoverageItem i)) l = Some blocks ->
    core_labels blocks = [].
Proof.
  induction l as [|i l IH]; intros blocks H; cbn [traverse] in H.
  - injection H as <-. reflexivity.
  - destruct (CoverageItem i) as [v|]; cbn [omap] in H; try discriminate.
    destruct (traverse _ l) as [bs|] eqn:El; try discriminate.
    injection H as <-. cbn [core_labels flat_map app].
    exact (IH bs eq_refl).
Qed.

Lemma additional_interests_no_core (v : value) (blocks : list block) :
  additional_interests v = Some blocks -> core_labels blocks = [].
Proof.
  unfold additional_interests.
  destruct (length_is_positive v).
  - destruct v; cbn [map_array]; try discriminate.
    apply interests_no_core.
  - destruct (length_is_zero v); intros H; injection H as <-; reflexivity.
Qed.

(** X9. When the two-way PL section is rendered, its core-field rows are
    the entries of [pl_validations.core_validations], each one once and
    in their order, labelled with the field name in upper case with
    spaces for underscores; the coverage groups and the additional
    interests add no core-field row. *)
Theorem pl_core_rows_follow_the_entries :
  forall (results : value) (blocks : list block),
    hasPl results = true ->
    no_acord_pl_comparisons results = true ->
    pl_section results = Some blocks ->
    core_labels blocks
    = map (fun kv => VStr (field_label (fst kv)))
        (obj_entries (plCoreValidations results)).
Proof.
  intros results blocks Hpl Hno H. unfold pl_section in H.
  rewrite Hpl, Hno in H. cbn [andb part parts] in H.
  match type of H with
  | match ?a with _ => _ end = _ => destruct a as [core|] eqn:Ecore
  end; try discriminate.
  destruct (part (nonempty (List.length (plCoverageValidationsFiltered results)))
              (coverage_groups (plCoverageValidationsFiltered results)))
    as [groups|] eqn:Egroups; try discriminate.
  destruct (additional_interests (plAdditionalInterests results))
    as [interests|] eqn:Eint; try discriminate.
  injection H as <-.
  rewrite !core_labels_app, (additional_interests_no_core _ _ Eint).
  assert (Hg : core_labels groups = []).
  { unfold part in Egroups.
    destruct (nonempty (List.length (plCoverageValidationsFiltered results))).
    - exact (coverage_groups_no_core _ _ Egroups).
    - injection Egroups as <-. reflexivity. }
  rewrite Hg. cbn [core_labels flat_map]. rewrite !app_nil_r.
  unfold part, keys_length in Ecore.
  destruct (obj_entries (plCoreValidations results)) as [|e es] eqn:Ee.
  - cbn in Ecore. injection Ecore as <-. reflexivity.
  - cbn [List.length nonempty Nat.eqb negb] in Ecore.
    destruct (traverse core_row (e :: es)) as [rows|] eqn:Er;
      try discriminate.
    cbn [omap] in Ecore. injection Ecore as <-.
    exact (core_rows_labels _ _ Er).
Qed.

Lemma pl_core_rows_follow_the_entries_witness :
  exists blocks,
    pl_section (name_variation_core_results true) = Some blocks
    /\ core_labels blocks = [VStr "INSURED NAME"].
Proof.
  destruct (pl_section (name_variation_core_results true))
    as [blocks|] eqn:E.
  - exists blocks. split; [reflexivity|].
    rewrite (pl_core_rows_follow_the_entries
               (name_variation_core_results true) blocks
               eq_refl eq_refl E).
    reflexivity.
  - vm_compute in E. discriminate E.
Defined.

(** X10. The two-way core verdicts of the GL certificate are read
    ([glCoreValidations]) but never rendered: two results that differ
    only in [gl_validations.core_validations] give the same validation
    rows, and the page fails to render for the one exactly when it does
    for the other. *)
Theorem gl_core_validations_are_not_shown :
  forall (a b : value),
    same_but_gl_core a b ->
    validation_results a = validation_results b.
Proof.
  intros a b (Htop & Htruthy & Hgl).
  assert (T : forall k, String.eqb k "gl_validations" = false ->
                        get k a = get k b).
  { intros k E. apply Htop. apply String.eqb_neq. exact E. }
  assert (G : forall k, String.eqb k "core_validations" = false ->
                        get k (get "gl_validations" a)
                        = get k (get "gl_validations" b)).
  { intros k E. apply Hgl. apply String.eqb_neq. exact E. }
  unfold validation_results, pl_section, gl_section, acord_section,
    gl_acord_section, legacy_section, hasPl, hasGl, hasAcord, hasGlAcord,
    hasPlGlFormat, no_acord_pl_comparisons, no_gl_acord_comparisons,
    plCoverageValidationsFiltered, plAdditionalInterests,
    coreValidations, coverageValidations,
    plCoreValidations, plCoverageValidations, glAddressValidations,
    glCoveragePresenceValidations, glCoverageValidations,
    acordPlCoreComparisons, acordPlCoverageComparisons,
    glAcordCoreComparisons, glAcordCoverageComparisons.
  rewrite Htruthy.
  rewrite (T "pl_certificate" eq_refl), (T "gl_certificate" eq_refl),
    (T "acord_certificate" eq_refl), (T "gl_acord_certificate" eq_refl),
    (T "pl_validations" eq_refl), (T "acord_pl_comparisons" eq_refl),
    (T "gl_acord_comparisons" eq_refl), (T "core_validations" eq_refl),
    (T "coverage_validations" eq_refl).
  rewrite (G "address_validations" eq_refl),
    (G "coverage_presence_validations" eq_refl),
    (G "coverage_validations" eq_refl).
  reflexivity.
Qed.

Lemma gl_core_validations_are_not_shown_witness :
  validation_results
    (gl_results (VObj [("policy_number", VObj [("status", VStr "MISMATCH")])]))
  = validation_results (gl_results (VObj [])).
Proof.
  apply gl_core_validations_are_not_shown.
  unfold same_but_gl_core, gl_results. conjs.
  - intros k Hk. cbn [get lookup].
    destruct (String.eqb k "gl_certificate"); [reflexivity|].
    destruct (String.eqb k "gl_validations") eqn:E; [|reflexivity].
    apply String.eqb_eq in E. contradiction.
  - reflexivity.
  - intros k Hk. cbn [get lookup String.eqb Ascii.eqb Bool.eqb].
    destruct (String.eqb k "core_validations") eqn:E; [|reflexivity].
    apply String.eqb_eq in E. contradiction.
Defined.

(** X11. A coverage group whose value is a non-empty array is rendered
    with every item of the array, in order, each through [CoverageItem];
    no item is left out. *)
Theorem coverage_group_shows_every_item :
  forall (validations : list (string * value)) (blocks : list block)
         (coverage : string) (items : list value),
    coverage_groups validations = Some blocks ->
    In (coverage, VArr items) validations ->
    items <> [] ->
    exists vs,
      In (CoverageGroup coverage vs) blocks
      /\ Forall2 (fun i v => CoverageItem i = Some v) items vs.
Proof.
  unfold coverage_groups.
  induction validations as [|[c its] rest IH];
    intros blocks coverage items H Hin Hne; [contradiction|].
  cbn [traverse omap] in H.
  match type of H with
  | omap _ (match ?a with _ => _ end) = _ => destruct a as [g|] eqn:Eg
  end; try discriminate.
  destruct (traverse _ rest) as [gs|] eqn:Er; try discriminate.
  cbn [omap] in H. injection H as <-. cbn [List.concat].
  destruct Hin as [Hin|Hin].
  - injection Hin as -> ->. cbv beta iota in Eg.
    destruct items as [|i l]; [congruence|].
    destruct (traverse CoverageItem (i :: l)) as [vs|] eqn:Et;
      try discriminate.
    cbn [omap] in Eg. injection Eg as <-.
    exists vs. split; [left; reflexivity|].
    exact (traverse_length _ _ _ Et).
  - destruct (IH (List.concat gs) coverage items eq_refl Hin Hne)
      as (vs & Hvs & Hall).
    exists vs. split; auto. apply in_or_app. right. exact Hvs.
Qed.

Lemma coverage_group_shows_every_item_witness :
  exists vs,
    coverage_groups
      [("building", VArr [VObj [("status", VStr "MATCH")];
                          VObj [("status", VStr "MISMATCH")]])]
    = Some [CoverageGroup "building" vs]
    /\ List.length vs = 2.
Proof.
  destruct (coverage_groups
              [("building", VArr [VObj [("status", VStr "MATCH")];
                                  VObj [("status", VStr "MISMATCH")]])])
    as [blocks|] eqn:E.
  - destruct (coverage_group_shows_every_item _ _ "building"
                [VObj [("status", VStr "MATCH")];
                 VObj [("status", VStr "MISMATCH")]] E
                (or_introl eq_refl) ltac:(discriminate))
      as (vs & Hin & Hall).
    exists vs. split.
    + vm_compute in E. injection E as <-.
      destruct Hin as [Hin|[]]. injection Hin as <-. reflexivity.
    + apply Forall2_length in Hall. symmetry. exact Hall.
  - vm_compute in E. discriminate E.
Defined.

Lemma or_truthy (a b : value) :
  truthy b = true -> truthy (or a b) = true.
Proof. intros H. unfold or. destruct (truthy a) eqn:E; auto. Qed.

Lemma when_shown (cond : bool) (v x : value) :
  when (cond && shown v) v = Some x ->
  truthy x = true /\ x <> VStr "null".
Proof.
  unfold when, shown. destruct cond; cbn [andb]; try discriminate.
  destruct (truthy v) eqn:Et; cbn [andb]; try discriminate.
  destruct (str_eq v "null") eqn:En; cbn [negb]; try discriminate.
  intros [= <-]. split; auto. apply str_eq_false. exact En.
Qed.

(** X12. Every coverage item the page renders has its left border in
    the colour of its status pill (green, red or yellow together). For
    an item that is a GL limit or has no interest name, the values put
    in the name, certificate and policy cells are truthy: never
    [undefined], [null], [false], [0] or the empty string, in place of
    which the next candidate or the fallback text is used. A note or an
    evidence excerpt is put on the item only when its value is truthy
    and not the text "null". *)
Theorem coverage_item_display :
  forall (item : value) (v : coverage_view),
    CoverageItem item = Some v ->
    (cv_borderColor v = "#10b981" <-> badge_class (cv_badge v) = green)
    /\ (cv_borderColor v = "#ef4444" <-> badge_class (cv_badge v) = red)
    /\ (cv_borderColor v = "#f59e0b" <-> badge_class (cv_badge v) = yellow)
    /\ (truthy (get "cert_limit_key" item) = true
        \/ truthy (get "cert_interest_name" item) = false ->
        truthy (cv_name v) = true
        /\ truthy (cv_certificate v) = true
        /\ truthy (cv_policy v) = true)
    /\ (forall x,
          In (Some x) [cv_notes v; cv_evidence_policy v;
                       cv_evidence_declarations v; cv_evidence_endorsement v] ->
          truthy x = true /\ x <> VStr "null").
Proof.
  intros item v H. unfold CoverageItem in H.
  destruct (is_nullish item); try discriminate. injection H as <-.
  cbn [cv_borderColor cv_badge cv_name cv_certificate cv_policy cv_notes
       cv_evidence_policy cv_evidence_declarations cv_evidence_endorsement
       status_badge badge_class].
  unfold status_class, green, red, yellow.
  conjs.
  - destruct (str_eq (get "status" item) "MATCH"); [tauto|].
    destruct (str_eq (get "status" item) "MISMATCH"
              || str_eq (get "status" item) "NOT_FOUND");
      split; discriminate.
  - destruct (str_eq (get "status" item) "MATCH"); [split; discriminate|].
    destruct (str_eq (get "status" item) "MISMATCH"
              || str_eq (get "status" item) "NOT_FOUND");
      [tauto | split; discriminate].
  - destruct (str_eq (get "status" item) "MATCH"); [split; discriminate|].
    destruct (str_eq (get "status" item) "MISMATCH"
              || str_eq (get "status" item) "NOT_FOUND");
      [split; discriminate | tauto].
  - intros Hk.
    destruct (truthy (get "cert_limit_key" item)) eqn:Ek.
    + conjs; unfold first_truthy; cbn [fold_right];
        repeat apply or_truthy; reflexivity.
    + destruct Hk as [Hk|Hk]; [discriminate|]. rewrite Hk. cbn [andb].
      conjs; unfold first_truthy; cbn [fold_right];
        repeat apply or_truthy; reflexivity.
  - intros x [Hx|[Hx|[Hx|[Hx|[]]]]].
    + apply (when_shown true (get "notes" item)). exact Hx.
    + exact (when_shown _ _ _ Hx).
    + exact (when_shown _ _ _ Hx).
    + exact (when_shown _ _ _ Hx).
Qed.

Lemma coverage_item_display_witness :
  exists v,
    CoverageItem
      (VObj [("cert_building_name", VStr "Building");
             ("status", VStr "MISMATCH"); ("notes", VStr "null")]) = Some v
    /\ cv_borderColor v = "#ef4444"
    /\ cv_certificate v = VStr "N/A"
    /\ cv_notes v = None.
Proof.
  eexists. split; [reflexivity|].
  destruct (coverage_item_display
              (VObj [("cert_building_name", VStr "Building");
                     ("status", VStr "MISMATCH"); ("notes", VStr "null")])
              _ eq_refl) as (_ & Hred & _).
  split; [apply Hred; reflexivity|]. split; reflexivity.
Defined.

End ResultSections.

(* ------------------------------------------------------------------ *)
(** ** The extracted-fields panel: rows, colours and labels *)

Section FieldRows.

Import ExtractedFieldsDisplay ExtractedFieldsRender.

Lemma tagged_object (d : value) :
  tagged d -> exists fields, d = VObj fields.
Proof.
  intros [Hv _]. destruct d; simpl in Hv; try discriminate. eauto.
Qed.

Lemma render_entry_shows (isFlagged : bool) (e : entry) :
  tagged (snd e) -> shows isFlagged e (render_entry isFlagged e).
Proof.
  destruct e as [key d]. cbn [snd]. intros Ht.
  destruct (tagged_object d Ht) as [fields ->].
  destruct Ht as [Hv _]. unfold shows, render_entry.
  cbn [fst snd truthy typeof_object row_label row_text row_style
       row_background].
  rewrite Hv. destruct isFlagged; cbn [andb]; auto.
Qed.

(** X13. The rows of the panel are the flattened entries, one row each
    and in order, labelled with the key with spaces for underscores.
    With [isFlagged] a row shows the formatted value of its entry in the
    classes of its colour; without it (the default) every row prints the
    wrapper object the flattening has put around the value, that is the
    text "[object Object]", in the unflagged classes. *)
Theorem panel_rows :
  forall (data : value) (isFlagged : bool) (rows : list row),
    render data isFlagged = Fields rows ->
    Forall2 (shows isFlagged)
      (flattenData isFlagged (obj_entries data) "") rows.
Proof.
  intros data isFlagged rows H. unfold render in H.
  destruct (negb (truthy data)); try discriminate.
  assert (E : rows = map (render_entry isFlagged)
                       (flattenData isFlagged (obj_entries data) "")).
  { destruct (flattenData isFlagged (obj_entries data) "") as [|e es];
      try discriminate. injection H as <-. reflexivity. }
  rewrite E. clear H E.
  pose proof (flattenValue_tagged (VObj (obj_entries data)) isFlagged "")
    as Ht.
  fold (flattenData isFlagged (obj_entries data) "") in Ht.
  induction Ht as [|x l Hx Hl IH]; cbn [map]; constructor; auto.
  apply render_entry_shows. exact Hx.
Qed.

Lemma panel_rows_witness :
  exists rows,
    render plain_fields false = Fields rows
    /\ Forall (fun r => row_text r = "[object Object]") rows
    /\ List.length rows = 2.
Proof.
  destruct (render plain_fields false) as [| |rows] eqn:E;
    try (vm_compute in E; discriminate E).
  exists rows. split; [reflexivity|].
  pose proof (panel_rows plain_fields false rows E) as H.
  split.
  - clear E. induction H as [|e r es rs He Hes IH]; constructor; auto.
    destruct He as (_ & Ht & _). exact Ht.
  - apply Forall2_length in H. rewrite <- H. reflexivity.
Defined.

(** X14. The colour of a flagged field whose value is a nested object is
    never used: the field flattens exactly as its value does under the
    field's key, whatever the colour is, and a plain value inside it is
    shown in 'black', not in the colour of the parent. *)
Theorem parent_colour_is_not_inherited :
  forall (prefix key : string) (fieldData : value)
         (nested : list (string * value)),
    has "color" fieldData = true ->
    get "value" fieldData = VObj nested ->
    flattenData true [(key, fieldData)] prefix
    = flattenData true nested (newKey prefix key)
    /\ forall k x,
         In (k, x) nested -> leaf x ->
         In (newKey (newKey prefix key) k, flagged x (VStr "black"))
           (flattenData true [(key, fieldData)] prefix).
Proof.
  intros prefix key fieldData nested Hc Hv.
  assert (E : flattenData true [(key, fieldData)] prefix
              = flattenData true nested (newKey prefix key)).
  { unfold flattenData. rewrite flattenValue_obj. cbn [flat_map].
    rewrite app_nil_r. unfold flatten_entry.
    destruct fieldData as [| | | | | |fields]; try discriminate.
    assert (Hh : has "value" (VObj fields) = true).
    { unfold get in Hv. unfold has.
      destruct (lookup "value" fields); [reflexivity | discriminate]. }
    cbn [is_nullish truthy typeof_object andb]. rewrite Hh, Hc, Hv.
    cbn [andb truthy typeof_object isArray negb].
    apply inherit_color_flattenValue. }
  split; [exact E|].
  intros k x Hin Hl. rewrite E. unfold flattenData.
  rewrite flattenValue_obj. apply in_flat_map.
  exists (k, x). split; [exact Hin|].
  rewrite (flatten_entry_leaf _ _ _ _ Hl). left. reflexivity.
Qed.

Lemma parent_colour_is_not_inherited_witness :
  flattenData true
    [("limits",
      flagged (VObj [("each_occurrence", VNum 1000000)]) (VStr "red"))] ""
  = [("limits > each_occurrence", flagged (VNum 1000000) (VStr "black"))].
Proof.
  rewrite (proj1 (parent_colour_is_not_inherited "" "limits"
                    (flagged (VObj [("each_occurrence", VNum 1000000)])
                       (VStr "red"))
                    [("each_occurrence", VNum 1000000)] eq_refl eq_refl)).
  reflexivity.
Defined.

Lemma prefix_app_l (a b s : string) :
  String.prefix (a ++ b) s = true -> String.prefix a s = true.
Proof.
  revert s. induction a as [|c a IH]; intros s H;
    [destruct s; reflexivity|].
  destruct s as [|c' s]; simpl in *; [discriminate|].
  destruct (ascii_dec c c'); [|discriminate]. auto.
Qed.

Lemma prefix_append (a b : string) : String.prefix a (a ++ b) = true.
Proof.
  induction a as [|c a IH]; [destruct b; reflexivity|]. simpl.
  destruct (ascii_dec c c); [exact IH | congruence].
Qed.

Lemma append_assoc3 (a b c : string) : ((a ++ b) ++ c = a ++ (b ++ c))%string.
Proof. induction a as [|x a IH]; simpl; [reflexivity | now rewrite IH]. Qed.

Lemma append_nonempty (a b : string) : a <> "" -> (a ++ b)%string <> "".
Proof. destruct a; [congruence | discriminate]. Qed.

Lemma newKey_nested (prefix key : string) :
  prefix <> "" ->
  newKey prefix key = (prefix ++ " > " ++ key)%string
  /\ newKey prefix key <> "".
Proof.
  intros H. unfold newKey. apply String.eqb_neq in H. rewrite H.
  split; [reflexivity|]. apply String.eqb_neq in H.
  apply append_nonempty. exact H.
Qed.

Lemma inherit_color_key (c : value) (e : entry) :
  fst (inherit_color c e) = fst e.
Proof.
  destruct e as [k d]. unfold inherit_color.
  destruct (typeof_object d && has "value" d); reflexivity.
Qed.

(** Below a prefix that is not empty, every key starts with the prefix
    and the separator. *)
Lemma flattenValue_keys (v : value) :
  forall isFlagged prefix key d,
    prefix <> "" ->
    In (key, d) (flattenValue isFlagged v prefix) ->
    String.prefix (prefix ++ " > ") key = true.
Proof.
  set (Q := fun v => forall isFlagged prefix key d,
              prefix <> "" ->
              In (key, d) (flattenValue isFlagged v prefix) ->
              String.prefix (prefix ++ " > ") key = true).
  enough (H : Q v /\ (forall fields, v = VObj fields ->
                      forall k x, lookup k fields = Some x -> Q x))
    by exact (proj1 H).
  induction v as [ | | b | n | s | items _ | fields IH ] using value_rect_deep;
    try (split; [ intros f p key d _ [] | intros fs [=] ]).
  rewrite Forall_forall in IH.
  assert (Hnested : forall fs, VObj fields = VObj fs ->
                    forall k x, lookup k fs = Some x -> Q x).
  { intros fs [= <-] k x Hl. destruct (lookup_In k fields x Hl) as [k' Hin].
    exact (proj1 (IH (k', x) Hin)). }
  split; [ | exact Hnested ].
  intros isFlagged prefix key d Hp Hin. rewrite flattenValue_obj in Hin.
  apply in_flat_map in Hin. destruct Hin as [[k fd] [Hk Hin]].
  destruct (newKey_nested prefix k Hp) as [Enk Hnk].
  assert (Hself : String.prefix (prefix ++ " > ") (newKey prefix k) = true).
  { rewrite Enk, <- append_assoc3. apply prefix_append. }
  assert (Hbelow : forall key',
            String.prefix (newKey prefix k ++ " > ") key' = true ->
            String.prefix (prefix ++ " > ") key' = true).
  { intros key' H. rewrite Enk in H.
    rewrite <- append_assoc3, append_assoc3 in H.
    exact (prefix_app_l _ _ _ H). }
  unfold flatten_entry in Hin.
  destruct (is_nullish fd); [contradiction|].
  destruct (isFlagged && truthy fd && typeof_object fd
            && has "value" fd && has "color" fd) eqn:Ef.
  - destruct (truthy (get "value" fd) && typeof_object (get "value" fd)
              && negb (isArray (get "value" fd))) eqn:Ev.
    + apply in_map_iff in Hin. destruct Hin as [e' [He' Hin']].
      pose proof (inherit_color_key (get "color" fd) e') as Hkey.
      rewrite He' in Hkey. cbn [fst] in Hkey. destruct e' as [k' d'].
      cbn [fst] in Hkey. subst k'.
      apply Hbelow.
      destruct fd as [| | | | | |ffields];
        try (rewrite ?andb_false_r in Ef; simpl in Ef;
             rewrite ?andb_false_r in Ef; discriminate).
      unfold get in Hin', Ev.
      destruct (lookup "value" ffields) as [x|] eqn:El;
        [|simpl in Ev; discriminate].
      exact (proj2 (IH (k, VObj ffields) Hk) ffields eq_refl "value" x El
               isFlagged (newKey prefix k) key d' Hnk Hin').
    + destruct Hin as [[= <- _]|[]]. exact Hself.
  - destruct (truthy fd && typeof_object fd && negb (isArray fd)).
    + apply Hbelow.
      exact (proj1 (IH (k, fd) Hk) isFlagged (newKey prefix k) key d Hnk Hin).
    + destruct Hin as [[= <- _]|[]]. exact Hself.
Qed.

Lemma nested_object (v : value) :
  truthy v && typeof_object v && negb (isArray v) = true ->
  exists nested, v = VObj nested.
Proof.
  destruct v as [ | | b | n | s | items | nested ]; simpl;
    rewrite ?andb_false_r; try discriminate. eauto.
Qed.

(** X15. The label of a row is the path of its field. The rows made from
    a field whose key [k] is not empty are labelled [k] itself, for a
    value that is not an object, or start with [k] followed by " > ",
    for the fields nested in it at any depth. A field whose key is the
    empty string leaves no trace in the labels: its own row has the
    empty label, and the fields nested in it (in the field itself, or in
    the [value] of a flagged field) are labelled as if they were fields
    of the data. *)
Theorem rows_carry_the_path_of_their_field :
  forall (isFlagged : bool) (k : string) (fieldData : value)
         (key : string) (d : value),
    In (key, d) (flattenData isFlagged [(k, fieldData)] "") ->
    (k <> "" -> key = k \/ String.prefix (k ++ " > ") key = true)
    /\ (k = "" ->
        key = ""
        \/ exists nested,
             (fieldData = VObj nested \/ get "value" fieldData = VObj nested)
             /\ In (key, d) (flattenData isFlagged nested "")).
Proof.
  intros isFlagged k fd key d Hin. unfold flattenData in Hin.
  rewrite flattenValue_obj in Hin. cbn [flat_map] in Hin.
  rewrite app_nil_r in Hin. unfold flatten_entry in Hin.
  change (newKey "" k) with k in Hin.
  destruct (is_nullish fd); [contradiction|].
  destruct (isFlagged && truthy fd && typeof_object fd
            && has "value" fd && has "color" fd).
  - destruct (truthy (get "value" fd) && typeof_object (get "value" fd)
              && negb (isArray (get "value" fd))) eqn:Ev.
    + rewrite inherit_color_flattenValue in Hin. split.
      * intros Hk. right. exact (flattenValue_keys _ _ _ _ _ Hk Hin).
      * intros ->. right. destruct (nested_object _ Ev) as [nested Hv].
        exists nested. split; [right; exact Hv|].
        rewrite Hv in Hin. exact Hin.
    + destruct Hin as [[= <- _]|[]]. split; intros Hk; left;
        [reflexivity | exact Hk].
  - destruct (truthy fd && typeof_object fd && negb (isArray fd)) eqn:Ev.
    + split.
      * intros Hk. right. exact (flattenValue_keys _ _ _ _ _ Hk Hin).
      * intros ->. right. destruct (nested_object _ Ev) as [nested ->].
        exists nested. split; [left; reflexivity | exact Hin].
    + destruct Hin as [[= <- _]|[]]. split; intros Hk; left;
        [reflexivity | exact Hk].
Qed.

Lemma rows_carry_the_path_of_their_field_witness :
  String.prefix ("limits" ++ " > ") "limits > umbrella > aggregate" = true
  /\ In ("aggregate", flagged (VNum 5) (VStr "black"))
       (flattenData false [("", VObj [("aggregate", VNum 5)])] "")
  /\ In ("aggregate", flagged (VNum 5) (VStr "black"))
       (flattenData false [("aggregate", VNum 5)] "").
Proof.
  split; [|split].
  - destruct (rows_carry_the_path_of_their_field false "limits"
                (VObj [("umbrella", VObj [("aggregate", VNum 5)])])
                "limits > umbrella > aggregate"
                (flagged (VNum 5) (VStr "black"))
                (or_introl eq_refl)) as [H _].
    destruct (H ltac:(discriminate)) as [E|E]; [discriminate E | exact E].
  - left. reflexivity.
  - destruct (rows_carry_the_path_of_their_field false ""
                (VObj [("aggregate", VNum 5)])
                "aggregate" (flagged (VNum 5) (VStr "black"))
                (or_introl eq_refl)) as [_ H].
    destruct (H eq_refl) as [E|(nested & [E|E] & Hin)];
      [discriminate E | injection E as <-; exact Hin | discriminate E].
Defined.

End FieldRows.

(* ------------------------------------------------------------------ *)
(** ** The upload form: dropped files and the submit button *)

Section UploadForm.

Import QCNewPage QCNewPageForm.

Ltac conjs := repeat match goal with |- _ /\ _ => split end.

Lemma handleDrop_all_pdf (z : zone) (files : list File) (st : state) :
  all_pdf st -> all_pdf (handleDrop z files st).
Proof.
  intros H. unfold handleDrop. destruct files as [|file rest]; auto.
  destruct (String.eqb (type file) "application/pdf") eqn:E; auto.
  apply String.eqb_eq in E. intros z' f Hf.
  destruct z, z'; cbn in Hf;
    try (injection Hf as <-; exact E);
    try (apply (H PlCertificate f Hf));
    try (apply (H GlCertificate f Hf));
    try (apply (H AcordCertificate f Hf));
    try (apply (H GlAcordCertificate f Hf));
    try (apply (H Policy f Hf)).
Qed.

Lemma drops_all_pdf (l : list (zone * list File)) :
  forall st, all_pdf st -> all_pdf (drops l st).
Proof.
  unfold drops. induction l as [|d l IH]; intros st H; cbn [fold_left]; auto.
  apply IH. apply handleDrop_all_pdf. exact H.
Qed.

Lemma append_file_In (field field' : string) (o : option File) (f : File) :
  In (field', FormFile f) (append_file field o) -> o = Some f.
Proof.
  destruct o as [x|]; simpl; [|contradiction].
  intros [[= _ ->]|[]]. reflexivity.
Qed.

(** X16. Files put on the form by drag and drop are PDFs: a drop whose
    first file has another MIME type changes nothing, so after any
    sequence of drops on the empty form every file of the upload request
    has the type "application/pdf". (The file inputs set their file
    without this check.) *)
Theorem dropped_files_are_pdfs :
  forall (l : list (zone * list File)) (username : option string)
         (net : fetch_outcome) (req : request) (field : string) (f : File),
    In req (sent (handleUpload username (drops l initial) net)) ->
    In (field, FormFile f) (body req) ->
    type f = "application/pdf".
Proof.
  intros l username net req field f Hreq Hf.
  assert (Hpdf : all_pdf (drops l initial)).
  { apply drops_all_pdf. intros z x Hx. destruct z; discriminate Hx. }
  set (st := drops l initial) in *.
  unfold handleUpload in Hreq.
  destruct (negb (isSome (plCertificateFile st))
            && negb (isSome (glCertificateFile st))); [contradiction|].
  destruct (policyFile st) as [policy|] eqn:Ep; [|contradiction].
  assert (Hb : In (field, FormFile f) (formData username st policy)).
  { destruct (read_response net); destruct Hreq as [<-|[]]; exact Hf. }
  unfold formData in Hb. rewrite !in_app_iff in Hb.
  destruct Hb as [Hb|[Hb|[Hb|[Hb|Hb]]]].
  - exact (Hpdf PlCertificate f (append_file_In _ _ _ _ Hb)).
  - exact (Hpdf GlCertificate f (append_file_In _ _ _ _ Hb)).
  - exact (Hpdf AcordCertificate f (append_file_In _ _ _ _ Hb)).
  - exact (Hpdf GlAcordCertificate f (append_file_In _ _ _ _ Hb)).
  - destruct Hb as [[= _ <-]|[Hb|[]]]; [|discriminate Hb].
    exact (Hpdf Policy policy Ep).
Qed.

Lemma dropped_files_are_pdfs_witness :
  let pdf := {| name := "policy.pdf"; type := "application/pdf" |} in
  let png := {| name := "scan.png"; type := "image/png" |} in
  let st := drops [(GlCertificate, [pdf]); (Policy, [png]); (Policy, [pdf]);
                   (AcordCertificate, [png])] initial in
  acordCertificateFile st = None
  /\ type pdf = "application/pdf".
Proof.
  intros pdf png st. split; [reflexivity|].
  apply (dropped_files_are_pdfs
           [(GlCertificate, [pdf]); (Policy, [png]); (Policy, [pdf]);
            (AcordCertificate, [png])]
           None (Rejected "Failed to fetch")
           {| path := "/qc-new/upload-unified";
              body := [("gl_certificate_pdf", FormFile pdf);
                       ("policy_pdf", FormFile pdf);
                       ("username", FormText "user")];
              user_header := "user" |}
           "policy_pdf" pdf).
  - left. reflexivity.
  - cbn [body In]. right. left. reflexivity.
Defined.

(** X17. A click on the submit button while it is enabled always sends
    exactly one upload request: the two "Please upload ..." messages of
    [handleUpload] cannot come from the button, which is disabled in
    the states that produce them. The click ends in one of two ways: the
    page goes to the results of the new upload with no error and the
    button left disabled, or an error message is shown and the button is
    enabled again. *)
Theorem enabled_submit_sends_one_request :
  forall (username : option string) (st : state) (net : fetch_outcome),
    submit_disabled st = false ->
    exists req,
      sent (handleUpload username st net) = [req]
      /\ ((exists newUploadId,
              pushed (handleUpload username st net)
              = ["/qc-new-results?id=" ++ toString newUploadId]
              /\ truthy newUploadId = true
              /\ uploadId (final (handleUpload username st net)) = newUploadId
              /\ error (final (handleUpload username st net)) = ""
              /\ submit_disabled (final (handleUpload username st net)) = true)
          \/ pushed (handleUpload username st net) = []
             /\ error (final (handleUpload username st net)) <> ""
             /\ uploadId (final (handleUpload username st net)) = uploadId st
             /\ submit_disabled (final (handleUpload username st net)) = false).
Proof.
  intros username st net Hd. unfold submit_disabled in Hd.
  apply orb_false_iff in Hd. destruct Hd as [Hd Hpol].
  apply orb_false_iff in Hd. destruct Hd as [Hup Hcert].
  apply negb_false_iff in Hpol. unfold handleUpload. rewrite Hcert.
  destruct (policyFile st) as [policy|] eqn:Ep; [|discriminate].
  destruct (read_response net) as [msg|newUploadId] eqn:Er;
    cbn [sent pushed final]; eexists; (split; [reflexivity|]).
  - right. unfold fail_upload, begin_upload, submit_disabled.
    cbn [error uploadId uploading plCertificateFile glCertificateFile
         policyFile].
    rewrite Hcert, Ep. conjs; auto.
    destruct (String.eqb msg "") eqn:E; [discriminate|].
    apply String.eqb_neq. exact E.
  - left. exists newUploadId. conjs; auto.
    unfold read_response in Er.
    destruct net as [|m|status [m|data]]; try discriminate.
    destruct (is_nullish data); try discriminate.
    destruct (negb (response_ok status)); try discriminate.
    destruct (truthy (get "upload_id" data)) eqn:Et; try discriminate.
    injection Er as <-. exact Et.
Qed.

Lemma enabled_submit_sends_one_request_witness :
  let pdf := {| name := "policy.pdf"; type := "application/pdf" |} in
  let st := drops [(PlCertificate, [pdf]); (Policy, [pdf])] initial in
  exists req,
    sent (handleUpload (Some "ann") st
            (Responded 200 (JsonOk (VObj [("upload_id", VStr "u-17")]))))
    = [req].
Proof.
  intros pdf st.
  destruct (enabled_submit_sends_one_request (Some "ann") st
              (Responded 200 (JsonOk (VObj [("upload_id", VStr "u-17")])))
              eq_refl) as (req & Hreq & _).
  exists req. exact Hreq.
Defined.

End UploadForm.

(* ------------------------------------------------------------------ *)
(** ** The summary page: carriers, files and the upload request *)

Section Carriers.

Import SummaryPage.

Ltac conjs := repeat match goal with |- _ /\ _ => split end.

Lemma map_id_update (g : CarrierData -> CarrierData) (l : list CarrierData) :
  (forall c, id (g c) = id c) -> map id (map g l) = map id l.
Proof.
  intros H. rewrite map_map. apply map_ext. exact H.
Qed.

Lemma update_keeps_id (id0 : nat) (g : CarrierData -> CarrierData) :
  (forall c, id (g c) = id c) ->
  forall c, id (if Nat.eqb (id c) id0 then g c else c) = id c.
Proof. intros H c. destruct (Nat.eqb (id c) id0); auto. Qed.

Lemma well_kept_update (g : CarrierData -> CarrierData) (st : state) :
  (forall c, id (g c) = id c) ->
  well_kept st -> well_kept (setCarriers (map g (carriers st)) st).
Proof.
  intros Hg (Hne & Hnd & Hall). unfold well_kept. cbn [setCarriers carriers nextId].
  conjs.
  - destruct (carriers st); [congruence | discriminate].
  - rewrite (map_id_update g _ Hg). exact Hnd.
  - rewrite Forall_forall in *. intros c Hin. apply in_map_iff in Hin.
    destruct Hin as (c0 & <- & Hin). rewrite Hg. exact (Hall c0 Hin).
Qed.

Lemma kept_carriers_distinct (keep : CarrierData -> bool)
  (l : list CarrierData) :
  NoDup (map id l) -> NoDup (map id (filter keep l)).
Proof.
  induction l as [|c l IH]; cbn [map filter]; intros H; [constructor|].
  inversion H as [|y ys Hnin Hnd]; subst.
  destruct (keep c); cbn [map]; auto. constructor; auto.
  intros Hin. apply Hnin. apply in_map_iff in Hin.
  destruct Hin as (z & Hz & Hin). apply filter_In in Hin.
  apply in_map_iff. exists z. tauto.
Qed.

Lemma filter_other_ids (id0 : nat) (l : list CarrierData) :
  ~ In id0 (map id l) ->
  filter (fun c => negb (Nat.eqb (id c) id0)) l = l.
Proof.
  induction l as [|c l IH]; cbn [map filter In]; intros H; auto.
  destruct (Nat.eqb (id c) id0) eqn:E.
  - apply Nat.eqb_eq in E. tauto.
  - cbn [negb]. rewrite IH; auto.
Qed.

Lemma filter_drops_one (id0 : nat) (l : list CarrierData) :
  NoDup (map id l) ->
  List.length l
  <= List.length (filter (fun c => negb (Nat.eqb (id c) id0)) l) + 1.
Proof.
  induction l as [|c l IH]; cbn [map filter List.length]; intros H; [lia|].
  inversion H as [|y ys Hnin Hnd]; subst.
  destruct (Nat.eqb (id c) id0) eqn:E; cbn [negb List.length].
  - apply Nat.eqb_eq in E. subst id0. rewrite filter_other_ids; auto. lia.
  - specialize (IH Hnd). lia.
Qed.

Lemma well_kept_act (st : state) (a : action) :
  well_kept st -> well_kept (act st a).
Proof.
  intros Hk. destruct a as [|id0|id0 value|id0 t f]; cbn [act].
  - destruct Hk as (Hne & Hnd & Hall). unfold well_kept, addCarrier.
    cbn [carriers nextId]. conjs.
    + destruct (carriers st); discriminate.
    + rewrite map_app. cbn [map newCarrier id].
      apply NoDup_app; auto.
      * constructor; [intros [] | constructor].
      * intros x Hx [<-|[]]. apply in_map_iff in Hx.
        destruct Hx as (c & Hc & Hin). rewrite Forall_forall in Hall.
        specialize (Hall c Hin). lia.
    + rewrite Forall_forall in *. intros c Hin. apply in_app_iff in Hin.
      destruct Hin as [Hin|[<-|[]]].
      * specialize (Hall c Hin). lia.
      * cbn [newCarrier id]. specialize (Hall). 
        destruct (carriers st) as [|c0 l]; [congruence|].
        specialize (Hall c0 (or_introl eq_refl)). lia.
  - unfold removeCarrier.
    destruct (1 <? List.length (carriers st))%nat eqn:E.
    + apply Nat.ltb_lt in E. destruct Hk as (Hne & Hnd & Hall).
      unfold well_kept. cbn [setCarriers carriers nextId]. conjs.
      * pose proof (filter_drops_one id0 (carriers st) Hnd) as Hl.
        intros Hnil. rewrite Hnil in Hl. cbn [List.length] in Hl. lia.
      * apply kept_carriers_distinct. exact Hnd.
      * rewrite Forall_forall in *. intros c Hin.
        apply filter_In in Hin. exact (Hall c (proj1 Hin)).
    + exact Hk.
  - unfold handleNameChange.
    apply (well_kept_update
             (fun c => if Nat.eqb (id c) id0 then with_name value c else c));
      auto.
    intros c. destruct (Nat.eqb (id c) id0); reflexivity.
  - unfold handleFileUpload.
    apply (well_kept_update
             (fun c => if Nat.eqb (id c) id0 then with_file t f c else c));
      auto.
    intros c. destruct (Nat.eqb (id c) id0); reflexivity.
Qed.

(** X18. Whatever the user does with the carrier cards (add, remove,
    rename, attach a file), the page keeps at least one carrier, no two
    carriers ever share an id, and every id is below [nextId], so an id
    is never given out twice, not even after its carrier was removed. *)
Theorem carriers_stay_distinct :
  forall (actions : list action),
    let st := fold_left act actions initial in
    carriers st <> []
    /\ NoDup (map id (carriers st))
    /\ forall c, In c (carriers st) -> 1 <= id c < nextId st.
Proof.
  intros actions st.
  assert (H : well_kept st).
  { subst st. assert (H0 : well_kept initial).
    { unfold well_kept, initial. cbn. conjs.
      - discriminate.
      - constructor; [intros [] | constructor].
      - constructor; [cbn; lia | constructor]. }
    revert H0. generalize initial.
    induction actions as [|a l IH]; intros s Hs; cbn [fold_left]; auto.
    apply IH. apply well_kept_act. exact Hs. }
  destruct H as (Hne & Hnd & Hall). conjs; auto.
  rewrite Forall_forall in Hall. exact Hall.
Qed.

Lemma find_update (id0 id' : nat) (g : CarrierData -> CarrierData)
  (l : list CarrierData) :
  (forall c, id (g c) = id c) ->
  find (fun c => Nat.eqb (id c) id')
    (map (fun c => if Nat.eqb (id c) id0 then g c else c) l)
  = option_map (fun c => if Nat.eqb id' id0 then g c else c)
      (find (fun c => Nat.eqb (id c) id') l).
Proof.
  intros Hg. induction l as [|c l IH]; cbn [map find option_map]; auto.
  rewrite (update_keeps_id id0 g Hg c).
  destruct (Nat.eqb (id c) id') eqn:E; auto.
  apply Nat.eqb_eq in E. subst id'. reflexivity.
Qed.

(** X19. Attaching a file sets one slot of one carrier: the carrier of
    the given id gets the file, under the name of the file, in the slot
    of the given line; its other slots, its name and its id, and every
    other carrier, stay as they are, and no carrier appears or
    disappears. *)
Theorem file_upload_sets_one_slot :
  forall (st : state) (id0 : nat) (t : line) (f : File)
         (id' : nat) (t' : line),
    match carrier id' st with
    | Some c =>
        exists c',
          carrier id' (handleFileUpload id0 t f st) = Some c'
          /\ id c' = id c /\ name c' = name c
          /\ slot t' c' =
             if Nat.eqb id' id0 && line_eqb t' t
             then {| file := Some f; file_name := QCNewPage.name f |}
             else slot t' c
    | None => carrier id' (handleFileUpload id0 t f st) = None
    end.
Proof.
  intros st id0 t f id' t'. unfold carrier, handleFileUpload.
  cbn [setCarriers carriers].
  rewrite (find_update id0 id' (with_file t f));
    [|intros c; reflexivity].
  destruct (find (fun c => Nat.eqb (id c) id') (carriers st)) as [c|];
    cbn [option_map]; [|reflexivity].
  eexists. split; [reflexivity|].
  destruct (Nat.eqb id' id0); cbn [andb]; conjs; auto.
  destruct t, t'; reflexivity.
Qed.

Lemma files_of_app (a b : list (string * form_value)) :
  files_of (a ++ b) = (files_of a ++ files_of b)%list.
Proof. apply flat_map_app. Qed.

Lemma metadata_of_app (a b : list (string * form_value)) :
  metadata_of (a ++ b) = (metadata_of a ++ metadata_of b)%list.
Proof. apply flat_map_app. Qed.

Lemma append_slot_pairs (i : nat) (t : line) (c : CarrierData) :
  files_of (append_slot i t c) = map fst (slot_pair i t c)
  /\ metadata_of (append_slot i t c) = map snd (slot_pair i t c).
Proof.
  unfold append_slot, slot_pair. destruct (file (slot t c)); split; reflexivity.
Qed.

Lemma forEach_carrier_pairs (l : list CarrierData) :
  forall i,
    files_of (forEach_carrier i l) = map fst (pairs_from i l)
    /\ metadata_of (forEach_carrier i l) = map snd (pairs_from i l).
Proof.
  induction l as [|c l IH]; intros i; cbn [forEach_carrier pairs_from];
    [split; reflexivity|].
  rewrite !files_of_app, !metadata_of_app, !map_app.
  destruct (IH (S i)) as [-> ->].
  destruct (append_slot_pairs i property c) as [-> ->].
  destruct (append_slot_pairs i liability c) as [-> ->].
  destruct (append_slot_pairs i liquor c) as [-> ->].
  destruct (append_slot_pairs i workersComp c) as [-> ->].
  split; reflexivity.
Qed.

Lemma slot_pair_In (i : nat) (t : line) (c : CarrierData) (f : File)
  (m : value) :
  In (f, m) (slot_pair i t c)
  <-> m = file_metadata i t /\ file (slot t c) = Some f.
Proof.
  unfold slot_pair. destruct (file (slot t c)) as [x|]; cbn [In].
  - split.
    + intros [[= -> ->]|[]]. auto.
    + intros [-> [= ->]]. auto.
  - split; [intros [] | intros [_ H]; discriminate H].
Qed.

Lemma pairs_from_In (l : list CarrierData) :
  forall (i0 : nat) (f : File) (m : value),
    In (f, m) (pairs_from i0 l)
    <-> exists i t c,
          m = file_metadata (i0 + i) t
          /\ nth_error l i = Some c /\ file (slot t c) = Some f.
Proof.
  induction l as [|c l IH]; intros i0 f m; cbn [pairs_from].
  - split; [intros [] | intros (i & t & c & _ & H & _)].
    destruct i; discriminate H.
  - rewrite !in_app_iff, !slot_pair_In, IH. split.
    + intros [H|[H|[H|[H|(i & t & c' & Hm & Hn & Hf)]]]].
      * exists 0, property, c. rewrite Nat.add_0_r. tauto.
      * exists 0, liability, c. rewrite Nat.add_0_r. tauto.
      * exists 0, liquor, c. rewrite Nat.add_0_r. tauto.
      * exists 0, workersComp, c. rewrite Nat.add_0_r. tauto.
      * exists (S i), t, c'. rewrite Nat.add_succ_r. tauto.
    + intros (i & t & c' & Hm & Hn & Hf). destruct i as [|i].
      * cbn [nth_error] in Hn. injection Hn as <-.
        rewrite Nat.add_0_r in Hm. destruct t; tauto.
      * cbn [nth_error] in Hn. right. right. right. right.
        exists i, t, c'. rewrite Nat.add_succ_r in Hm. tauto.
Qed.

Lemma nth_error_pair {A B : Type} (l : list (A * B)) :
  forall k a b,
    nth_error (map fst l) k = Some a -> nth_error (map snd l) k = Some b ->
    nth_error l k = Some (a, b).
Proof.
  induction l as [|[x y] l IH]; intros [|k] a b Ha Hb; cbn in *;
    try discriminate; auto.
  congruence.
Qed.

(** X20. In the body of the upload request the files and the metadata
    pair up by position: there are as many [file_metadata] entries as
    [files] entries, the metadata at a position names a carrier, by its
    index in the list, and a line whose slot holds the file at that
    position, and every file attached to a carrier is sent, with the
    metadata of its carrier and line. *)
Theorem files_and_metadata_pair_up :
  forall (l : list CarrierData),
    List.length (files_of (formData l))
    = List.length (metadata_of (formData l))
    /\ (forall k f m,
          nth_error (files_of (formData l)) k = Some f ->
          nth_error (metadata_of (formData l)) k = Some m ->
          exists i t c,
            m = file_metadata i t
            /\ nth_error l i = Some c /\ file (slot t c) = Some f)
    /\ (forall i t c f,
          nth_error l i = Some c -> file (slot t c) = Some f ->
          exists k,
            nth_error (files_of (formData l)) k = Some f
            /\ nth_error (metadata_of (formData l)) k
               = Some (file_metadata i t)).
Proof.
  intros l.
  assert (Ef : files_of (formData l) = map fst (pairs_from 0 l)).
  { unfold formData. cbn [files_of flat_map String.eqb app].
    exact (proj1 (forEach_carrier_pairs l 0)). }
  assert (Em : metadata_of (formData l) = map snd (pairs_from 0 l)).
  { unfold formData. cbn [metadata_of flat_map app].
    change (String.eqb "carriers_json" "file_metadata") with false.
    exact (proj2 (forEach_carrier_pairs l 0)). }
  rewrite Ef, Em. conjs.
  - rewrite !length_map. reflexivity.
  - intros k f m Hf Hm.
    pose proof (nth_error_pair _ _ _ _ Hf Hm) as Hp.
    apply nth_error_In in Hp. apply pairs_from_In in Hp. exact Hp.
  - intros i t c f Hn Hf.
    assert (Hin : In (f, file_metadata i t) (pairs_from 0 l)).
    { apply pairs_from_In. exists i, t, c. auto. }
    apply In_nth_error in Hin. destruct Hin as [k Hk]. exists k.
    split.
    + rewrite nth_error_map, Hk. reflexivity.
    + rewrite nth_error_map, Hk. reflexivity.
Qed.

(** X21. [handleExecute] sends its request exactly when the session is
    loaded and has a user name, every carrier has a name that is not
    blank, and some carrier has a file. Otherwise it shows an alert and
    changes nothing else. When it sends, the carriers are left as they
    are, [isExecuting] is off again at the end, and the call ends with
    an error message and no result, or with no error and the parsed body
    of an ok response as the result. *)
Theorem execute_sends_iff_valid :
  forall (trim : string -> string) (authLoading : bool)
         (username : option string) (st : state)
         (net : QCNewPage.fetch_outcome),
    let o := handleExecute trim authLoading username st net in
    (sent o <> [] <->
     authLoading = false
     /\ (exists u, username = Some u /\ u <> "")
     /\ isValid trim (carriers st) = true
     /\ hasAnyFiles (carriers st) = true)
    /\ (sent o = [] -> exists msg, final o = alert msg st)
    /\ (sent o <> [] ->
        carriers (final o) = carriers st
        /\ isExecuting (final o) = false
        /\ (uploadError (final o) <> "" /\ uploadResult (final o) = VNull
            \/ uploadError (final o) = ""
               /\ exists status data,
                    net = QCNewPage.Responded status (JsonOk data)
                    /\ QCNewPage.response_ok status = true
                    /\ uploadResult (final o) = data)).
Proof.
  intros trim authLoading username st net o. subst o. unfold handleExecute.
  assert (Halert : forall msg,
    sent {| final := alert msg st; sent := [] |} = [] ->
    exists msg', final {| final := alert msg st; sent := [] |}
                 = alert msg' st).
  { intros msg _. exists msg. reflexivity. }
  destruct authLoading.
  { split; [split|split]; auto.
    - intros H. exfalso. apply H. reflexivity.
    - intros (H & _). discriminate H.
    - intros H. exfalso. apply H. reflexivity. }
  destruct username as [[|ch u]|].
  { split; [split|split]; auto.
    - intros H. exfalso. apply H. reflexivity.
    - intros (_ & (u & Hu & Hne) & _). injection Hu as <-. congruence.
    - intros H. exfalso. apply H. reflexivity. }
  2:{ split; [split|split]; auto.
      - intros H. exfalso. apply H. reflexivity.
      - intros (_ & (u & Hu & _) & _). discriminate Hu.
      - intros H. exfalso. apply H. reflexivity. }
  destruct (isValid trim (carriers st)); cbn [negb].
  2:{ split; [split|split]; auto.
      - intros H. exfalso. apply H. reflexivity.
      - intros (_ & _ & H & _). discriminate H.
      - intros H. exfalso. apply H. reflexivity. }
  destruct (hasAnyFiles (carriers st)); cbn [negb].
  2:{ split; [split|split]; auto.
      - intros H. exfalso. apply H. reflexivity.
      - intros (_ & _ & _ & H). discriminate H.
      - intros H. exfalso. apply H. reflexivity. }
  cbn [sent final]. split; [split|split].
  - intros _. repeat split. eexists. split; [reflexivity | discriminate].
  - discriminate.
  - discriminate.
  - intros _. unfold end_execute, begin_execute.
    cbn [carriers isExecuting uploadError uploadResult].
    split; [reflexivity|]. split; [reflexivity|].
    destruct (read_response net) as [msg|data] eqn:Er.
    + left. split; auto.
      destruct (String.eqb msg "") eqn:E; [discriminate|].
      apply String.eqb_neq. exact E.
    + right. split; auto. unfold read_response in Er.
      destruct net as [|m|status [m|d]]; try discriminate.
      destruct (QCNewPage.response_ok status) eqn:Eok; cbn [negb] in Er.
      * injection Er as <-. eauto.
      * destruct (is_nullish d); discriminate.
Qed.

(** X22. [handleConfirmExecution] goes on to the confirmation page only
    with an upload id: the upload result must have a truthy [uploadId]
    and the quality analysis, asked for that id, must answer with an ok
    status and [success]; the page it goes to then carries the same id.
    In every other case nothing is pushed and an error message is
    shown, without any request when the upload id is missing.
    [isExecuting] is off at the end either way. *)
Theorem confirmation_needs_an_upload_id :
  forall (encodeURIComponent : string -> string) (st : state)
         (net : quality_reply),
    let o := handleConfirmExecution encodeURIComponent st net in
    let uploadId := uploadId_of (uploadResult st) in
    isExecuting (confirmed o) = false
    /\ (truthy uploadId = false ->
        asked o = [] /\ pushed o = []
        /\ uploadError (confirmed o)
           = "Missing uploadId. Please execute upload first.")
    /\ (truthy uploadId = true ->
        asked o = ["/phase1/quality-analysis?uploadId="
                   ++ encodeURIComponent (toString uploadId)])
    /\ (pushed o <> [] ->
        truthy uploadId = true
        /\ pushed o = ["/summary/confirmed?uploadId="
                       ++ encodeURIComponent (toString uploadId)]
        /\ uploadError (confirmed o) = ""
        /\ exists status data,
             net = Answer status (JsonOk data)
             /\ QCNewPage.response_ok status = true
             /\ truthy (get "success" data) = true)
    /\ (pushed o = [] -> uploadError (confirmed o) <> "").
Proof.
  intros enc st net o uploadId. subst o uploadId.
  unfold handleConfirmExecution.
  destruct (truthy (uploadId_of (uploadResult st))) eqn:Et; cbn [negb].
  - destruct (quality_error net) as [msg|] eqn:Eq;
      cbn [confirmed asked pushed end_confirm isExecuting uploadError];
      conjs; auto; try discriminate; try congruence.
    + intros _. destruct (String.eqb msg "") eqn:E; [discriminate|].
      apply String.eqb_neq. exact E.
    + intros _. conjs; auto. unfold quality_error in Eq.
      destruct net as [m|status [m|data]]; try discriminate.
      destruct (is_nullish data); try discriminate.
      destruct (QCNewPage.response_ok status) eqn:Eok; cbn [negb orb] in Eq;
        try discriminate.
      destruct (truthy (get "success" data)) eqn:Es; cbn [negb] in Eq;
        try discriminate.
      exists status, data. auto.
  - cbn [confirmed asked pushed end_confirm isExecuting uploadError].
    conjs; auto; try discriminate; try congruence.
Qed.

End Carriers.

(* ------------------------------------------------------------------ *)
(** ** The prefill service: what the mapping decides *)

Section Prefill.

Import InsuranceFormPrefillService.

Ltac conjs := repeat match goal with |- _ /\ _ => split end.

Lemma applicant_type_cases (toUpperCase : string -> string)
  (attributes : value) (t : string) :
  _determineApplicantType toUpperCase attributes = Some t ->
  exists ownerName,
    or (get "deed_owner_full_name" attributes)
       (or (get "owner_full_name" attributes) (VStr "")) = VStr ownerName
    /\ (t = "llc" /\ includes "LLC" (toUpperCase ownerName) = true
        \/ t = "corporation"
           /\ (includes "CORP" (toUpperCase ownerName)
               || includes "CORPORATION" (toUpperCase ownerName)
               || includes "INC" (toUpperCase ownerName)) = true
        \/ t = "partnership" \/ t = "jointVenture" \/ t = "individual").
Proof.
  unfold _determineApplicantType.
  destruct (or (get "deed_owner_full_name" attributes)
               (or (get "owner_full_name" attributes) (VStr "")))
    as [| | | |ownerName| |]; try discriminate.
  intros H. exists ownerName. split; [reflexivity|].
  destruct (includes "LLC" (toUpperCase ownerName)) eqn:E1.
  { injection H as <-. auto. }
  destruct (includes "CORP" (toUpperCase ownerName)) eqn:E2.
  { injection H as <-. auto. }
  destruct (includes "CORPORATION" (toUpperCase ownerName)) eqn:E3.
  { injection H as <-. auto. }
  destruct (includes "INC" (toUpperCase ownerName)) eqn:E4.
  { injection H as <-. auto. }
  cbn [orb negb andb] in H. rewrite orb_true_r in H.
  destruct (includes "PARTNERSHIP" (toUpperCase ownerName)
            || includes "LP" (toUpperCase ownerName)).
  { injection H as <-. auto. }
  destruct (includes "JOINT VENTURE" (toUpperCase ownerName));
    injection H as <-; auto 6.
Qed.

(** X23. [_determineApplicantType] never answers 'other': whenever it
    returns, the type is one of 'llc', 'corporation', 'partnership',
    'jointVenture' and 'individual', and it depends on the two owner
    names only; the occupancy status it tests changes nothing. *)
Theorem applicant_type_is_never_other :
  forall (toUpperCase : string -> string) (attributes : value) (t : string),
    _determineApplicantType toUpperCase attributes = Some t ->
    In t applicant_types
    /\ forall attributes',
         get "deed_owner_full_name" attributes'
         = get "deed_owner_full_name" attributes ->
         get "owner_full_name" attributes'
         = get "owner_full_name" attributes ->
         _determineApplicantType toUpperCase attributes' = Some t.
Proof.
  intros toUpperCase attributes t H. split.
  - destruct (applicant_type_cases toUpperCase attributes t H)
      as (n & _ & [[-> _] | [[-> _] | [-> | [-> | ->]]]]);
      unfold applicant_types; simpl; tauto.
  - intros attributes' Hd Ho. rewrite <- H.
    unfold _determineApplicantType. rewrite Hd, Ho.
    destruct (or (get "deed_owner_full_name" attributes)
                 (or (get "owner_full_name" attributes) (VStr "")))
      as [| | | |ownerName| |]; try reflexivity.
    destruct (includes "LLC" (toUpperCase ownerName)); [reflexivity|].
    destruct (includes "CORP" (toUpperCase ownerName)); [reflexivity|].
    destruct (includes "CORPORATION" (toUpperCase ownerName));
      [reflexivity|].
    destruct (includes "INC" (toUpperCase ownerName)); [reflexivity|].
    cbn [orb negb andb]. rewrite !orb_true_r. reflexivity.
Qed.

Lemma first_business_name_found (toUpperCase : string -> string)
  (attributes : value) (field : string)
  (rest : list string) (n : string) :
  get field attributes = VStr n -> n <> "" ->
  existsb (fun indicator => includes indicator (toUpperCase n))
    businessIndicators = true ->
  first_business_name toUpperCase attributes (field :: rest) = VStr n.
Proof.
  intros Hg Hn He. cbn [first_business_name]. rewrite Hg, He.
  apply String.eqb_neq in Hn. rewrite Hn. reflexivity.
Qed.

Lemma first_business_name_skips (toUpperCase : string -> string)
  (attributes : value) (field : string)
  (rest : list string) :
  truthy (get field attributes) = false ->
  first_business_name toUpperCase attributes (field :: rest)
  = first_business_name toUpperCase attributes rest.
Proof.
  intros Hf. cbn [first_business_name].
  destruct (get field attributes) as [| | | |s| |]; try reflexivity.
  cbn [truthy] in Hf. apply negb_false_iff in Hf. rewrite Hf. reflexivity.
Qed.

(** X24. An applicant type of 'llc' or 'corporation' always comes with
    a corporation name, and the name is the owner name the type was
    read from: the deed owner's full name, or else the owner's full
    name. *)
Theorem company_types_come_with_the_owner_name :
  forall (toUpperCase : string -> string) (attributes : value) (t : string),
    toUpperCase "" = "" ->
    _determineApplicantType toUpperCase attributes = Some t ->
    t = "llc" \/ t = "corporation" ->
    exists ownerName,
      ownerName <> ""
      /\ or (get "deed_owner_full_name" attributes)
            (get "owner_full_name" attributes) = VStr ownerName
      /\ _extractCorporationName toUpperCase attributes = VStr ownerName.
Proof.
  intros toUpperCase attributes t Hup H Ht.
  destruct (applicant_type_cases toUpperCase attributes t H)
    as (n & Hn & Hcase).
  assert (Hind : existsb (fun indicator => includes indicator (toUpperCase n))
                   businessIndicators = true).
  { cbn [existsb businessIndicators].
    destruct Hcase as [[_ E]|[[_ E]|Hother]].
    - rewrite E. reflexivity.
    - apply orb_true_iff in E. destruct E as [E|E].
      + apply orb_true_iff in E. destruct E as [E|E]; rewrite E;
          rewrite ?orb_true_r; reflexivity.
      + rewrite E. rewrite ?orb_true_r. reflexivity.
    - destruct Ht as [-> | ->], Hother as [Ho | [Ho | Ho]]; discriminate Ho. }
  assert (Hne : n <> "").
  { intros ->. rewrite Hup in Hind. cbn in Hind. discriminate Hind. }
  exists n. split; [exact Hne|]. unfold _extractCorporationName, ownerFields.
  unfold or in Hn |- *.
  destruct (truthy (get "deed_owner_full_name" attributes)) eqn:Ed.
  - split; [exact Hn|].
    exact (first_business_name_found _ _ _ _ _ Hn Hne Hind).
  - destruct (truthy (get "owner_full_name" attributes)) eqn:Eo.
    + split; [exact Hn|]. rewrite (first_business_name_skips _ _ _ _ Ed).
      exact (first_business_name_found _ _ _ _ _ Hn Hne Hind).
    + injection Hn as <-. congruence.
Qed.

Lemma lookup_app (k : string) (a b : list (string * value)) :
  lookup k (a ++ b)
  = match lookup k a with
    | Some v => Some v
    | None => lookup k b
    end.
Proof.
  induction a as [|[k' v] a IH]; cbn [app lookup]; auto.
  destruct (String.eqb k k'); auto.
Qed.

Lemma lookup_field_other (k k' : string) (cond : bool) (v : value) :
  String.eqb k k' = false -> lookup k (field k' cond v) = None.
Proof.
  intros H. unfold field. destruct cond; cbn [lookup]; auto.
  rewrite H. reflexivity.
Qed.

Lemma lookup_field_of_other (k k' : string) (o : option string) :
  String.eqb k k' = false -> lookup k (field_of k' o) = None.
Proof.
  intros H. destruct o as [s|]; [|reflexivity].
  apply lookup_field_other. exact H.
Qed.

Lemma lookup_field_same (k s : string) :
  s <> "" ->
  lookup k (field k (negb (String.eqb s "")) (VStr s)) = Some (VStr s).
Proof.
  intros H. apply String.eqb_neq in H. unfold field.
  rewrite H. cbn [negb lookup]. rewrite String.eqb_refl. reflexivity.
Qed.

Ltac skip_other_fields :=
  repeat match goal with
         | |- context [lookup ?k (field ?k' ?c ?v)] =>
             rewrite (lookup_field_other k k' c v eq_refl)
         | |- context [lookup ?k (field_of ?k' ?o)] =>
             rewrite (lookup_field_of_other k k' o eq_refl)
         end.

Lemma ownership_type_cases (attributes : value) :
  let status := get "owner_occupancy_status" attributes in
  _determineOwnershipType attributes = "leased"
  /\ (status = VStr "ABSENTEE OWNER" \/ status = VStr "NON-OWNER OCCUPIED")
  \/ _determineOwnershipType attributes = "owned"
     /\ status <> VStr "ABSENTEE OWNER"
     /\ status <> VStr "NON-OWNER OCCUPIED".
Proof.
  intros status. unfold _determineOwnershipType. fold status.
  destruct (str_eq status "OWNER OCCUPIED") eqn:E1.
  - apply str_eq_true in E1. right. rewrite E1.
    conjs; [reflexivity | discriminate | discriminate].
  - destruct (str_eq status "ABSENTEE OWNER") eqn:E2.
    + apply str_eq_true in E2. left. auto.
    + destruct (str_eq status "NON-OWNER OCCUPIED") eqn:E3.
      * apply str_eq_true in E3. left. auto.
      * apply str_eq_false in E2, E3. right. auto.
Qed.

(** X25. Whatever the property record holds, the mapping, when it
    returns, fills in the applicant type and the ownership type: the
    applicant type is never 'other', and the ownership is 'leased' for
    an absentee owner or a non-owner-occupied property and 'owned' in
    every other case, a missing status included. So the form never gets
    fewer than two fields. *)
Theorem mapping_always_fills_applicant_and_ownership :
  forall (toUpperCase toLowerCase trim : string -> string)
         (parseInt : value -> option Z)
         (isNaN : value -> bool) (toLocaleString : Z -> string)
         (propertyData : value) (mappedData : list (string * value)),
    _mapToInsuranceForm toUpperCase toLowerCase trim parseInt isNaN
      toLocaleString propertyData = Some mappedData ->
    let status := get "owner_occupancy_status"
                    (or (get "attributes" propertyData) (VObj [])) in
    (exists t, lookup "applicantType" mappedData = Some (VStr t)
               /\ In t applicant_types)
    /\ (lookup "ownershipType" mappedData = Some (VStr "leased")
        /\ (status = VStr "ABSENTEE OWNER"
            \/ status = VStr "NON-OWNER OCCUPIED")
        \/ lookup "ownershipType" mappedData = Some (VStr "owned")
           /\ status <> VStr "ABSENTEE OWNER"
           /\ status <> VStr "NON-OWNER OCCUPIED")
    /\ 2 <= List.length mappedData.
Proof.
  intros toUpperCase toLowerCase trim parseInt isNaN toLocaleString
    propertyData mappedData H status.
  unfold _mapToInsuranceForm in H.
  destruct (is_nullish propertyData); try discriminate.
  set (attributes := or (get "attributes" propertyData) (VObj [])) in *.
  destruct (_determineApplicantType toUpperCase attributes)
    as [t|] eqn:Et; try discriminate.
  destruct (_determineOperationType toLowerCase attributes)
    as [op|]; try discriminate.
  destruct (_determineConstructionType toLowerCase parseInt attributes)
    as [ct|]; try discriminate.
  injection H as <-.
  assert (Hin : In t applicant_types).
  { destruct (applicant_type_cases toUpperCase attributes t Et)
      as (n & _ & [[-> _] | [[-> _] | [-> | [-> | ->]]]]);
      unfold applicant_types; simpl; tauto. }
  assert (Hne : t <> "").
  { intros ->. unfold applicant_types in Hin. simpl in Hin.
    intuition discriminate. }
  conjs.
  - exists t. split; [|exact Hin].
    rewrite !lookup_app. skip_other_fields.
    rewrite (lookup_field_same "applicantType" t Hne). reflexivity.
  - rewrite !lookup_app. skip_other_fields.
    destruct (ownership_type_cases attributes) as [[E Hs]|[E Hs]];
      rewrite E; rewrite lookup_field_same by discriminate;
      [left | right]; split; auto.
  - rewrite !length_app.
    assert (L1 : List.length
                   (field "applicantType" (negb (String.eqb t "")) (VStr t))
                 = 1).
    { unfold field. apply String.eqb_neq in Hne. rewrite Hne.
      reflexivity. }
    assert (L2 : List.length
                   (field "ownershipType"
                      (negb (String.eqb (_determineOwnershipType attributes)
                               ""))
                      (VStr (_determineOwnershipType attributes))) = 1).
    { destruct (ownership_type_cases attributes) as [[E _]|[E _]];
        rewrite E; reflexivity. }
    rewrite L1, L2. lia.
Qed.

(** X26. 'Commercial Business' is only ever chosen from the zoning: when
    [_determineOperationType] answers it, the zoning mentions
    "commercial" and the land use does not. A land use that mentions
    "commercial" is classed as a convenience store (or a gas station)
    before that test is reached. *)
Theorem commercial_business_comes_from_zoning :
  forall (toLowerCase : string -> string) (attributes : value),
    _determineOperationType toLowerCase attributes
    = Some (Some "Commercial Business") ->
    exists landUse zoning,
      or (get "land_use_standard" attributes)
         (or (get "land_use_code" attributes) (VStr "")) = VStr landUse
      /\ or (get "zoning" attributes) (VStr "") = VStr zoning
      /\ includes "commercial" (toLowerCase zoning) = true
      /\ includes "commercial" (toLowerCase landUse) = false.
Proof.
  intros toLowerCase attributes H.
  unfold _determineOperationType, lower in H.
  destruct (or (get "land_use_standard" attributes)
               (or (get "land_use_code" attributes) (VStr "")))
    as [| | | |landUse| |]; try discriminate.
  destruct (or (get "zoning" attributes) (VStr ""))
    as [| | | |zoning| |]; try discriminate.
  exists landUse, zoning. split; [reflexivity|]. split; [reflexivity|].
  injection H as H.
  destruct (includes "gas" (toLowerCase landUse)
            || includes "fuel" (toLowerCase landUse)
            || includes "service station" (toLowerCase landUse)
            || includes "gas" (toLowerCase zoning)
            || includes "fuel" (toLowerCase zoning)
            || includes "service" (toLowerCase zoning)); try discriminate.
  destruct (includes "commercial" (toLowerCase landUse)) eqn:Ec.
  { rewrite orb_true_r in H. cbn [orb] in H. discriminate. }
  rewrite orb_false_r in H.
  destruct (includes "retail" (toLowerCase landUse)
            || includes "store" (toLowerCase landUse)); try discriminate.
  destruct (includes "restaurant" (toLowerCase landUse)
            || includes "food" (toLowerCase landUse)); try discriminate.
  destruct (includes "office" (toLowerCase landUse)); try discriminate.
  destruct (includes "warehouse" (toLowerCase landUse)
            || includes "industrial" (toLowerCase landUse));
    try discriminate.
  cbn [orb] in H.
  destruct (includes "commercial" (toLowerCase zoning)); [auto|discriminate].
Qed.

End Prefill.

Section PrefillExamples.

Import InsuranceFormPrefillService.

Lemma applicant_type_is_never_other_witness :
  In "partnership" applicant_types
  /\ _determineApplicantType QCNewResultsView.toUpperCase
       (VObj [("owner_full_name", VStr "Ralph Smith");
              ("owner_occupancy_status", VStr "OWNER OCCUPIED")])
     = Some "partnership".
Proof.
  destruct (applicant_type_is_never_other QCNewResultsView.toUpperCase
              (VObj [("owner_full_name", VStr "Ralph Smith")])
              "partnership" eq_refl) as [Hin Hsame].
  split; [exact Hin|]. apply Hsame; reflexivity.
Defined.

Lemma company_types_come_with_the_owner_name_witness :
  exists ownerName,
    ownerName <> ""
    /\ _extractCorporationName QCNewResultsView.toUpperCase
         (get "attributes" company_record) = VStr ownerName.
Proof.
  destruct (company_types_come_with_the_owner_name
              QCNewResultsView.toUpperCase
              (get "attributes" company_record) "llc"
              eq_refl eq_refl (or_introl eq_refl))
    as (n & Hn & _ & He).
  exists n. split; [exact Hn | exact He].
Defined.

Lemma mapping_always_fills_applicant_and_ownership_witness :
  exists mappedData,
    _mapToInsuranceForm QCNewResultsView.toUpperCase ascii_lower
      (fun s => s) parse_number (fun _ => false)
      (fun n => toString (VNum n)) company_record = Some mappedData
    /\ lookup "ownershipType" mappedData = Some (VStr "leased")
    /\ 2 <= List.length mappedData.
Proof.
  destruct (_mapToInsuranceForm QCNewResultsView.toUpperCase ascii_lower
              (fun s => s) parse_number (fun _ => false)
              (fun n => toString (VNum n)) company_record)
    as [mappedData|] eqn:E.
  - exists mappedData. split; [reflexivity|].
    destruct (mapping_always_fills_applicant_and_ownership
                _ _ _ _ _ _ _ _ E) as (_ & Ho & Hlen).
    split; [|exact Hlen].
    destruct Ho as [[Ho _]|[_ [Hs _]]]; [exact Ho|].
    exfalso. apply Hs. reflexivity.
  - vm_compute in E. discriminate E.
Defined.

Lemma commercial_business_comes_from_zoning_witness :
  exists landUse zoning,
    or (get "land_use_standard" (VObj [("zoning", VStr "General Commercial")]))
       (or (get "land_use_code" (VObj [("zoning", VStr "General Commercial")]))
           (VStr "")) = VStr landUse
    /\ or (get "zoning" (VObj [("zoning", VStr "General Commercial")]))
          (VStr "") = VStr zoning
    /\ includes "commercial" (ascii_lower zoning) = true.
Proof.
  destruct (commercial_business_comes_from_zoning ascii_lower
              (VObj [("zoning", VStr "General Commercial")]) eq_refl)
    as (landUse & zoning & Hl & Hz & Hc & _).
  exists landUse, zoning. split; [exact Hl|]. split; [exact Hz | exact Hc].
Defined.

End PrefillExamples.

(* ------------------------------------------------------------------ *)
(** ** The session: login, reload and logout *)

Section Sessions.

Import AuthContext.

Ltac conjs := repeat match goal with |- _ /\ _ => split end.

Lemma rethrown_nonempty (dflt msg : string) :
  dflt <> "" -> rethrown dflt msg <> "".
Proof.
  intros Hd. unfold rethrown.
  destruct (includes "Failed to fetch" msg || includes "NetworkError" msg);
    [discriminate|].
  destruct (String.eqb msg "") eqn:E; auto.
  apply String.eqb_neq. exact E.
Qed.

Lemma answer_cases (dflt : string) (net : fetch_result) :
  dflt <> "" ->
  match answer dflt net with
  | inl msg => msg <> ""
  | inr userData =>
      exists r data,
        net = Response r (JsonOk data)
        /\ QCNewResults.ok r = true
        /\ is_nullish data = false
        /\ userData = VObj [("username", get "username" data)]
  end.
Proof.
  intros Hd. unfold answer. destruct net as [|msg|r body].
  - discriminate.
  - apply rethrown_nonempty. exact Hd.
  - destruct (QCNewResults.ok r) eqn:Eok; cbn [negb].
    + destruct body as [msg|data].
      * apply rethrown_nonempty. exact Hd.
      * destruct (is_nullish data) eqn:En.
        -- apply rethrown_nonempty. exact Hd.
        -- exists r, data. auto.
    + apply rethrown_nonempty. exact Hd.
Qed.

(** X27. A call of [login] always ends with [loading] off. It resolves
    only for an ok response with a JSON body that is not [null], and
    then the user is the [username] of the body, the session is logged
    in and the user is stored; in every other case it rejects with a
    message that is not empty and leaves the user, the login flag and
    the stored user as they were. *)
Theorem login_resolves_or_changes_nothing :
  forall (stringify : value -> string) (net : fetch_result) (st : state),
    let o := login stringify net st in
    loading (after o) = false
    /\ (rejected o = None ->
        exists r data,
          net = Response r (JsonOk data)
          /\ QCNewResults.ok r = true
          /\ is_nullish data = false
          /\ user (after o) = VObj [("username", get "username" data)]
          /\ isLoggedIn (after o) = true
          /\ storedUser (after o) = Some (stringify (user (after o))))
    /\ (forall msg,
          rejected o = Some msg ->
          msg <> ""
          /\ user (after o) = user st
          /\ isLoggedIn (after o) = isLoggedIn st
          /\ storedUser (after o) = storedUser st).
Proof.
  intros stringify net st o. subst o. unfold login, authenticate.
  pose proof (answer_cases "Login failed" net ltac:(discriminate)) as H.
  destruct (answer "Login failed" net) as [msg|userData];
    cbn [after rejected loading user isLoggedIn storedUser].
  - split; [reflexivity|]. split; [discriminate|].
    intros m [= <-]. auto.
  - split; [reflexivity|]. split; [|discriminate].
    intros _. destruct H as (r & data & Hn & Hok & Hnull & ->).
    exists r, data. auto 6.
Qed.

Lemma loadUser_stored (parse : string -> option value) (stored : string)
  (userData : value) :
  stored <> "" -> parse stored = Some userData ->
  loadUser parse (mounted (Some stored))
  = {| user := userData; isLoggedIn := true; loading := false;
       storedUser := Some stored |}.
Proof.
  intros Hne Hp. destruct stored as [|c rest]; [congruence|].
  unfold loadUser, mounted. cbn [storedUser]. rewrite Hp. reflexivity.
Qed.

(** X28. The session survives a reload and ends with a logout: when
    [JSON.parse] reads back the user that [JSON.stringify] has written
    (a text that is not empty), a provider mounted over the storage a
    successful login has left loads the same user, logged in; mounted
    over the storage left by a logout it has no user. *)
Theorem session_round_trip :
  forall (parse : string -> option value) (stringify : value -> string)
         (net : fetch_result) (st : state),
    let logged := after (login stringify net st) in
    rejected (login stringify net st) = None ->
    parse (stringify (user logged)) = Some (user logged) ->
    stringify (user logged) <> "" ->
    let reloaded := loadUser parse (mounted (storedUser logged)) in
    let left := loadUser parse (mounted (storedUser (logout logged))) in
    user reloaded = user logged
    /\ isLoggedIn reloaded = true
    /\ loading reloaded = false
    /\ user left = VNull
    /\ isLoggedIn left = false
    /\ loading left = false.
Proof.
  intros parse stringify net st logged Hok Hrt Hne reloaded left.
  subst logged reloaded left. unfold login, authenticate in *.
  destruct (answer "Login failed" net) as [msg|userData];
    cbn [rejected] in Hok; [discriminate|].
  cbn [after storedUser logout user] in *.
  rewrite (loadUser_stored parse (stringify userData) userData Hne Hrt).
  cbn [user isLoggedIn loading]. conjs; reflexivity.
Qed.

Lemma session_round_trip_witness :
  let stringify := fun v => "user:" ++ toString (get "username" v) in
  let parse := fun s =>
    Some (VObj [("username", VStr (substring 5 (String.length s - 5) s))]) in
  let net := Response {| QCNewResults.status := 200;
                         QCNewResults.statusText := "OK" |}
               (JsonOk (VObj [("username", VStr "ann")])) in
  user (loadUser parse
          (mounted (storedUser (after (login stringify net (mounted None))))))
  = VObj [("username", VStr "ann")].
Proof.
  intros stringify parse net.
  destruct (session_round_trip parse stringify net (mounted None)
              eq_refl eq_refl ltac:(discriminate)) as (Hu & _).
  exact Hu.
Defined.

End Sessions.

Section EformsGate.

Import EformsAuthProvider.

(** X29. The gate of the C-store forms never redirects twice in a row:
    without a stored profile every page but the sign-in page is sent to
    the sign-in page, with one the sign-in page is sent to the home
    page, and the effect at the page a redirect leads to pushes nothing
    and records whether there is a profile. Loading is off after every
    run of the effect. *)
Theorem eforms_redirect_settles :
  forall (agentProfile : option string) (pathname : string) (st : state),
    isLoading (fst (effect agentProfile pathname st)) = false
    /\ (has_profile agentProfile = false -> pathname <> "/cstore/auth" ->
        snd (effect agentProfile pathname st) = ["/cstore/auth"])
    /\ (has_profile agentProfile = true -> pathname = "/cstore/auth" ->
        snd (effect agentProfile pathname st) = ["/cstore"])
    /\ (snd (effect agentProfile pathname st) = []
        \/ exists target,
             snd (effect agentProfile pathname st) = [target]
             /\ (target = "/cstore/auth" /\ has_profile agentProfile = false
                 \/ target = "/cstore" /\ has_profile agentProfile = true)
             /\ effect agentProfile target
                  (fst (effect agentProfile pathname st))
                = ({| isAuthenticated := has_profile agentProfile;
                      isLoading := false |}, [])).
Proof.
  intros agentProfile pathname st. unfold effect.
  destruct (has_profile agentProfile) eqn:Hp; cbn [negb andb].
  - destruct (String.eqb pathname "/cstore/auth") eqn:E; cbn [fst snd].
    + split; [reflexivity|]. split; [discriminate|].
      split; [reflexivity|]. right. exists "/cstore". auto.
    + split; [reflexivity|]. split; [discriminate|]. split.
      * intros _ Hpath. apply String.eqb_neq in E. contradiction.
      * left. reflexivity.
  - destruct (String.eqb pathname "/cstore/auth") eqn:E; cbn [fst snd negb].
    + split; [reflexivity|]. split.
      * intros _ Hpath. apply String.eqb_eq in E. contradiction.
      * split; [discriminate|]. left. reflexivity.
    + split; [reflexivity|]. split; [reflexivity|].
      split; [discriminate|]. right. exists "/cstore/auth". auto.
Qed.

End EformsGate.
